(** * halotools: composite HOD models and the subhalo mock factory

    A shallow embedding of [halotools/hod_factory.py] (class [HodModel]) and
    of [halotools/empirical_models/factories/subhalo_mock_factory.py]
    (class [SubhaloMockFactory]), with the properties of the composite-model
    builder and of the mock-population pipeline stated over it.

    Python dictionaries whose iteration order decides which error is raised
    first (the model blueprint) are association lists in iteration order;
    dictionaries used as maps (parameter dictionaries, new-haloprop
    dictionaries, table columns) are [gmap]s.  Exceptions are values of [exn];
    a method that can raise returns a [result]. *)

From stdpp Require Import gmap strings list fin_maps fin_sets.
From Stdlib Require Import ZArith.

Set Warnings "-clear-no-such-hyp".

Open Scope string_scope.
Open Scope list_scope.
Open Scope nat_scope.

(** ** Python exceptions and fallible computations *)

(** The exception classes the two modules raise, each with the text or the
    name it carries. *)
Inductive exn : Type :=
  | KeyError (msg : string)
  | AttributeError (attr : string)
  | TypeError (msg : string)
  | SyntaxError (msg : string)
  | NameError (name : string)
  | ValueError (msg : string)
  | IndexError (msg : string)
  | DuplicateParameterError (key : string).

Inductive result (A : Type) : Type :=
  | Ok (a : A)
  | Raise (e : exn).
Arguments Ok {A} a.
Arguments Raise {A} e.

Global Instance result_ret : MRet result := λ A, Ok.
Global Instance result_bind : MBind result :=
  λ A B f r, match r with Ok a => f a | Raise e => Raise e end.

(** [for x in xs: acc = body(acc, x)], stopping at the first exception. *)
Fixpoint for_each {A B : Type} (body : A → B → result A) (xs : list B) (acc : A)
    : result A :=
  match xs with
  | [] => Ok acc
  | x :: rest => acc' ← body acc x; for_each body rest acc'
  end.

(** ** Tables: the column store behind [halo_table] and [galaxy_table] *)

(** One entry of a column.  Only copying, comparing and counting entries
    matters to the factories, so numbers are integers here. *)
Inductive cell : Type :=
  | Num (z : Z)
  | Txt (s : string).

Global Instance cell_eq_dec : EqDecision cell.
Proof. solve_decision. Defined.

Abbreviation column := (list cell).

(** A table is a set of named columns of one common length [nrows]
    ([len(table)]); a table without columns has no rows. *)
Record Table : Type := mkTable {
  nrows : nat;
  columns : gmap string column
}.

Definition table_wf (t : Table) : Prop :=
  (columns t = ∅ → nrows t = 0) ∧
  ∀ k c, columns t !! k = Some c → length c = nrows t.

(** [Table()] *)
Definition Table_new : Table := mkTable 0 ∅.

(** [table[key]] *)
Definition table_getitem (t : Table) (key : string) : result column :=
  match columns t !! key with
  | Some c => Ok c
  | None => Raise (KeyError key)
  end.

(** [table[key] = c]: the first column fixes the number of rows, a later one
    must have that many entries.  A value of one entry, which the table would
    repeat over its rows, is not modelled: it is taken as a length
    mismatch. *)
Definition table_setitem (t : Table) (key : string) (c : column) : result Table :=
  if decide (columns t = ∅) then Ok (mkTable (length c) {[ key := c ]})
  else if decide (length c = nrows t) then Ok (mkTable (nrows t) (<[ key := c ]> (columns t)))
  else Raise (ValueError "Inconsistent data column lengths").

(** [c[mask]] for a boolean array [mask]: the entries at the [True]
    positions, in order. *)
Fixpoint mask_column {A : Type} (mask : list bool) (c : list A) : list A :=
  match mask, c with
  | b :: mask', x :: c' => if b then x :: mask_column mask' c' else mask_column mask' c'
  | _, _ => []
  end.

Definition count_true (mask : list bool) : nat := length (filter (λ b, b = true) mask).

(** [table[mask]]: every column masked.  The mask has one entry per row; an
    empty mask is taken as well, and selects no row. *)
Definition table_getitem_mask (t : Table) (mask : list bool) : result Table :=
  if decide (mask = [] ∨ length mask = nrows t)
  then Ok (mkTable (count_true mask) (mask_column mask <$> columns t))
  else Raise (IndexError "boolean index did not match indexed array").

(** [np.arange(n)] *)
Definition arange (n : nat) : column := (λ i, Num (Z.of_nat i)) <$> seq 0 n.

(** A function of a table that returns one column ([new_haloprop_func],
    [gal_type_func], [mc_<galprop>]). *)
Abbreviation table_func := (Table → column).

(** ** Python dictionaries as maps *)

(** Parameter values; the factory stores and copies them, nothing more. *)
Abbreviation number := Z.

(** [d.items()] and [dict(items)]: in [dict], a later pair overrides an
    earlier one with the same key. *)
Definition items {V : Type} (d : gmap string V) : list (string * V) := map_to_list d.
Definition dict {V : Type} (l : list (string * V)) : gmap string V :=
  list_to_map (reverse l).

(** The values of an association list, in order ([d.values()]). *)
Definition values {K V : Type} (d : list (K * V)) : list V := d.*2.
Definition keys {K V : Type} (d : list (K * V)) : list K := d.*1.

Fixpoint assoc {V : Type} (d : list (string * V)) (key : string) : option V :=
  match d with
  | [] => None
  | (k, v) :: rest => if decide (k = key) then Some v else assoc rest key
  end.

(** Python objects that [set(...)] may be asked to hash: strings are
    hashable, dictionaries are not. *)
Inductive pyobj : Type :=
  | PyStr (s : string)
  | PyDict (d : gmap string string).

Global Instance pyobj_eq_dec : EqDecision pyobj.
Proof. solve_decision. Defined.

Definition hashable (o : pyobj) : bool :=
  match o with PyStr _ => true | PyDict _ => false end.

(** [set(l)]: the distinct elements of [l]; building it hashes every
    element. *)
Definition py_set (l : list pyobj) : result (list pyobj) :=
  if forallb hashable l then Ok (remove_dups l)
  else Raise (TypeError "unhashable type: 'dict'").

(** The two sides of [intersection != {}]: a set of names and a dictionary
    literal.  Objects of different types never compare equal. *)
Inductive pycontainer : Type :=
  | PySet (s : gset string)
  | PyDictOf (d : gset string).

Definition py_eq (a b : pycontainer) : bool :=
  match a, b with
  | PySet s1, PySet s2 => bool_decide (s1 = s2)
  | PyDictOf d1, PyDictOf d2 => bool_decide (d1 = d2)
  | _, _ => false
  end.

(** * hod_factory.py *)

Module Component.
(** A component model instance.  An attribute that the factory probes with
    [hasattr] is an option; an example attribute value is kept as its
    [np.shape]. *)
Record t : Type := mk {
  occupation_bound : option number;
  param_dict : gmap string number;
  sec_haloprop_key : option string;
  new_haloprop_dict : option (gmap string table_func);
  _example_attr_dict : option (gmap string (list nat));
  publications : list string;
  prim_func_dict : gmap string (list column → gmap string number → column)
}.
End Component.

Module HaloProfModel.
Record t : Type := mk {
  prim_haloprop_key : string;
  param_func_dict : gmap string table_func
}.
End HaloProfModel.

(** The mock object handed to [component_behavior] through the keyword
    [mock_galaxies]: per gal_type a precomputed [slice(start, stop)], and the
    halo-property arrays bound to it as attributes. *)
Module MockGalaxies.
Record t : Type := mk {
  _gal_type_indices : gmap string (nat * nat);
  attrs : gmap string column
}.
End MockGalaxies.

(** [model_blueprint]: gal_type → feature name → component, each dictionary
    in its iteration order (keys are distinct). *)
Abbreviation Blueprint := (list (string * list (string * Component.t))).

(** Every component of the blueprint, in the order the double loop
    [for gal_type_dict in model_blueprint.values(): for model_instance in
    gal_type_dict.values()] meets them. *)
Definition components (model_blueprint : Blueprint) : list Component.t :=
  mjoin (values <$> values model_blueprint).

(** [a[start:stop]] *)
Definition py_slice {A : Type} (sl : nat * nat) (a : list A) : list A :=
  take (sl.2 - sl.1) (drop sl.1 a).

Module HodFactory.

(** Modelled from the spec: [occupation_helpers.test_repeated_keys] is
    imported by hod_factory.py and is not among the sources.  The spec:
    "verify none of its parameter names already exist in the accumulator — on
    collision, fails with a DuplicateParameterError naming the offending
    key". *)
Definition test_repeated_keys (d1 d2 : gmap string number) : result unit :=
  match elements (dom d1 ∩ dom d2) with
  | [] => Ok tt
  | key :: _ => Raise (DuplicateParameterError key)
  end.

(** Modelled from the spec: [occupation_helpers.aph_len] is not among the
    sources.  The spec speaks of "positional arrays supplied": the number of
    positional arguments. *)
Definition aph_len {A : Type} (args : list A) : nat := length args.

(** [build_composite_param_dict] *)
Definition build_composite_param_dict (model_blueprint : Blueprint)
    : result (gmap string number) :=
  for_each (λ output_dict gal_type_dict,
    for_each (λ output_dict model_instance,
      test_repeated_keys output_dict (Component.param_dict model_instance);;
      Ok (dict (items (Component.param_dict model_instance) ++ items output_dict)))
      (values gal_type_dict) output_dict)
    (values model_blueprint) ∅.

(** [build_publication_list] *)
Definition build_publication_list (model_blueprint : Blueprint) : list string :=
  foldl (λ pub_list gal_type_dict,
    foldl (λ pub_list model_instance,
      pub_list ++ Component.publications model_instance)
      pub_list (values gal_type_dict))
    [] (values model_blueprint).

(** The state [_create_haloprop_keys] leaves on the model:
    [prim_haloprop_key], and, when set, [sec_haloprop_key] with
    [sec_haloprop_key_dict]. *)
Record HalopropKeys : Type := mkHalopropKeys {
  prim_haloprop_key : string;
  sec_haloprop_key : option pyobj;
  sec_haloprop_key_dict : option (gmap string (gmap string string))
}.

(** The inner loop of [_create_haloprop_keys]: [temp_dict] for one
    gal_type. *)
Definition sec_keys_of (features : list (string * Component.t)) : gmap string string :=
  foldl (λ (temp_dict : gmap string string) (item : string * Component.t),
    let '(behavior_key, behavior_model) := item in
    match Component.sec_haloprop_key behavior_model with
    | Some key => <[ behavior_key := key ]> temp_dict
    | None => temp_dict
    end) ∅ features.

(** [_create_haloprop_keys] *)
Definition _create_haloprop_keys (halo_prof_model : HaloProfModel.t)
    (model_blueprint : Blueprint) : result HalopropKeys :=
  sec_haloprop_key_dict ← for_each (λ (sec_haloprop_key_dict : gmap string (gmap string string))
                                      (item : string * list (string * Component.t)),
      let '(gal_type, features) := item in
      let temp_dict := sec_keys_of features in
      s ← py_set (PyStr <$> (map_to_list temp_dict).*2);
      if decide (1 < length s) then
        Raise (KeyError "If implementing assembly bias for a particular gal_type, must use the same secondary halo property  for all behaviors of this galaxy type")
      else if decide (length s = 1) then
        Ok (<[ gal_type := temp_dict ]> sec_haloprop_key_dict)
      else Ok sec_haloprop_key_dict)
    model_blueprint (∅ : gmap string (gmap string string));
  s ← py_set (PyDict <$> (map_to_list sec_haloprop_key_dict).*2);
  if decide (1 < length s) then
    Raise (KeyError "If implementing assembly bias in a composite model,  must use same secondary halo property for all galaxy types")
  else if decide (length s = 1) then
    Ok (mkHalopropKeys (HaloProfModel.prim_haloprop_key halo_prof_model)
          (PyDict <$> head (map_to_list sec_haloprop_key_dict).*2)
          (Some sec_haloprop_key_dict))
  else
    Ok (mkHalopropKeys (HaloProfModel.prim_haloprop_key halo_prof_model) None None).

(** [get_example_attr_dict]: the composite dictionary of example shapes and
    the one per gal_type.  The [TypeError] carries the first line of the
    message, with the feature, the gal_type and the key it is formatted
    with. *)
Definition get_example_attr_dict (model_blueprint : Blueprint)
    : result (gmap string (list nat) * gmap string (gmap string (list nat))) :=
  for_each (λ (acc : gmap string (list nat) * gmap string (gmap string (list nat)))
              (item : string * list (string * Component.t)),
    let '(composite_dict, component_dict) := acc in
    let '(gal_type, features) := item in
    inner ← for_each (λ (acc : gmap string (list nat) * gmap string (list nat))
                        (item : string * Component.t),
        let '(composite_dict, temp_component_dict) := acc in
        let '(behavior_key, behavior_model) := item in
        match Component._example_attr_dict behavior_model with
        | Some new_dict =>
            let intersection := dom new_dict ∩ dom composite_dict in
            for_each (λ (_ : unit) (duplicate_key : string),
                let shape1 := new_dict !! duplicate_key in
                let shape2 := composite_dict !! duplicate_key in
                if decide (shape1 ≠ shape2) then
                  Raise (TypeError ("For component model feature " +:+ behavior_key
                    +:+ " of gal_type " +:+ gal_type +:+ ", found problem with key "
                    +:+ duplicate_key +:+ "  while building composite _example_attr_dict"))
                else Ok tt)
              (elements intersection) tt;;
            Ok (dict (items composite_dict ++ items new_dict),
                dict (items temp_component_dict ++ items new_dict))
        | None => Ok (composite_dict, temp_component_dict)
        end)
      features (composite_dict, ∅);
    Ok (inner.1, <[ gal_type := inner.2 ]> component_dict))
  model_blueprint (∅, ∅).

(** [get_new_haloprop_dict].  The module never imports [warnings], so the
    name is unbound where [warnings.warn] is evaluated. *)
Definition get_new_haloprop_dict (halo_prof_model : HaloProfModel.t)
    (model_blueprint : Blueprint) : result (gmap string table_func) :=
  for_each (λ (output_haloprop_dict : gmap string table_func)
              (item : string * list (string * Component.t)),
    let '(gal_type, features) := item in
    for_each (λ (output_haloprop_dict : gmap string table_func)
                (item : string * Component.t),
        let '(behavior_key, behavior_model) := item in
        match Component.new_haloprop_dict behavior_model with
        | Some new_dict =>
            let intersection := dom new_dict ∩ dom output_haloprop_dict in
            if negb (py_eq (PySet intersection) (PyDictOf ∅)) then
              match elements intersection with
              | [] => Raise (KeyError "pop from an empty set")
              | repeated_key :: _ => Raise (NameError "warnings")
              end
            else Ok (dict (items output_haloprop_dict ++ items new_dict))
        | None => Ok output_haloprop_dict
        end)
      features output_haloprop_dict)
  model_blueprint (HaloProfModel.param_func_dict halo_prof_model).

(** The attributes [__init__] binds to a composite model. *)
Record HodModel : Type := mkHodModel {
  halo_prof_model : HaloProfModel.t;
  model_blueprint : Blueprint;
  haloprop_key_dict : gmap string string;
  gal_types : list string;
  occupation_bound : gmap string number;
  haloprop_keys : HalopropKeys;
  param_dict : gmap string number;
  _example_attr_dict : gmap string (list nat);
  _gal_type_example_attr_dict : gmap string (gmap string (list nat));
  additional_haloprops : gmap string table_func;
  publications : list string
}.

(** The first loop of [__init__]:
    [model_blueprint[gal_type]['occupation_model'].occupation_bound]. *)
Definition occupation_bounds (model_blueprint : Blueprint) : result (gmap string number) :=
  for_each (λ (occupation_bound : gmap string number)
              (item : string * list (string * Component.t)),
    let '(gal_type, features) := item in
    match assoc features "occupation_model" with
    | None => Raise (KeyError "occupation_model")
    | Some occupation_model =>
        match Component.occupation_bound occupation_model with
        | None => Raise (AttributeError "occupation_bound")
        | Some bound => Ok (<[ gal_type := bound ]> occupation_bound)
        end
    end)
  model_blueprint ∅.

(** [HodModel.__init__]: the call [HodModel(...)] evaluates to the object
    only when [__init__] returns; an exception leaves the caller without
    one. *)
Definition __init__ (halo_prof_model : HaloProfModel.t) (model_blueprint : Blueprint)
    (haloprop_key_dict : gmap string string) : result HodModel :=
  occupation_bound ← occupation_bounds model_blueprint;
  haloprop_keys ← _create_haloprop_keys halo_prof_model model_blueprint;
  param_dict ← build_composite_param_dict model_blueprint;
  example ← get_example_attr_dict model_blueprint;
  additional_haloprops ← get_new_haloprop_dict halo_prof_model model_blueprint;
  Ok (mkHodModel halo_prof_model model_blueprint haloprop_key_dict
        (keys model_blueprint) occupation_bound haloprop_keys param_dict
        example.1 example.2 additional_haloprops
        (build_publication_list model_blueprint)).

(** [d[key]] and [getattr(obj, name)] *)
Definition dict_getitem {V : Type} (d : gmap string V) (key : string) : result V :=
  match d !! key with Some v => Ok v | None => Raise (KeyError key) end.
Definition assoc_getitem {V : Type} (d : list (string * V)) (key : string) : result V :=
  match assoc d key with Some v => Ok v | None => Raise (KeyError key) end.
Definition getattr {V : Type} (attributes : gmap string V) (name : string) : result V :=
  match attributes !! name with Some v => Ok v | None => Raise (AttributeError name) end.

(** [retrieve_relevant_haloprops(self, gal_type, component_key, *args,
    **kwargs)]; [&] evaluates both of its operands. *)
Definition retrieve_relevant_haloprops (self : HodModel) (gal_type component_key : string)
    (args : list column) (kwargs : gmap string MockGalaxies.t) : result (list column) :=
  if bool_decide (aph_len args = 0) && bool_decide (is_Some (kwargs !! "mock_galaxies")) then
    mock ← dict_getitem kwargs "mock_galaxies";
    prim_haloprop_key ← dict_getitem (haloprop_key_dict self) "prim_haloprop_key";
    gal_type_slice ← dict_getitem (MockGalaxies._gal_type_indices mock) gal_type;
    prim_haloprop_array ← getattr (MockGalaxies.attrs mock) prim_haloprop_key;
    let prim_haloprop := py_slice gal_type_slice prim_haloprop_array in
    let output_columns := [prim_haloprop] in
    if bool_decide (is_Some (haloprop_key_dict self !! "sec_haloprop_key")) then
      sec_haloprop_key ← dict_getitem (haloprop_key_dict self) "sec_haloprop_key";
      sec_haloprop_array ← getattr (MockGalaxies.attrs mock) sec_haloprop_key;
      let sec_haloprop := py_slice gal_type_slice sec_haloprop_array in
      Ok (output_columns ++ [sec_haloprop])
    else Ok output_columns
  else if bool_decide (0 < aph_len args) && negb (bool_decide (is_Some (kwargs !! "mock_galaxies"))) then
    Ok args
  else if bool_decide (aph_len args = 0) && negb (bool_decide (is_Some (kwargs !! "mock_galaxies"))) then
    Raise (SyntaxError "Neither an array of halo properties  nor a mock galaxy population was passed")
  else
    Raise (SyntaxError "Do not pass both an array of halo properties  and a mock galaxy population - pick one").

(** [component_behavior] *)
Definition component_behavior (self : HodModel) (gal_type component_key : string)
    (args : list column) (kwargs : gmap string MockGalaxies.t) : result column :=
  relevant_data ← retrieve_relevant_haloprops self gal_type component_key args kwargs;
  features ← assoc_getitem (model_blueprint self) gal_type;
  component ← assoc_getitem features component_key;
  component_model_function ← dict_getitem (Component.prim_func_dict component) component_key;
  Ok (component_model_function relevant_data (param_dict self)).

End HodFactory.

(** * subhalo_mock_factory.py *)

(** The model a [SubhaloMockFactory] is built around: [galprop_list], the
    blueprint from galaxy property to component model, the attributes
    [mc_<galprop>] (by attribute name), and the optional
    [galaxy_selection_func] and [new_haloprop_func_dict].  A function of
    [new_haloprop_func_dict] is called under a handler, so what it raises is
    part of its value. *)
Module SubhaloModel.
Record component : Type := mkComponent {
  gal_type_func : option table_func
}.
Record t : Type := mk {
  galprop_list : list string;
  model_blueprint : gmap string component;
  attributes : gmap string table_func;
  galaxy_selection_func : option (Table → list bool);
  new_haloprop_func_dict : option (list (string * (Table → result column)))
}.
End SubhaloModel.

Module SubhaloMockFactory.

(** A call the factory makes into the model, in the order made. *)
Inductive event : Type :=
  | CallNewHaloprop (key : string)
  | CallGalTypeFunc (galprop : string)
  | CallMC (galprop : string)
  | CallSelection.

Global Instance event_eq_dec : EqDecision event.
Proof. solve_decision. Defined.

(** The mutable attributes of the mock object, and the log of calls into the
    model.  [additional_haloprops] is a list, as the template's constructor
    binds it. *)
Record Mock : Type := mkMock {
  halo_table : Table;
  galaxy_table : Table;
  additional_haloprops : list string;
  calls : list event
}.

(** A method of the mock: it runs on the object's state and leaves a state
    behind whether it returns or raises. *)
Definition M (A : Type) : Type := Mock → Mock * result A.

Global Instance M_ret : MRet M := λ A a s, (s, Ok a).
Global Instance M_bind : MBind M :=
  λ A B f m s, match m s with
               | (s', Ok a) => f a s'
               | (s', Raise e) => (s', Raise e)
               end.

Definition gets {A : Type} (f : Mock → A) : M A := λ s, (s, Ok (f s)).
Definition lift {A : Type} (r : result A) : M A := λ s, (s, r).
Definition set_halo_table (t : Table) : M unit :=
  λ s, (mkMock t (galaxy_table s) (additional_haloprops s) (calls s), Ok tt).
Definition set_galaxy_table (t : Table) : M unit :=
  λ s, (mkMock (halo_table s) t (additional_haloprops s) (calls s), Ok tt).
Definition append_additional_haloprop (key : string) : M unit :=
  λ s, (mkMock (halo_table s) (galaxy_table s) (additional_haloprops s ++ [key]) (calls s), Ok tt).
Definition record (e : event) : M unit :=
  λ s, (mkMock (halo_table s) (galaxy_table s) (additional_haloprops s) (calls s ++ [e]), Ok tt).

(** [for x in xs: body(x)] *)
Fixpoint for_ {B : Type} (xs : list B) (body : B → M unit) : M unit :=
  match xs with
  | [] => mret tt
  | x :: rest => body x;; for_ rest body
  end.

(** [self.galaxy_table[key] = c] and [self.halo_table[key] = c] *)
Definition galaxy_table_setitem (key : string) (c : column) : M unit :=
  g ← gets galaxy_table; g' ← lift (table_setitem g key c); set_galaxy_table g'.
Definition halo_table_setitem (key : string) (c : column) : M unit :=
  h ← gets halo_table; h' ← lift (table_setitem h key c); set_halo_table h'.

(** Modelled from the spec: [model_defaults.host_haloprop_prefix] is not
    among the sources.  The spec names the host-halo-prefixed columns
    "halo_x,...,halo_vz". *)
Definition host_haloprop_prefix : string := "halo_".

Definition phase_space_keys : list string := ["x"; "y"; "z"; "vx"; "vy"; "vz"].

(** [try: body except AttributeError: pass]: an [AttributeError] out of
    the body ends it where it stands, with the state it has reached, and the
    statement returns; any other exception goes through. *)
Definition except_AttributeError (body : M unit) : M unit :=
  λ s, match body s with
       | (s', Raise (AttributeError _)) => (s', Ok tt)
       | (s', r) => (s', r)
       end.

(** [self.model.new_haloprop_func_dict] *)
Definition get_new_haloprop_func_dict (model : SubhaloModel.t)
    : result (list (string * (Table → result column))) :=
  match SubhaloModel.new_haloprop_func_dict model with
  | Some d => Ok d
  | None => Raise (AttributeError "new_haloprop_func_dict")
  end.

(** [preprocess_halo_catalog]: the attribute lookup and the whole loop run
    under the handler, so a missing [new_haloprop_func_dict] and an
    [AttributeError] out of a [new_haloprop_func] alike end the method
    silently, the columns written so far staying. *)
Definition preprocess_halo_catalog (model : SubhaloModel.t) : M unit :=
  except_AttributeError (
    d ← lift (get_new_haloprop_func_dict model);
    for_ d (λ item,
      let '(new_haloprop_key, new_haloprop_func) := item in
      h ← gets halo_table;
      record (CallNewHaloprop new_haloprop_key);;
      c ← lift (new_haloprop_func h);
      halo_table_setitem new_haloprop_key c;;
      append_additional_haloprop new_haloprop_key)).

(** [precompute_galprops] *)
Definition precompute_galprops (model : SubhaloModel.t) : M unit :=
  additional ← gets additional_haloprops;
  for_ additional (λ key,
    h ← gets halo_table;
    c ← lift (table_getitem h key);
    galaxy_table_setitem key c);;
  for_ phase_space_keys (λ newkey,
    g ← gets galaxy_table;
    c ← lift (table_getitem g (host_haloprop_prefix +:+ newkey));
    galaxy_table_setitem newkey c);;
  g ← gets galaxy_table;
  galaxy_table_setitem "galid" (arange (nrows g));;
  for_ (SubhaloModel.galprop_list model) (λ galprop,
    component_model ← lift (HodFactory.dict_getitem (SubhaloModel.model_blueprint model) galprop);
    match SubhaloModel.gal_type_func component_model with
    | Some gal_type_func =>
        let newkey := galprop +:+ "_gal_type" in
        g ← gets galaxy_table;
        record (CallGalTypeFunc galprop);;
        galaxy_table_setitem newkey (gal_type_func g)
    | None => mret tt
    end).

(** The loop of [populate]: one Monte Carlo call per galaxy property, in
    [galprop_list] order, each written to its column. *)
Definition populate_galprops (model : SubhaloModel.t) (galprops : list string) : M unit :=
  for_ galprops (λ galprop_key,
    let model_func_name := "mc_" +:+ galprop_key in
    model_func ← lift (HodFactory.getattr (SubhaloModel.attributes model) model_func_name);
    g ← gets galaxy_table;
    record (CallMC galprop_key);;
    galaxy_table_setitem galprop_key (model_func g)).

(** The end of [populate]: the selection mask, when the model has a
    [galaxy_selection_func]. *)
Definition apply_selection (model : SubhaloModel.t) : M unit :=
  match SubhaloModel.galaxy_selection_func model with
  | Some galaxy_selection_func =>
      g ← gets galaxy_table;
      record CallSelection;;
      let mask := galaxy_selection_func g in
      g' ← lift (table_getitem_mask g mask);
      set_galaxy_table g'
  | None => mret tt
  end.

(** [populate] *)
Definition populate (model : SubhaloModel.t) : M unit :=
  populate_galprops model (SubhaloModel.galprop_list model);;
  apply_selection model.

(** [__init__], after the template's constructor has bound [halo_table],
    [additional_haloprops] and an empty [galaxy_table]. *)
Definition __init__ (model : SubhaloModel.t) (populate_flag : bool) : M unit :=
  preprocess_halo_catalog model;;
  precompute_galprops model;;
  if populate_flag then populate model else mret tt.

End SubhaloMockFactory.

(** * Example models

    Small blueprints, models and tables the properties below are run on. *)

Module Examples.

(** A component with an occupation bound of one and the given parameters,
    secondary key and new-haloprop functions. *)
Definition component (params : gmap string number) (sec : option string)
    (new_haloprops : option (gmap string table_func)) : Component.t :=
  Component.mk (Some 1%Z) params sec new_haloprops None [] ∅.

Definition cen_occupation : Component.t :=
  component {[ "logMmin" := 12%Z; "sigma_logM" := 1%Z ]} None None.
Definition cen_profile : Component.t :=
  component {[ "conc_amp" := 5%Z ]} None None.
Definition sat_occupation : Component.t :=
  component {[ "alpha" := 1%Z ]} None None.
(** A satellite occupation model that reuses the centrals' parameter name. *)
Definition sat_occupation_dup : Component.t :=
  component {[ "alpha" := 1%Z; "logMmin" := 13%Z ]} None None.

Definition blueprint_ok : Blueprint :=
  [ ("centrals", [("occupation_model", cen_occupation); ("profile_model", cen_profile)]);
    ("satellites", [("occupation_model", sat_occupation)]) ].
Definition blueprint_dup : Blueprint :=
  [ ("centrals", [("occupation_model", cen_occupation); ("profile_model", cen_profile)]);
    ("satellites", [("occupation_model", sat_occupation_dup)]) ].

Definition halo_prof : HaloProfModel.t :=
  HaloProfModel.mk "halo_mvir" ∅.

(** Blueprints that declare secondary haloprop keys: one declaration; two
    galaxy types that agree; two that disagree; and one gal_type whose two
    features disagree. *)
Definition with_sec (key : string) : Component.t :=
  component ∅ (Some key) None.
Definition blueprint_sec_one : Blueprint :=
  [ ("centrals", [("occupation_model", with_sec "halo_zform")]) ].
Definition blueprint_sec_agree : Blueprint :=
  [ ("centrals", [("occupation_model", with_sec "halo_zform")]);
    ("satellites", [("occupation_model", with_sec "halo_zform")]) ].
Definition blueprint_sec_disagree : Blueprint :=
  [ ("centrals", [("occupation_model", with_sec "halo_zform")]);
    ("satellites", [("occupation_model", with_sec "halo_spin")]) ].
Definition blueprint_sec_within : Blueprint :=
  [ ("centrals", [("occupation_model", with_sec "halo_zform");
                  ("profile_model", with_sec "halo_spin")]) ].

(** A halo-profile model that computes ["conc"], and components that
    declare a new haloprop of the same name, or of another name. *)
Definition conc_of_profile : table_func := λ t, replicate (nrows t) (Num 7).
Definition conc_of_component : table_func := λ t, replicate (nrows t) (Num 9).
Definition spin_of_component : table_func := λ t, replicate (nrows t) (Num 3).
Definition halo_prof_conc : HaloProfModel.t :=
  HaloProfModel.mk "halo_mvir" {[ "conc" := conc_of_profile ]}.
Definition blueprint_conc_again : Blueprint :=
  [ ("centrals", [("occupation_model",
       component ∅ None (Some {[ "conc" := conc_of_component ]}))]) ].
Definition blueprint_spin : Blueprint :=
  [ ("centrals", [("occupation_model",
       component ∅ None (Some {[ "spin" := spin_of_component ]}))]) ].

(** A composite model as [__init__] leaves it for [blueprint_ok], with the
    default haloprop keys, and a mock of three galaxies: two centrals and a
    satellite. *)
Definition composite : HodFactory.HodModel :=
  HodFactory.mkHodModel halo_prof blueprint_ok {[ "prim_haloprop_key" := "halo_mvir" ]}
    ["centrals"; "satellites"] {[ "centrals" := 1%Z; "satellites" := 1%Z ]}
    (HodFactory.mkHalopropKeys "halo_mvir" None None)
    {[ "logMmin" := 12%Z; "sigma_logM" := 1%Z; "conc_amp" := 5%Z; "alpha" := 1%Z ]}
    ∅ {[ "centrals" := ∅; "satellites" := ∅ ]} ∅ [].
Definition mock_galaxies : MockGalaxies.t :=
  MockGalaxies.mk {[ "centrals" := (0, 2); "satellites" := (2, 3) ]}
    {[ "halo_mvir" := [Num 10; Num 11; Num 12] ]}.

(** A catalogue of four halos, the columns a mock inherits from it, and
    the mock as the template's constructor leaves it: an empty galaxy
    table and no call made yet. *)
Definition halos : Table :=
  mkTable 4
    {[ "halo_x" := [Num 1; Num 2; Num 3; Num 4];
       "halo_y" := [Num 5; Num 6; Num 7; Num 8];
       "halo_z" := [Num 9; Num 10; Num 11; Num 12];
       "halo_vx" := [Num 21; Num 22; Num 23; Num 24];
       "halo_vy" := [Num 25; Num 26; Num 27; Num 28];
       "halo_vz" := [Num 29; Num 30; Num 31; Num 32];
       "halo_mvir" := [Num 12; Num 13; Num 14; Num 15] ]}.
Definition inherited : list string :=
  ["halo_x"; "halo_y"; "halo_z"; "halo_vx"; "halo_vy"; "halo_vz"; "halo_mvir"].
Definition fresh_mock : SubhaloMockFactory.Mock :=
  SubhaloMockFactory.mkMock halos Table_new inherited [].

Definition column_of (key : string) (t : Table) : column :=
  default [] (columns t !! key).

(** A stellar mass read off the halo mass; a draw per row from a fixed
    stream, by row position; the selection that keeps the rows whose draw
    is one. *)
Definition mc_stellar_mass : table_func := column_of "halo_mvir".
Definition draws (n : nat) : column :=
  (λ i, Num (if Nat.even i then 1 else 0)) <$> seq 0 n.
Definition mc_flag : table_func := λ t, draws (nrows t).
Definition keep_flagged (t : Table) : list bool :=
  (λ c, bool_decide (c = Num 1)) <$> column_of "flag" t.
Definition central_or_satellite : table_func :=
  λ t, replicate (nrows t) (Txt "centrals").

Definition model_stellar_mass : SubhaloModel.t :=
  SubhaloModel.mk ["stellar_mass"]
    {[ "stellar_mass" := SubhaloModel.mkComponent (Some central_or_satellite) ]}
    {[ "mc_stellar_mass" := mc_stellar_mass ]} None None.
Definition model_flag : SubhaloModel.t :=
  SubhaloModel.mk ["stellar_mass"; "flag"]
    {[ "stellar_mass" := SubhaloModel.mkComponent None;
       "flag" := SubhaloModel.mkComponent None ]}
    {[ "mc_stellar_mass" := mc_stellar_mass; "mc_flag" := mc_flag ]}
    (Some keep_flagged) None.
(** The two Monte Carlo functions without a selection. *)
Definition model_draw : SubhaloModel.t :=
  SubhaloModel.mk ["stellar_mass"; "flag"]
    {[ "stellar_mass" := SubhaloModel.mkComponent None;
       "flag" := SubhaloModel.mkComponent None ]}
    {[ "mc_stellar_mass" := mc_stellar_mass; "mc_flag" := mc_flag ]}
    None None.
(** A model whose [galprop_list] names ["sfr"] without an [mc_sfr]. *)
Definition model_missing : SubhaloModel.t :=
  SubhaloModel.mk ["stellar_mass"; "sfr"]
    {[ "stellar_mass" := SubhaloModel.mkComponent None;
       "sfr" := SubhaloModel.mkComponent None ]}
    {[ "mc_stellar_mass" := mc_stellar_mass ]} None None.

(** The mock after [precompute_galprops]. *)
Definition precomputed (model : SubhaloModel.t) : SubhaloMockFactory.Mock :=
  (SubhaloMockFactory.precompute_galprops model fresh_mock).1.


(** The mock of [model_flag] after one and after two calls of [populate],
    and the mock of [model_missing] after its failed call. *)
Definition populated_once : SubhaloMockFactory.Mock :=
  (SubhaloMockFactory.populate model_flag (precomputed model_flag)).1.
Definition populated_twice : SubhaloMockFactory.Mock :=
  (SubhaloMockFactory.populate model_flag populated_once).1.
Definition failed_populate : SubhaloMockFactory.Mock :=
  (SubhaloMockFactory.populate model_missing (precomputed model_missing)).1.


End Examples.


(** * Further example models *)

Module Cases.

(** A gal_type without an ['occupation_model'] feature. *)
Definition blueprint_no_occupation : Blueprint :=
  [ ("centrals", [("occupation_model", Examples.cen_occupation)]);
    ("satellites", [("profile_model", Examples.cen_profile)]) ].

(** Components with example attribute shapes: a scalar stellar mass and a
    position of three coordinates; positions of the same shape; and
    positions of two coordinates. *)
Definition with_shapes (shapes : gmap string (list nat)) : Component.t :=
  Component.mk (Some 1%Z) ∅ None None (Some shapes) [] ∅.
Definition blueprint_shapes : Blueprint :=
  [ ("centrals", [("occupation_model",
       with_shapes {[ "stellar_mass" := []; "pos" := [3] ]})]);
    ("satellites", [("occupation_model", with_shapes {[ "pos" := [3] ]})]) ].
Definition blueprint_shapes_conflict : Blueprint :=
  [ ("centrals", [("occupation_model",
       with_shapes {[ "stellar_mass" := []; "pos" := [3] ]})]);
    ("satellites", [("occupation_model", with_shapes {[ "pos" := [2] ]})]) ].

(** An occupation model with a behaviour: one for every halo at or above
    the mass threshold, zero below, by the composite parameter ["logMmin"]. *)
Definition step_occupation (args : list column) (params : gmap string number) : column :=
  (λ mass, match mass, params !! "logMmin" with
           | Num m, Some logMmin => Num (if (logMmin <=? m)%Z then 1 else 0)
           | _, _ => Num 0
           end) <$> default [] (head args).
Definition cen_step : Component.t :=
  Component.mk (Some 1%Z) {[ "logMmin" := 12%Z ]} None None None []
    {[ "occupation_model" := step_occupation ]}.
Definition blueprint_step : Blueprint :=
  [ ("centrals", [("occupation_model", cen_step)]);
    ("satellites", [("occupation_model", Examples.sat_occupation)]) ].
Definition composite_step : HodFactory.HodModel :=
  HodFactory.mkHodModel Examples.halo_prof blueprint_step
    {[ "prim_haloprop_key" := "halo_mvir" ]}
    ["centrals"; "satellites"] {[ "centrals" := 1%Z; "satellites" := 1%Z ]}
    (HodFactory.mkHalopropKeys "halo_mvir" None None)
    {[ "logMmin" := 12%Z; "alpha" := 1%Z ]}
    ∅ {[ "centrals" := ∅; "satellites" := ∅ ]} ∅ [].

End Cases.

(** * Further example mocks *)

Module MockCases.

(** A model that asks for two new halo properties: a concentration read
    off the halo mass, and its square, read off the new concentration
    column.  Either function raises [KeyError] on a table without the column
    it reads. *)
Definition conc_from_mass : Table → result column :=
  λ t, match table_getitem t "halo_mvir" with
       | Ok c => Ok ((λ x, match x with Num m => Num (m - 10) | _ => x end) <$> c)
       | Raise e => Raise e
       end.
Definition conc_squared : Table → result column :=
  λ t, match table_getitem t "halo_conc" with
       | Ok c => Ok ((λ x, match x with Num m => Num (m * m) | _ => x end) <$> c)
       | Raise e => Raise e
       end.
Definition model_new_haloprops : SubhaloModel.t :=
  SubhaloModel.mk ["stellar_mass"]
    {[ "stellar_mass" := SubhaloModel.mkComponent (Some Examples.central_or_satellite) ]}
    {[ "mc_stellar_mass" := Examples.mc_stellar_mass ]} None
    (Some [("halo_conc", conc_from_mass); ("halo_conc_sq", conc_squared)]).

(** The same model with, between the two, a function that reads an
    attribute the halo table does not have. *)
Definition spin_of_table : Table → result column :=
  λ t, Raise (AttributeError "spin").
Definition model_new_haloprops_stopped : SubhaloModel.t :=
  SubhaloModel.mk ["stellar_mass"]
    {[ "stellar_mass" := SubhaloModel.mkComponent (Some Examples.central_or_satellite) ]}
    {[ "mc_stellar_mass" := Examples.mc_stellar_mass ]} None
    (Some [("halo_conc", conc_from_mass); ("halo_spin", spin_of_table);
           ("halo_conc_sq", conc_squared)]).

(** The fresh mock after [preprocess_halo_catalog], for either model. *)
Definition preprocessed : SubhaloMockFactory.Mock :=
  (SubhaloMockFactory.preprocess_halo_catalog model_new_haloprops Examples.fresh_mock).1.
Definition preprocessed_stopped : SubhaloMockFactory.Mock :=
  (SubhaloMockFactory.preprocess_halo_catalog model_new_haloprops_stopped
     Examples.fresh_mock).1.

End MockCases.

(** * Further example factories *)

Module FactoryCases.

(** A mock whose inherited columns lack the velocities and two of the
    positions. *)
Definition mock_without_positions : SubhaloMockFactory.Mock :=
  SubhaloMockFactory.mkMock Examples.halos Table_new ["halo_x"; "halo_mvir"] [].

(** The mock of [MockCases.model_new_haloprops] as the constructor leaves
    it, without and with the call of [populate]. *)
Definition initialised : SubhaloMockFactory.Mock :=
  (SubhaloMockFactory.__init__ MockCases.model_new_haloprops false Examples.fresh_mock).1.
Definition initialised_populated : SubhaloMockFactory.Mock :=
  (SubhaloMockFactory.__init__ MockCases.model_new_haloprops true Examples.fresh_mock).1.

(** A model whose Monte Carlo functions return one entry per row whatever
    the table holds: a column where the table has it, zeros otherwise.  The
    stellar mass is the halo mass; the second property, a luminosity, is
    twice the stellar mass that the first property has just written. *)
Definition column_or_zeros (key : string) (t : Table) : column :=
  default (replicate (nrows t) (Num 0)) (columns t !! key).
Definition mc_mass : table_func := column_or_zeros "halo_mvir".
Definition mc_luminosity : table_func :=
  λ t, (λ c, match c with Num m => Num (2 * m) | _ => c end)
         <$> column_or_zeros "stellar_mass" t.
Definition model_luminosity : SubhaloModel.t :=
  SubhaloModel.mk ["stellar_mass"; "luminosity"]
    {[ "stellar_mass" := SubhaloModel.mkComponent None;
       "luminosity" := SubhaloModel.mkComponent None ]}
    {[ "mc_stellar_mass" := mc_mass; "mc_luminosity" := mc_luminosity ]}
    None None.
Definition populated_luminosity : SubhaloMockFactory.Mock :=
  (SubhaloMockFactory.populate model_luminosity (Examples.precomputed model_luminosity)).1.

End FactoryCases.

(** * Vocabulary of the properties *)

(** No two components of the blueprint declare a parameter of the same
    name. *)
Definition param_names_unique (cs : list Component.t) : Prop :=
  ∀ i j c1 c2, i ≠ j → cs !! i = Some c1 → cs !! j = Some c2 →
    dom (Component.param_dict c1) ## dom (Component.param_dict c2).

(** [key] is a parameter name of two components of the blueprint. *)
Definition shares_param_name (cs : list Component.t) (key : string) : Prop :=
  ∃ i j c1 c2, i < j ∧ cs !! i = Some c1 ∧ cs !! j = Some c2 ∧
    key ∈ dom (Component.param_dict c1) ∧ key ∈ dom (Component.param_dict c2).

(** The union of the components' parameter names, and the sum of the sizes
    of their parameter dictionaries. *)
Definition param_names (cs : list Component.t) : gset string :=
  ⋃ ((λ c, dom (Component.param_dict c)) <$> cs).
Definition param_count (cs : list Component.t) : nat :=
  sum_list_with (λ c, size (Component.param_dict c)) cs.

(** The distinct secondary keys declared by the features of one gal_type:
    what [set(temp_dict.values())] holds in [_create_haloprop_keys]. *)
Definition sec_key_set (features : list (string * Component.t)) : list pyobj :=
  remove_dups (PyStr <$> (map_to_list (HodFactory.sec_keys_of features)).*2).

Definition within_msg : string :=
  "If implementing assembly bias for a particular gal_type, must use the same secondary halo property  for all behaviors of this galaxy type".


Definition neither_msg : string :=
  "Neither an array of halo properties  nor a mock galaxy population was passed".
Definition both_msg : string :=
  "Do not pass both an array of halo properties  and a mock galaxy population - pick one".

(** One iteration of the loop of [populate], and the whole loop, read on the
    galaxy table alone. *)
Definition mc_step (model : SubhaloModel.t) (t : Table) (galprop_key : string)
    : result Table :=
  model_func ← HodFactory.getattr (SubhaloModel.attributes model) ("mc_" +:+ galprop_key);
  table_setitem t galprop_key (model_func t).
Definition mc_run (model : SubhaloModel.t) (galprops : list string) (t : Table)
    : result Table :=
  for_each (mc_step model) galprops t.

(** Every Monte Carlo function of the model reads only the number of rows
    and columns that [populate] does not write at or after the function's own
    turn: its value is the same on two tables of as many rows that differ in
    those columns alone. *)
Definition mc_reads_earlier (model : SubhaloModel.t) : Prop :=
  ∀ pre galprop post model_func,
    SubhaloModel.galprop_list model = pre ++ galprop :: post →
    SubhaloModel.attributes model !! ("mc_" +:+ galprop) = Some model_func →
    ∀ t1 t2, nrows t1 = nrows t2 →
             (∀ key, key ∉ galprop :: post → columns t1 !! key = columns t2 !! key) →
             model_func t1 = model_func t2.


(** A gal_type of the blueprint whose features lack an ['occupation_model'],
    or whose occupation model has no [occupation_bound]. *)
Definition lacks_occupation_bound (item : string * list (string * Component.t)) : Prop :=
  match assoc item.2 "occupation_model" with
  | None => True
  | Some occupation_model => Component.occupation_bound occupation_model = None
  end.

(** Two dictionaries of example shapes give the same shape to every name
    they share. *)
Definition shapes_agree (d1 d2 : gmap string (list nat)) : Prop :=
  ∀ key shape1 shape2, d1 !! key = Some shape1 → d2 !! key = Some shape2 → shape1 = shape2.

(** The [_example_attr_dict]s that the components of a blueprint have, in
    the order the loops meet them. *)
Definition declared_shapes (cs : list Component.t) : list (gmap string (list nat)) :=
  omap Component._example_attr_dict cs.

(** What a blueprint satisfies whenever [HodModel.__init__] returns: every
    gal_type has an ['occupation_model'] with an [occupation_bound]; no
    component declares a [sec_haloprop_key] or a [new_haloprop_dict]; and the
    example shapes of the components agree. *)
Definition constructible (bp : Blueprint) : Prop :=
  Forall (λ item, ¬ lacks_occupation_bound item) bp
  ∧ Forall (λ c, Component.sec_haloprop_key c = None) (components bp)
  ∧ Forall (λ c, Component.new_haloprop_dict c = None) (components bp)
  ∧ (∀ nd1 nd2, nd1 ∈ declared_shapes (components bp) →
                nd2 ∈ declared_shapes (components bp) → shapes_agree nd1 nd2).

(** One iteration of the loop of [preprocess_halo_catalog], and the whole
    loop, read on the halo table alone. *)
Definition new_haloprop_step (h : Table) (item : string * (Table → result column))
    : result Table :=
  c ← item.2 h; table_setitem h item.1 c.
Definition new_haloprop_run (d : list (string * (Table → result column))) (h : Table)
    : result Table :=
  for_each new_haloprop_step d h.

(** Every function of the dictionary that returns, on a table whose columns
    have one entry per row, returns a column of one entry per row. *)
Definition returns_full_columns (d : list (string * (Table → result column))) : Prop :=
  ∀ k f t c, (k, f) ∈ d → table_wf t → f t = Ok c → length c = nrows t.

(** The component model of [galprop] has a [gal_type_func]. *)
Definition has_gal_type_func (model : SubhaloModel.t) (galprop : string) : bool :=
  match SubhaloModel.model_blueprint model !! galprop with
  | Some component_model =>
      match SubhaloModel.gal_type_func component_model with Some _ => true | None => false end
  | None => false
  end.

(** The calls [precompute_galprops] makes into the model. *)
Definition gal_type_calls (model : SubhaloModel.t) : list SubhaloMockFactory.event :=
  SubhaloMockFactory.CallGalTypeFunc
    <$> filter (λ galprop, has_gal_type_func model galprop = true)
          (SubhaloModel.galprop_list model).

(** A column name that [precompute_galprops] writes only by inheriting
    it. *)
Definition inherited_only (key : string) : Prop :=
  (key ∉ SubhaloMockFactory.phase_space_keys) ∧ (key ≠ "galid")
  ∧ (∀ galprop, key ≠ galprop +:+ "_gal_type").

(** Every Monte Carlo function of the model returns, on a table whose
    columns have one entry per row, a column of one entry per row. *)
Definition mc_full_columns (model : SubhaloModel.t) : Prop :=
  ∀ galprop model_func t,
    SubhaloModel.attributes model !! ("mc_" +:+ galprop) = Some model_func →
    table_wf t → length (model_func t) = nrows t.


(** * Properties *)

(** ** Loops and dictionaries *)

Section loops.
Context {A B : Type}.
Implicit Types (body : A → B → result A) (xs ys : list B).

Lemma for_each_app body xs ys acc :
  for_each body (xs ++ ys) acc = for_each body xs acc ≫= for_each body ys.
Proof.
  revert acc. induction xs as [|x xs IH]; intros acc; simpl; [done|].
  destruct (body acc x) as [acc'|e]; simpl; [apply IH | done].
Qed.

Lemma for_each_snoc body xs y acc :
  for_each body (xs ++ [y]) acc = for_each body xs acc ≫= λ acc', body acc' y.
Proof.
  rewrite for_each_app. destruct (for_each body xs acc) as [acc'|e]; simpl; [|done].
  by destruct (body acc' y).
Qed.

(** A loop nested in a loop is one loop over the concatenation. *)
Lemma for_each_nested {C : Type} body (inner : C → list B) (cs : list C) acc :
  for_each (λ acc c, for_each body (inner c) acc) cs acc
  = for_each body (mjoin (inner <$> cs)) acc.
Proof.
  revert acc. induction cs as [|c cs IH]; intros acc; simpl; [done|].
  rewrite for_each_app. destruct (for_each body (inner c) acc); simpl; [apply IH | done].
Qed.
End loops.

Lemma dict_items_id {V : Type} (m : gmap string V) : list_to_map (reverse (items m)) = m.
Proof.
  unfold items. rewrite <- (list_to_map_to_list m) at 2.
  apply list_to_map_proper.
  - rewrite fmap_reverse, reverse_Permutation. apply NoDup_fst_map_to_list.
  - apply reverse_Permutation.
Qed.

(** [dict(a.items() + b.items())] is [b], completed by the entries of [a]
    under names [b] does not have. *)
Lemma dict_items_concat {V : Type} (a b : gmap string V) :
  dict (items a ++ items b) = b ∪ a.
Proof.
  unfold dict. rewrite reverse_app, list_to_map_app. by rewrite !dict_items_id.
Qed.

(** ** The composite parameter dictionary *)

Section param_dict.
Import HodFactory.
Implicit Types (cs : list Component.t) (d : gmap string number).

Lemma test_repeated_keys_ok d1 d2 :
  dom d1 ## dom d2 → test_repeated_keys d1 d2 = Ok tt.
Proof.
  intros Hdisj. unfold test_repeated_keys.
  destruct (elements (dom d1 ∩ dom d2)) as [|k l] eqn:E; [done|].
  assert (k ∈ dom d1 ∩ dom d2) as Hk by (apply elem_of_elements; rewrite E; left).
  set_solver.
Qed.

Lemma test_repeated_keys_raise d1 d2 key :
  key ∈ dom d1 → key ∈ dom d2 →
  ∃ key', test_repeated_keys d1 d2 = Raise (DuplicateParameterError key')
          ∧ key' ∈ dom d1 ∧ key' ∈ dom d2.
Proof.
  intros H1 H2. unfold test_repeated_keys.
  destruct (elements (dom d1 ∩ dom d2)) as [|k l] eqn:E.
  - apply elements_empty_inv in E. set_solver.
  - assert (k ∈ dom d1 ∩ dom d2) as Hk by (apply elem_of_elements; rewrite E; left).
    exists k. set_solver.
Qed.

(** The body of the double loop of [build_composite_param_dict]. *)
Let step d (model_instance : Component.t) : result (gmap string number) :=
  test_repeated_keys d (Component.param_dict model_instance);;
  Ok (dict (items (Component.param_dict model_instance) ++ items d)).

Lemma build_composite_param_dict_flat (bp : Blueprint) :
  build_composite_param_dict bp = for_each step (components bp) ∅.
Proof.
  unfold build_composite_param_dict, components.
  by rewrite <- (for_each_nested step values).
Qed.

Lemma shares_param_name_snoc cs c key :
  shares_param_name cs key → shares_param_name (cs ++ [c]) key.
Proof.
  intros (i & j & c1 & c2 & Hij & Hi & Hj & H1 & H2).
  exists i, j, c1, c2. split_and!; try done; by apply lookup_app_l_Some.
Qed.

Lemma param_names_snoc cs c :
  param_names (cs ++ [c]) = param_names cs ∪ dom (Component.param_dict c).
Proof.
  unfold param_names. rewrite fmap_app, union_list_app_L. simpl. set_solver.
Qed.

Lemma param_count_snoc cs c :
  param_count (cs ++ [c]) = param_count cs + size (Component.param_dict c).
Proof. unfold param_count. rewrite sum_list_with_app. simpl. lia. Qed.

Lemma elem_of_param_names cs key :
  key ∈ param_names cs ↔
  ∃ i c, cs !! i = Some c ∧ key ∈ dom (Component.param_dict c).
Proof.
  unfold param_names. rewrite elem_of_union_list. split.
  - intros (X & HX & Hk). apply list_elem_of_fmap in HX as (c & -> & Hc).
    apply list_elem_of_lookup in Hc as [i Hi]. eauto.
  - intros (i & c & Hi & Hk). exists (dom (Component.param_dict c)). split; [|done].
    apply list_elem_of_fmap. exists c. split; [done|]. by eapply list_elem_of_lookup_2.
Qed.

(** What the loop has done after the components [cs]: either it holds the
    disjoint union of their dictionaries, or it has raised on a name that two
    of them share. *)
Lemma build_loop_spec cs :
  match for_each step cs ∅ with
  | Ok d =>
      param_names_unique cs ∧ dom d = param_names cs ∧ size d = param_count cs
      ∧ ∀ c, c ∈ cs → Component.param_dict c ⊆ d
  | Raise e => ∃ key, e = DuplicateParameterError key ∧ shares_param_name cs key
  end.
Proof.
  induction cs as [|c cs IH] using rev_ind.
  - simpl. split_and!.
    + intros i j c1 c2 _ Hi. by rewrite lookup_nil in Hi.
    + by rewrite dom_empty_L.
    + by rewrite map_size_empty.
    + intros c Hc. by apply elem_of_nil in Hc.
  - rewrite for_each_snoc. destruct (for_each step cs ∅) as [d|e]; simpl.
    + destruct IH as (Huniq & Hdom & Hsize & Hsub). unfold step.
      destruct (decide (dom d ∩ dom (Component.param_dict c) = ∅)) as [Hdisj|Hshare].
      * apply disjoint_intersection_L in Hdisj.
        rewrite (test_repeated_keys_ok _ _ Hdisj). simpl.
        rewrite dict_items_concat.
        assert (d ##ₘ Component.param_dict c) as Hmdisj by by apply map_disjoint_dom.
        split_and!.
        -- intros i j c1 c2 Hij Hi Hj.
           apply lookup_snoc_Some in Hi as [[Hli Hi]|[-> <-]];
             apply lookup_snoc_Some in Hj as [[Hlj Hj]|[-> <-]].
           ++ by eapply Huniq.
           ++ assert (dom (Component.param_dict c1) ⊆ dom d) as Hin.
              { rewrite Hdom. intros k Hk. apply elem_of_param_names. eauto. }
              set_solver.
           ++ assert (dom (Component.param_dict c2) ⊆ dom d) as Hin.
              { rewrite Hdom. intros k Hk. apply elem_of_param_names. eauto. }
              set_solver.
           ++ done.
        -- by rewrite dom_union_L, param_names_snoc, Hdom.
        -- by rewrite map_size_disj_union, param_count_snoc, Hsize.
        -- intros c' Hc'. apply elem_of_app in Hc' as [Hc'|Hc'].
           ++ etrans; [by apply Hsub|]. by apply map_union_subseteq_l.
           ++ apply list_elem_of_singleton in Hc' as ->. by apply map_union_subseteq_r.
      * apply set_choose_L in Hshare as (k & [Hk1 Hk2]%elem_of_intersection).
        destruct (test_repeated_keys_raise _ _ k Hk1 Hk2) as (k' & -> & Hk1' & Hk2').
        simpl. exists k'. split; [done|].
        rewrite Hdom in Hk1'. apply elem_of_param_names in Hk1' as (i & c1 & Hi & Hkc1).
        exists i, (length cs), c1, c. split_and!; try done.
        -- by eapply lookup_lt_Some.
        -- by apply lookup_app_l_Some.
        -- by rewrite list_lookup_middle.
    + destruct IH as (key & -> & Hshare). exists key. split; [done|].
      by apply shares_param_name_snoc.
Qed.

Lemma shares_not_unique cs key : shares_param_name cs key → ¬ param_names_unique cs.
Proof.
  intros (i & j & c1 & c2 & Hij & Hi & Hj & H1 & H2) Huniq.
  assert (i ≠ j) as Hne by lia.
  specialize (Huniq i j c1 c2 Hne Hi Hj). set_solver.
Qed.
End param_dict.

(** C1.  For a blueprint whose components declare pairwise distinct
    parameter names, [build_composite_param_dict] returns a dictionary whose
    key set is the union of the components' key sets, whose size is the sum of
    their sizes and which holds every component's entries; when two components
    share a name it raises [DuplicateParameterError] on a name that two
    components share; and [__init__], once the occupation bounds and the
    haloprop keys are in place, ends with that dictionary or that
    exception. *)
Theorem build_composite_param_dict_union_or_duplicate (bp : Blueprint) :
  (param_names_unique (components bp) →
     ∃ d, HodFactory.build_composite_param_dict bp = Ok d
          ∧ dom d = param_names (components bp)
          ∧ size d = param_count (components bp)
          ∧ ∀ c, c ∈ components bp → Component.param_dict c ⊆ d)
  ∧ (∀ key, shares_param_name (components bp) key →
     ∃ key', HodFactory.build_composite_param_dict bp = Raise (DuplicateParameterError key')
             ∧ shares_param_name (components bp) key')
  ∧ (∀ hpm hkd ob ks,
       HodFactory.occupation_bounds bp = Ok ob →
       HodFactory._create_haloprop_keys hpm bp = Ok ks →
       match HodFactory.build_composite_param_dict bp with
       | Ok d => ∀ m, HodFactory.__init__ hpm bp hkd = Ok m → HodFactory.param_dict m = d
       | Raise e => HodFactory.__init__ hpm bp hkd = Raise e
       end).
Proof.
  pose proof (build_loop_spec (components bp)) as Hspec.
  rewrite <- build_composite_param_dict_flat in Hspec.
  split_and!.
  - intros Huniq. destruct (HodFactory.build_composite_param_dict bp) as [d|e].
    + exists d. naive_solver.
    + destruct Hspec as (key & _ & Hshare). by apply shares_not_unique in Hshare.
  - intros key Hshare. destruct (HodFactory.build_composite_param_dict bp) as [d|e].
    + destruct Hspec as [Huniq _]. by apply shares_not_unique in Hshare.
    + destruct Hspec as (key' & -> & Hshare'). eauto.
  - intros hpm hkd ob ks Hob Hks. unfold HodFactory.__init__. rewrite Hob, Hks. simpl.
    destruct (HodFactory.build_composite_param_dict bp) as [d|e]; simpl; [|done].
    intros m.
    destruct (HodFactory.get_example_attr_dict bp); simpl; [|done].
    destruct (HodFactory.get_new_haloprop_dict hpm bp); simpl; [|done].
    by intros [= <-].
Qed.

(** The two halves of C1 on the example blueprints: three components with
    four distinct names, and a blueprint in which ["logMmin"] is declared
    twice. *)
Lemma build_composite_param_dict_union_or_duplicate_witness :
  (∃ d, HodFactory.build_composite_param_dict Examples.blueprint_ok = Ok d
        ∧ dom d = param_names (components Examples.blueprint_ok)
        ∧ size d = 4)
  ∧ (∃ key, HodFactory.build_composite_param_dict Examples.blueprint_dup
            = Raise (DuplicateParameterError key)).
Proof.
  split.
  - destruct (build_composite_param_dict_union_or_duplicate Examples.blueprint_ok)
      as (Hok & _ & _).
    destruct Hok as (d & Hd & Hdom & Hsize & _).
    { intros i j c1 c2 Hij Hi Hj.
      destruct i as [|[|[|i]]], j as [|[|[|j]]]; simpl in Hi, Hj; try done;
        injection Hi as <-; injection Hj as <-;
        apply disjoint_intersection_L; by vm_compute. }
    exists d. split_and!; [done|done|]. rewrite Hsize. reflexivity.
  - destruct (build_composite_param_dict_union_or_duplicate Examples.blueprint_dup)
      as (_ & Hdup & _).
    destruct (Hdup "logMmin") as (key & Hkey & _).
    { exists 0, 2, Examples.cen_occupation, Examples.sat_occupation_dup.
      split_and!; [lia|done|done|by vm_compute..]. }
    by exists key.
Defined.

(** ** Secondary haloprop keys *)

Section haloprop_keys.
Import HodFactory.
Implicit Types (bp : Blueprint) (features : list (string * Component.t)).

Lemma py_set_strings (l : list string) :
  py_set (PyStr <$> l) = Ok (remove_dups (PyStr <$> l)).
Proof.
  unfold py_set. replace (forallb hashable (PyStr <$> l)) with true; [done|].
  induction l as [|x l IH]; [done | exact IH].
Qed.

Lemma py_set_dicts (l : list (gmap string string)) :
  l ≠ [] → py_set (PyDict <$> l) = Raise (TypeError "unhashable type: 'dict'").
Proof. destruct l; [done|]. done. Qed.

(** The dictionary the loop over the galaxy types builds when no gal_type
    is ambiguous. *)
Let collected bp (acc : gmap string (gmap string string)) :=
  foldl (λ acc (item : string * list (string * Component.t)),
    if decide (length (sec_key_set item.2) = 1)
    then <[ item.1 := sec_keys_of item.2 ]> acc else acc) acc bp.

Lemma collected_empty_iff bp :
  collected bp ∅ = ∅ ↔ Forall (λ item, length (sec_key_set item.2) ≠ 1) bp.
Proof.
  induction bp as [|item bp IH] using rev_ind.
  - split; [constructor | done].
  - unfold collected in *. rewrite foldl_snoc, Forall_app, Forall_singleton.
    case_decide as Hlen.
    + split; [intros H; by apply insert_non_empty in H | tauto].
    + rewrite IH. tauto.
Qed.

(** The body of the loop over the galaxy types in
    [_create_haloprop_keys]. *)
Let body (sec_haloprop_key_dict : gmap string (gmap string string))
    (item : string * list (string * Component.t)) :=
  let '(gal_type, features) := item in
  let temp_dict := sec_keys_of features in
  s ← py_set (PyStr <$> (map_to_list temp_dict).*2);
  if decide (1 < length s) then Raise (KeyError within_msg)
  else if decide (length s = 1) then Ok (<[ gal_type := temp_dict ]> sec_haloprop_key_dict)
  else Ok sec_haloprop_key_dict.

Lemma body_eq acc gal_type features :
  body acc (gal_type, features)
  = if decide (1 < length (sec_key_set features)) then Raise (KeyError within_msg)
    else if decide (length (sec_key_set features) = 1)
    then Ok (<[ gal_type := sec_keys_of features ]> acc) else Ok acc.
Proof. unfold body. cbv zeta. by rewrite py_set_strings. Qed.

Lemma sec_haloprop_key_loop bp acc :
  for_each body bp acc
  = if decide (Exists (λ item, 1 < length (sec_key_set item.2)) bp)
    then Raise (KeyError within_msg) else Ok (collected bp acc).
Proof.
  revert acc. induction bp as [|[gal_type features] bp IH]; intros acc.
  - reflexivity.
  - cbn [for_each]. rewrite body_eq.
    assert (Exists (λ item : string * list (string * Component.t),
                      1 < length (sec_key_set item.2)) ((gal_type, features) :: bp)
            ↔ 1 < length (sec_key_set features)
              ∨ Exists (λ item, 1 < length (sec_key_set item.2)) bp) as Hiff
      by apply Exists_cons.
    destruct (decide (1 < length (sec_key_set features))) as [Hgt|Hle].
    + rewrite decide_True; [done | apply Hiff; by left].
    + destruct (decide (length (sec_key_set features) = 1)) as [H1|H1];
        cbn [mbind result_bind]; rewrite IH; unfold collected; cbn [foldl snd fst];
        rewrite ?(decide_True _ _ H1), ?(decide_False _ _ H1);
        destruct (decide (Exists _ bp)) as [Hex|Hnex].
      * rewrite decide_True; [done | apply Hiff; by right].
      * rewrite decide_False; [done | rewrite Hiff; tauto].
      * rewrite decide_True; [done | apply Hiff; by right].
      * rewrite decide_False; [done | rewrite Hiff; tauto].
Qed.

(** What [_create_haloprop_keys] does, by the secondary keys the blueprint
    declares: an ambiguous gal_type raises the [KeyError]; otherwise any
    declared key at all ends in the [TypeError] of hashing a dictionary;
    only a blueprint without secondary keys gets through. *)
Lemma create_haloprop_keys_cases hpm bp :
  _create_haloprop_keys hpm bp =
    if decide (Exists (λ item, 1 < length (sec_key_set item.2)) bp)
    then Raise (KeyError within_msg)
    else if decide (Forall (λ item, length (sec_key_set item.2) ≠ 1) bp)
    then Ok (mkHalopropKeys (HaloProfModel.prim_haloprop_key hpm) None None)
    else Raise (TypeError "unhashable type: 'dict'").
Proof.
  unfold _create_haloprop_keys. fold within_msg. change (for_each _ bp ∅) with (for_each body bp ∅).
  rewrite sec_haloprop_key_loop.
  case_decide as Hex; [done|]. cbn [mbind result_bind].
  pose proof (collected_empty_iff bp) as Hempty.
  case_decide as Hall.
  - apply Hempty in Hall. rewrite Hall, map_to_list_empty. done.
  - rewrite py_set_dicts; [done|].
    intros Hnil. apply Hall, Hempty.
    apply fmap_nil_inv in Hnil. by apply map_to_list_empty_iff.
Qed.

(** No composite model ever gets a [sec_haloprop_key]. *)
Lemma create_haloprop_keys_no_sec_key hpm bp ks :
  _create_haloprop_keys hpm bp = Ok ks → sec_haloprop_key ks = None.
Proof.
  rewrite create_haloprop_keys_cases. repeat case_decide; try done. by intros [= <-].
Qed.
End haloprop_keys.

(** C2.  [_create_haloprop_keys] on blueprints that declare secondary keys.
    One declared key, or two galaxy types declaring the same key, do not give
    a model whose [sec_haloprop_key] is that key: [set(...)] over the
    per-gal_type dictionaries raises [TypeError].  Two galaxy types that
    disagree end in the same [TypeError], not in the [KeyError] written for
    them.  Two features of one gal_type that disagree raise the [KeyError],
    and a blueprint without secondary keys gets no [sec_haloprop_key]. *)
Theorem create_haloprop_keys_declared_keys :
  HodFactory._create_haloprop_keys Examples.halo_prof Examples.blueprint_sec_one
    = Raise (TypeError "unhashable type: 'dict'")
  ∧ HodFactory._create_haloprop_keys Examples.halo_prof Examples.blueprint_sec_agree
    = Raise (TypeError "unhashable type: 'dict'")
  ∧ HodFactory._create_haloprop_keys Examples.halo_prof Examples.blueprint_sec_disagree
    = Raise (TypeError "unhashable type: 'dict'")
  ∧ HodFactory.__init__ Examples.halo_prof Examples.blueprint_sec_agree ∅
    = Raise (TypeError "unhashable type: 'dict'")
  ∧ HodFactory._create_haloprop_keys Examples.halo_prof Examples.blueprint_sec_within
    = Raise (KeyError within_msg)
  ∧ HodFactory._create_haloprop_keys Examples.halo_prof Examples.blueprint_ok
    = Ok (HodFactory.mkHalopropKeys "halo_mvir" None None).
Proof. split_and!; by vm_compute. Qed.

(** ** New-haloprop functions *)

Section new_haloprops.
Import HodFactory.
Implicit Types (bp : Blueprint) (features : list (string * Component.t))
  (out : gmap string table_func).

(** The two exceptions the duplicate branch of [get_new_haloprop_dict] can
    end in. *)
Let duplicate_branch_error (e : exn) : Prop :=
  e = KeyError "pop from an empty set" ∨ e = NameError "warnings".

(** The body of the loop over the features of one gal_type. *)
Let step out (item : string * Component.t) : result (gmap string table_func) :=
  let '(behavior_key, behavior_model) := item in
  match Component.new_haloprop_dict behavior_model with
  | Some new_dict =>
      let intersection := dom new_dict ∩ dom out in
      if negb (py_eq (PySet intersection) (PyDictOf ∅)) then
        match elements intersection with
        | [] => Raise (KeyError "pop from an empty set")
        | repeated_key :: _ => Raise (NameError "warnings")
        end
      else Ok (dict (items out ++ items new_dict))
  | None => Ok out
  end.

(** A component with a [new_haloprop_dict] always takes the duplicate
    branch: with no shared name [pop] finds the set empty, with a shared name
    [warnings] is unbound. *)
Lemma step_declared out behavior_key c (new_dict : gmap string table_func) :
  Component.new_haloprop_dict c = Some new_dict →
  step out (behavior_key, c)
  = if decide (dom new_dict ∩ dom out = (∅ : gset string))
    then Raise (KeyError "pop from an empty set") else Raise (NameError "warnings").
Proof.
  intros Hnew. unfold step. rewrite Hnew. cbn [py_eq negb].
  destruct (elements (dom new_dict ∩ dom out)) as [|k l] eqn:E.
  - apply elements_empty_inv, leibniz_equiv in E. by rewrite decide_True.
  - rewrite decide_False; [done|]. intros Hempty. by rewrite Hempty, elements_empty in E.
Qed.

Lemma step_undeclared out behavior_key c :
  Component.new_haloprop_dict c = None → step out (behavior_key, c) = Ok out.
Proof. intros Hnone. unfold step. by rewrite Hnone. Qed.

Lemma features_loop_none features out :
  Forall (λ c, Component.new_haloprop_dict c = None) (values features) →
  for_each step features out = Ok out.
Proof.
  induction features as [|[k c] features IH]; [done|].
  intros [Hc Hrest]%Forall_cons. simpl in Hc. cbn [for_each].
  rewrite (step_undeclared _ _ _ Hc). by apply IH.
Qed.

Lemma features_loop_some features out :
  Exists (λ c, is_Some (Component.new_haloprop_dict c)) (values features) →
  ∃ e, for_each step features out = Raise e ∧ duplicate_branch_error e.
Proof.
  induction features as [|[k c] features IH]; [by intros ?%Exists_nil|].
  intros Hex. cbn [for_each].
  destruct (Component.new_haloprop_dict c) as [new_dict|] eqn:Hc.
  - rewrite (step_declared _ _ _ _ Hc). unfold duplicate_branch_error.
    case_decide; eauto.
  - rewrite (step_undeclared _ _ _ Hc). cbn [mbind result_bind]. apply IH.
    apply Exists_cons in Hex as [Hsome|?]; [|done].
    simpl in Hsome. rewrite Hc in Hsome. by destruct Hsome.
Qed.

(** When no component has a [new_haloprop_dict], the halo-profile model's
    dictionary is returned as it is. *)
Lemma get_new_haloprop_dict_none hpm bp :
  Forall (λ c, Component.new_haloprop_dict c = None) (components bp) →
  get_new_haloprop_dict hpm bp = Ok (HaloProfModel.param_func_dict hpm).
Proof.
  unfold get_new_haloprop_dict. generalize (HaloProfModel.param_func_dict hpm).
  induction bp as [|[gal_type features] bp IH]; intros out Hall; [done|].
  unfold components in *. cbn in Hall. apply Forall_app in Hall as [Hf Hbp].
  cbn [for_each]. fold step. rewrite (features_loop_none _ _ Hf). by apply IH.
Qed.

(** As soon as one component has a [new_haloprop_dict], colliding or not,
    the method raises. *)
Lemma get_new_haloprop_dict_some hpm bp :
  Exists (λ c, is_Some (Component.new_haloprop_dict c)) (components bp) →
  ∃ e, get_new_haloprop_dict hpm bp = Raise e ∧ duplicate_branch_error e.
Proof.
  unfold get_new_haloprop_dict. generalize (HaloProfModel.param_func_dict hpm).
  induction bp as [|[gal_type features] bp IH]; intros out Hex;
    [by apply Exists_nil in Hex|].
  unfold components in *. cbn in Hex. apply Exists_app in Hex.
  cbn [for_each]. fold step.
  destruct (decide (Exists (λ c, is_Some (Component.new_haloprop_dict c)) (values features)))
    as [Hf|Hf].
  - destruct (features_loop_some _ out Hf) as (e & -> & He). eauto.
  - rewrite features_loop_none.
    + apply IH. tauto.
    + apply not_Exists_Forall in Hf; [|intros c; apply _].
      eapply Forall_impl; [exact Hf|]. intros c Hc. simpl in Hc.
      destruct (Component.new_haloprop_dict c); [|done]. by destruct Hc.
Qed.
End new_haloprops.

(** C3.  [get_new_haloprop_dict] where the halo-profile model defines
    ["conc"].  A component that defines ["conc"] again does not get a warning
    and the profile model's function: the method raises [NameError] (the
    module never imports [warnings]).  A component that defines the new name
    ["spin"] does not get it unioned in: the method raises [KeyError], [pop]
    on the empty intersection.  Construction fails with the same exceptions.
    Only a blueprint without any [new_haloprop_dict] returns, with the
    profile model's own dictionary. *)
Theorem get_new_haloprop_dict_declared :
  HodFactory.get_new_haloprop_dict Examples.halo_prof_conc Examples.blueprint_conc_again
    = Raise (NameError "warnings")
  ∧ HodFactory.get_new_haloprop_dict Examples.halo_prof_conc Examples.blueprint_spin
    = Raise (KeyError "pop from an empty set")
  ∧ HodFactory.__init__ Examples.halo_prof_conc Examples.blueprint_conc_again ∅
    = Raise (NameError "warnings")
  ∧ HodFactory.__init__ Examples.halo_prof_conc Examples.blueprint_spin ∅
    = Raise (KeyError "pop from an empty set")
  ∧ HodFactory.get_new_haloprop_dict Examples.halo_prof_conc Examples.blueprint_ok
    = Ok (HaloProfModel.param_func_dict Examples.halo_prof_conc).
Proof. split_and!; by vm_compute. Qed.

(** ** Argument resolution in [component_behavior] *)

(** C8.  [retrieve_relevant_haloprops], and [component_behavior] through it:
    positional arrays together with the keyword [mock_galaxies], or neither
    of them, raise [SyntaxError] (the code's argument-conflict error);
    positional arrays alone are returned as they are; a mock alone, when it
    holds the gal_type's slice and the arrays named by the haloprop keys,
    gives the primary array (and the secondary one, if a key for it is
    configured) at that slice; and with exactly one of the two supplied no
    [SyntaxError] is raised at all. *)
Theorem retrieve_relevant_haloprops_argument_policy
    (self : HodFactory.HodModel) (gal_type component_key : string)
    (args : list column) (kwargs : gmap string MockGalaxies.t) :
  (args ≠ [] → is_Some (kwargs !! "mock_galaxies") →
     HodFactory.retrieve_relevant_haloprops self gal_type component_key args kwargs
       = Raise (SyntaxError both_msg)
     ∧ HodFactory.component_behavior self gal_type component_key args kwargs
       = Raise (SyntaxError both_msg))
  ∧ (args = [] → kwargs !! "mock_galaxies" = None →
     HodFactory.retrieve_relevant_haloprops self gal_type component_key args kwargs
       = Raise (SyntaxError neither_msg)
     ∧ HodFactory.component_behavior self gal_type component_key args kwargs
       = Raise (SyntaxError neither_msg))
  ∧ (args ≠ [] → kwargs !! "mock_galaxies" = None →
     HodFactory.retrieve_relevant_haloprops self gal_type component_key args kwargs
       = Ok args)
  ∧ (args = [] → ∀ mock prim_key sl prim,
       kwargs !! "mock_galaxies" = Some mock →
       HodFactory.haloprop_key_dict self !! "prim_haloprop_key" = Some prim_key →
       MockGalaxies._gal_type_indices mock !! gal_type = Some sl →
       MockGalaxies.attrs mock !! prim_key = Some prim →
       match HodFactory.haloprop_key_dict self !! "sec_haloprop_key" with
       | None =>
           HodFactory.retrieve_relevant_haloprops self gal_type component_key args kwargs
             = Ok [py_slice sl prim]
       | Some sec_key => ∀ sec,
           MockGalaxies.attrs mock !! sec_key = Some sec →
           HodFactory.retrieve_relevant_haloprops self gal_type component_key args kwargs
             = Ok [py_slice sl prim; py_slice sl sec]
       end)
  ∧ ((args ≠ [] ↔ kwargs !! "mock_galaxies" = None) → ∀ msg,
     HodFactory.retrieve_relevant_haloprops self gal_type component_key args kwargs
       ≠ Raise (SyntaxError msg)).
Proof.
  unfold HodFactory.component_behavior, HodFactory.retrieve_relevant_haloprops,
    HodFactory.aph_len, both_msg, neither_msg.
  split_and!.
  - intros Hargs Hmock. destruct args as [|a args]; [done|].
    rewrite (bool_decide_eq_true_2 _ Hmock). simpl. done.
  - intros -> Hmock.
    assert (¬ is_Some (kwargs !! "mock_galaxies")) as Hno by (rewrite Hmock; by intros [? ?]).
    rewrite (bool_decide_eq_false_2 _ Hno). simpl. done.
  - intros Hargs Hmock. destruct args as [|a args]; [done|].
    assert (¬ is_Some (kwargs !! "mock_galaxies")) as Hno by (rewrite Hmock; by intros [? ?]).
    rewrite (bool_decide_eq_false_2 _ Hno). simpl. done.
  - intros -> mock prim_key sl prim Hmock Hprim Hsl Harr.
    assert (is_Some (kwargs !! "mock_galaxies")) as Hyes by (by rewrite Hmock).
    rewrite (bool_decide_eq_true_2 _ Hyes). cbn [length bool_decide andb].
    rewrite bool_decide_eq_true_2 by done. cbn [andb].
    unfold HodFactory.dict_getitem, HodFactory.getattr.
    rewrite Hmock, Hprim. cbn [mbind result_bind]. rewrite Hsl. cbn [mbind result_bind].
    rewrite Harr. cbn [mbind result_bind].
    destruct (HodFactory.haloprop_key_dict self !! "sec_haloprop_key") as [sec_key|] eqn:Hsec.
    + intros sec Hsecarr. rewrite bool_decide_eq_true_2 by done.
      cbn [mbind result_bind]. rewrite Hsecarr. done.
    + rewrite bool_decide_eq_false_2 by (by intros [? ?]). done.
  - intros Hone msg. destruct args as [|a args].
    + destruct (kwargs !! "mock_galaxies") as [mock|] eqn:Hmock.
      * rewrite bool_decide_eq_true_2 by done. cbn [length andb].
        rewrite bool_decide_eq_true_2 by done. cbn [andb].
        unfold HodFactory.dict_getitem, HodFactory.getattr.
        cbn [mbind result_bind].
        repeat (match goal with
                | |- context [match ?m !! ?k with _ => _ end] => destruct (m !! k)
                | |- context [bool_decide ?P] => destruct (bool_decide P)
                end; cbn [mbind result_bind]); done.
      * exfalso. by apply Hone.
    + destruct (kwargs !! "mock_galaxies") as [mock|] eqn:Hmock.
      * exfalso. assert (Some mock = None) as Habs by (by apply Hone). done.
      * rewrite (bool_decide_eq_false_2 (is_Some None)) by (by intros [? ?]). simpl. done.
Qed.

(** C8 on the example model: a mock alone gives the primary array at the
    centrals' slice; arrays and a mock together are refused. *)
Lemma retrieve_relevant_haloprops_argument_policy_witness :
  HodFactory.retrieve_relevant_haloprops Examples.composite "centrals" "occupation_model"
    [] {[ "mock_galaxies" := Examples.mock_galaxies ]}
    = Ok [[Num 10; Num 11]]
  ∧ HodFactory.retrieve_relevant_haloprops Examples.composite "centrals" "occupation_model"
      [[Num 10]] {[ "mock_galaxies" := Examples.mock_galaxies ]}
    = Raise (SyntaxError both_msg).
Proof.
  pose proof (retrieve_relevant_haloprops_argument_policy Examples.composite
                "centrals" "occupation_model" [] {[ "mock_galaxies" := Examples.mock_galaxies ]})
    as (_ & _ & _ & Hmock & _).
  pose proof (retrieve_relevant_haloprops_argument_policy Examples.composite
                "centrals" "occupation_model" [[Num 10]]
                {[ "mock_galaxies" := Examples.mock_galaxies ]})
    as (Hboth & _).
  split.
  - exact (Hmock eq_refl Examples.mock_galaxies "halo_mvir" (0, 2) [Num 10; Num 11; Num 12]
             eq_refl eq_refl eq_refl eq_refl).
  - apply Hboth; [done | by eexists].
Defined.

(** ** Tables *)

Section tables.
Implicit Types (t : Table) (c : column) (mask : list bool).

Lemma table_setitem_ok t key c t' :
  table_setitem t key c = Ok t' →
  columns t' = <[ key := c ]> (columns t) ∧ length c = nrows t'
  ∧ (columns t ≠ ∅ → nrows t' = nrows t).
Proof.
  unfold table_setitem. destruct (decide (columns t = ∅)) as [Hempty|Hcols].
  - intros [= <-]. cbn. rewrite Hempty. by rewrite insert_empty.
  - case_decide as Hlen; [|done]. intros [= <-]. done.
Qed.

Lemma table_setitem_lookup t key c t' :
  table_setitem t key c = Ok t' →
  columns t' !! key = Some c ∧ ∀ k, k ≠ key → columns t' !! k = columns t !! k.
Proof.
  intros (-> & _ & _)%table_setitem_ok. split; [apply lookup_insert_eq|].
  intros k Hk. by apply lookup_insert_ne.
Qed.

Lemma table_setitem_nonempty t key c t' :
  table_setitem t key c = Ok t' → columns t' ≠ ∅.
Proof. intros (-> & _ & _)%table_setitem_ok. apply insert_non_empty. Qed.

Lemma table_setitem_wf t key c t' :
  table_wf t → table_setitem t key c = Ok t' → table_wf t'.
Proof.
  intros [Hzero Hlen] Hset.
  pose proof (table_setitem_nonempty _ _ _ _ Hset) as Hne.
  destruct (table_setitem_ok _ _ _ _ Hset) as (Hcols & Hc & Hrows).
  split; [done|]. intros k c'. rewrite Hcols.
  destruct (decide (key = k)) as [->|Hk].
  - rewrite lookup_insert_eq. by intros [= <-].
  - rewrite lookup_insert_ne by done. intros Hk'.
    rewrite Hrows; [by eapply Hlen|]. intros Hempty. by rewrite Hempty in Hk'.
Qed.

(** Writing a column back over itself changes nothing. *)
Lemma table_setitem_same t key c :
  columns t !! key = Some c → length c = nrows t → table_setitem t key c = Ok t.
Proof.
  intros Hkey Hlen. unfold table_setitem.
  rewrite decide_False by (intros Hempty; by rewrite Hempty in Hkey).
  rewrite decide_True by done. rewrite insert_id by done. by destruct t.
Qed.

Lemma length_mask_column {A : Type} mask (l : list A) :
  length mask = length l → length (mask_column mask l) = count_true mask.
Proof.
  revert l. induction mask as [|b mask IH]; intros [|x l] Hlen; try done.
  simpl in Hlen. injection Hlen as Hlen. specialize (IH l Hlen).
  unfold count_true in *. destruct b; cbn [mask_column].
  - rewrite filter_cons_True by done. cbn [length]. by rewrite IH.
  - rewrite filter_cons_False by done. done.
Qed.

Lemma count_true_le mask : count_true mask ≤ length mask.
Proof. unfold count_true. apply length_filter. Qed.

(** Masking keeps the surviving entries in their order. *)
Lemma mask_column_sublist {A : Type} mask (l : list A) : mask_column mask l `sublist_of` l.
Proof.
  revert l. induction mask as [|b mask IH]; intros [|x l]; simpl; try apply sublist_nil_l.
  destruct b; [by apply sublist_skip | by apply sublist_cons].
Qed.

Lemma table_getitem_mask_ok t mask t' :
  table_getitem_mask t mask = Ok t' →
  (mask = [] ∨ length mask = nrows t) ∧ nrows t' = count_true mask
  ∧ columns t' = mask_column mask <$> columns t.
Proof. unfold table_getitem_mask. case_decide; [|done]. by intros [= <-]. Qed.

(** Masking never adds a row. *)
Lemma table_getitem_mask_le t mask t' :
  table_getitem_mask t mask = Ok t' → nrows t' ≤ nrows t.
Proof.
  intros ([->|Hlen] & -> & _)%table_getitem_mask_ok.
  - cbn. lia.
  - rewrite <- Hlen. apply count_true_le.
Qed.

Lemma table_getitem_mask_wf t mask t' :
  table_wf t → table_getitem_mask t mask = Ok t' → table_wf t'.
Proof.
  intros [Hzero Hlen] (Hmask & Hrows & Hcols)%table_getitem_mask_ok. split.
  - rewrite Hcols, fmap_empty_iff. intros Hempty. rewrite Hrows.
    specialize (Hzero Hempty). pose proof (count_true_le mask).
    destruct Hmask as [->|Hmask]; [done | lia].
  - intros k c. rewrite Hcols, lookup_fmap. intros Hk.
    apply fmap_Some in Hk as (c0 & Hc0 & ->).
    rewrite Hrows. destruct Hmask as [->|Hmask]; [done|].
    apply length_mask_column. rewrite Hmask. symmetry. by eapply Hlen.
Qed.

Lemma length_arange n : length (arange n) = n.
Proof. unfold arange. by rewrite length_fmap, length_seq. Qed.
End tables.

(** ** Methods of the mock *)

Section methods.
Import SubhaloMockFactory.
Implicit Types (s : Mock) (e : exn).

Lemma bind_ok {A B : Type} (m : M A) (f : A → M B) s s' b :
  (m ≫= f) s = (s', Ok b) ↔ ∃ a s1, m s = (s1, Ok a) ∧ f a s1 = (s', Ok b).
Proof.
  unfold mbind, M_bind. destruct (m s) as [s1 [a|e]].
  - split; [eauto|]. by intros (a' & s1' & [= <- <-] & Hf).
  - split; [done|]. by intros (a' & s1' & [=] & _).
Qed.

Lemma bind_raise {A B : Type} (m : M A) (f : A → M B) s s' e :
  (m ≫= f) s = (s', Raise e) ↔
  m s = (s', Raise e) ∨ ∃ a s1, m s = (s1, Ok a) ∧ f a s1 = (s', Raise e).
Proof.
  unfold mbind, M_bind. destruct (m s) as [s1 [a|e1]].
  - split; [eauto|]. intros [[=]|(a' & s1' & [= <- <-] & Hf)]. done.
  - split; [intros [= <- <-]; by left|]. by intros [[= <- <-]|(a' & s1' & [=] & _)].
Qed.

Lemma for_app {B : Type} (xs ys : list B) (body : B → M unit) :
  ∀ s, for_ (xs ++ ys) body s = (for_ xs body;; for_ ys body) s.
Proof.
  induction xs as [|x xs IH]; intros s; simpl.
  - unfold mbind, M_bind, mret, M_ret. by destruct (for_ ys body s) as [? [[]|]].
  - unfold mbind, M_bind in *. destruct (body x s) as [s1 [[]|e]]; [|done]. apply IH.
Qed.

Lemma galaxy_table_setitem_ok key c s s' :
  galaxy_table_setitem key c s = (s', Ok tt) ↔
  ∃ g', table_setitem (galaxy_table s) key c = Ok g'
        ∧ s' = mkMock (halo_table s) g' (additional_haloprops s) (calls s).
Proof.
  unfold galaxy_table_setitem, gets, lift, set_galaxy_table, mbind, M_bind.
  destruct (table_setitem (galaxy_table s) key c) as [g'|e]; simpl.
  - split; [intros [= <-]; eauto | by intros (g & [= <-] & ->)].
  - split; [done | by intros (g & [=] & _)].
Qed.

Lemma galaxy_table_setitem_raise key c s s' e :
  galaxy_table_setitem key c s = (s', Raise e) ↔
  table_setitem (galaxy_table s) key c = Raise e ∧ s' = s.
Proof.
  unfold galaxy_table_setitem, gets, lift, set_galaxy_table, mbind, M_bind.
  destruct (table_setitem (galaxy_table s) key c) as [g'|e']; simpl.
  - split; [done | by intros [[=] _]].
  - split; [by intros [= <- <-] | by intros [[= <-] ->]].
Qed.
End methods.

(** ** The population loop *)

Section population.
Import SubhaloMockFactory.
Context (model : SubhaloModel.t).
Implicit Types (s : Mock) (t : Table) (ks : list string).

(** One turn of [populate]'s loop on the mock. *)
Lemma populate_galprops_cons k ks s :
  populate_galprops model (k :: ks) s =
  match SubhaloModel.attributes model !! ("mc_" +:+ k) with
  | None => (s, Raise (AttributeError ("mc_" +:+ k)))
  | Some model_func =>
      match table_setitem (galaxy_table s) k (model_func (galaxy_table s)) with
      | Ok g' =>
          populate_galprops model ks
            (mkMock (halo_table s) g' (additional_haloprops s) (calls s ++ [CallMC k]))
      | Raise e =>
          (mkMock (halo_table s) (galaxy_table s) (additional_haloprops s)
             (calls s ++ [CallMC k]), Raise e)
      end
  end.
Proof.
  cbv [populate_galprops for_ mbind M_bind lift gets record galaxy_table_setitem
       set_galaxy_table HodFactory.getattr].
  destruct (SubhaloModel.attributes model !! ("mc_" +:+ k)) as [f|]; [|done].
  cbn [galaxy_table halo_table additional_haloprops calls].
  by destruct (table_setitem (galaxy_table s) k (f (galaxy_table s))).
Qed.

Lemma mc_run_cons k ks t :
  mc_run model (k :: ks) t = mc_step model t k ≫= mc_run model ks.
Proof. reflexivity. Qed.

Lemma mc_step_unfold k t :
  mc_step model t k =
  match SubhaloModel.attributes model !! ("mc_" +:+ k) with
  | None => Raise (AttributeError ("mc_" +:+ k))
  | Some model_func => table_setitem t k (model_func t)
  end.
Proof.
  unfold mc_step, HodFactory.getattr.
  by destruct (SubhaloModel.attributes model !! ("mc_" +:+ k)).
Qed.

(** The loop on the mock returns exactly when the loop on its galaxy table
    does; it then has logged one call per property, in order, and touched
    nothing but the galaxy table. *)
Lemma populate_galprops_ok ks s s' :
  populate_galprops model ks s = (s', Ok tt) ↔
  ∃ t', mc_run model ks (galaxy_table s) = Ok t'
        ∧ s' = mkMock (halo_table s) t' (additional_haloprops s)
                 (calls s ++ (CallMC <$> ks)).
Proof.
  revert s. induction ks as [|k ks IH]; intros s.
  - cbn. rewrite app_nil_r. split.
    + intros [= <-]. exists (galaxy_table s). by destruct s.
    + intros (t' & [= <-] & ->). by destruct s.
  - rewrite populate_galprops_cons, mc_run_cons, mc_step_unfold.
    destruct (SubhaloModel.attributes model !! ("mc_" +:+ k)) as [f|];
      [|split; [done | by intros (? & [=] & _)]].
    destruct (table_setitem (galaxy_table s) k (f (galaxy_table s))) as [g'|e];
      [|split; [done | by intros (? & [=] & _)]].
    rewrite IH. cbn [galaxy_table halo_table additional_haloprops calls mbind result_bind].
    rewrite fmap_cons, <- app_assoc. done.
Qed.

(** When the loop raises, the properties before the failing one have been
    written, and the galaxy table is left as they made it. *)
Lemma populate_galprops_raise ks s s' e :
  populate_galprops model ks s = (s', Raise e) →
  ∃ pre k post t1,
    ks = pre ++ k :: post
    ∧ mc_run model pre (galaxy_table s) = Ok t1
    ∧ mc_step model t1 k = Raise e
    ∧ galaxy_table s' = t1
    ∧ halo_table s' = halo_table s
    ∧ additional_haloprops s' = additional_haloprops s.
Proof.
  revert s. induction ks as [|k ks IH]; intros s; [done|].
  rewrite populate_galprops_cons.
  destruct (SubhaloModel.attributes model !! ("mc_" +:+ k)) as [f|] eqn:Hf.
  - destruct (table_setitem (galaxy_table s) k (f (galaxy_table s))) as [g'|e'] eqn:Hset.
    + intros (pre & k' & post & t1 & -> & Hrun & Hstep & Hg & Hh & Ha)%IH.
      exists (k :: pre), k', post, t1. split_and!; try done.
      rewrite mc_run_cons, mc_step_unfold, Hf, Hset. done.
    + intros [= <- <-]. exists [], k, ks, (galaxy_table s). split_and!; try done.
      by rewrite mc_step_unfold, Hf.
  - intros [= <- <-]. exists [], k, ks, (galaxy_table s). split_and!; try done.
    by rewrite mc_step_unfold, Hf.
Qed.

Lemma mc_run_app xs ys t :
  mc_run model (xs ++ ys) t = mc_run model xs t ≫= mc_run model ys.
Proof. apply for_each_app. Qed.

Lemma mc_step_ok k t t' :
  mc_step model t k = Ok t' →
  ∃ f, SubhaloModel.attributes model !! ("mc_" +:+ k) = Some f
       ∧ table_setitem t k (f t) = Ok t'.
Proof.
  rewrite mc_step_unfold.
  destruct (SubhaloModel.attributes model !! ("mc_" +:+ k)) as [f|]; [eauto | done].
Qed.

(** The loop writes no column but those of the properties it is given. *)
Lemma mc_run_frame ks t t' :
  mc_run model ks t = Ok t' → ∀ k, k ∉ ks → columns t' !! k = columns t !! k.
Proof.
  revert t. induction ks as [|k0 ks IH]; intros t; [by intros [= <-]|].
  rewrite mc_run_cons. destruct (mc_step model t k0) as [t1|] eqn:Hstep; [|done].
  cbn [mbind result_bind]. intros Hrun k Hk.
  apply not_elem_of_cons in Hk as [Hne Hk].
  rewrite (IH _ Hrun k Hk).
  apply mc_step_ok in Hstep as (f & _ & Hset).
  by apply (table_setitem_lookup _ _ _ _ Hset).
Qed.

(** On a table that has columns, the loop keeps the number of rows. *)
Lemma mc_run_rows ks t t' :
  mc_run model ks t = Ok t' → columns t ≠ ∅ → nrows t' = nrows t ∧ columns t' ≠ ∅.
Proof.
  revert t. induction ks as [|k0 ks IH]; intros t; [by intros [= <-]|].
  rewrite mc_run_cons. destruct (mc_step model t k0) as [t1|] eqn:Hstep; [|done].
  cbn [mbind result_bind]. intros Hrun Hne.
  apply mc_step_ok in Hstep as (f & _ & Hset).
  destruct (IH _ Hrun (table_setitem_nonempty _ _ _ _ Hset)) as [-> Hne'].
  split; [|done]. by apply (table_setitem_ok _ _ _ _ Hset).
Qed.

Lemma mc_run_nonempty ks t t' :
  ks ≠ [] → mc_run model ks t = Ok t' → columns t' ≠ ∅.
Proof.
  destruct ks as [|k0 ks]; [done|]. intros _.
  rewrite mc_run_cons. destruct (mc_step model t k0) as [t1|] eqn:Hstep; [|done].
  cbn [mbind result_bind]. intros Hrun.
  apply mc_step_ok in Hstep as (f & _ & Hset).
  by apply (mc_run_rows _ _ _ Hrun), (table_setitem_nonempty _ _ _ _ Hset).
Qed.

Lemma mc_run_wf ks t t' : table_wf t → mc_run model ks t = Ok t' → table_wf t'.
Proof.
  revert t. induction ks as [|k0 ks IH]; intros t Hwf; [by intros [= <-]|].
  rewrite mc_run_cons. destruct (mc_step model t k0) as [t1|] eqn:Hstep; [|done].
  cbn [mbind result_bind]. apply IH.
  apply mc_step_ok in Hstep as (f & _ & Hset). by eapply table_setitem_wf.
Qed.

(** The column of a property holds what its last call returned, with one
    entry per row. *)
Lemma mc_run_last_write pre k post t t' :
  mc_run model (pre ++ k :: post) t = Ok t' → k ∉ post →
  ∃ t1 f, mc_run model pre t = Ok t1
          ∧ SubhaloModel.attributes model !! ("mc_" +:+ k) = Some f
          ∧ columns t' !! k = Some (f t1)
          ∧ length (f t1) = nrows t'
          ∧ ∀ k', k' ∉ k :: post → columns t' !! k' = columns t1 !! k'.
Proof.
  rewrite mc_run_app. destruct (mc_run model pre t) as [t1|]; [|done].
  cbn [mbind result_bind]. rewrite mc_run_cons.
  destruct (mc_step model t1 k) as [t2|] eqn:Hstep; [|done].
  cbn [mbind result_bind]. intros Hrun Hk.
  apply mc_step_ok in Hstep as (f & Hf & Hset).
  exists t1, f. split_and!; try done.
  - rewrite (mc_run_frame _ _ _ Hrun k Hk). by apply (table_setitem_lookup _ _ _ _ Hset).
  - destruct (mc_run_rows _ _ _ Hrun (table_setitem_nonempty _ _ _ _ Hset)) as [-> _].
    by apply (table_setitem_ok _ _ _ _ Hset).
  - intros k' [Hne Hk']%not_elem_of_cons.
    rewrite (mc_run_frame _ _ _ Hrun k' Hk').
    by apply (table_setitem_lookup _ _ _ _ Hset).
Qed.

Lemma mc_run_written ks t t' :
  mc_run model ks t = Ok t' →
  ∀ k, k ∈ ks → ∃ c, columns t' !! k = Some c ∧ length c = nrows t'.
Proof.
  intros Hrun k Hk. apply list_elem_of_split_r in Hk as (pre & post & -> & Hk).
  destruct (mc_run_last_write _ _ _ _ _ Hrun Hk) as (t1 & f & _ & _ & Hcol & Hlen & _).
  eauto.
Qed.

(** Under [mc_reads_earlier], a table that the loop has produced out of a
    table with columns is left as it is by a second run of the loop. *)
Lemma mc_run_again t t' :
  mc_reads_earlier model → columns t ≠ ∅ →
  mc_run model (SubhaloModel.galprop_list model) t = Ok t' →
  mc_run model (SubhaloModel.galprop_list model) t' = Ok t'.
Proof.
  intros Hreads Hne Hrun.
  assert (∀ k, k ∈ SubhaloModel.galprop_list model → mc_step model t' k = Ok t') as Hstep.
  { intros k Hk. apply list_elem_of_split_r in Hk as (pre & post & Hlist & Hk).
    rewrite Hlist in Hrun.
    destruct (mc_run_last_write _ _ _ _ _ Hrun Hk) as (t1 & f & Hpre & Hf & Hcol & Hlen & Hframe).
    rewrite mc_step_unfold, Hf.
    assert (nrows t' = nrows t1) as Hrows.
    { destruct (mc_run_rows _ _ _ Hrun Hne) as [-> _].
      by destruct (mc_run_rows _ _ _ Hpre Hne) as [-> _]. }
    assert (f t' = f t1) as Heq by (by eapply Hreads).
    rewrite Heq. by apply table_setitem_same. }
  clear Hrun. induction (SubhaloModel.galprop_list model) as [|k ks IH]; [done|].
  rewrite mc_run_cons, Hstep by left. cbn [mbind result_bind].
  apply IH. intros k' Hk'. apply Hstep. by right.
Qed.

Lemma apply_selection_run s :
  apply_selection model s =
  match SubhaloModel.galaxy_selection_func model with
  | None => (s, Ok tt)
  | Some galaxy_selection_func =>
      match table_getitem_mask (galaxy_table s) (galaxy_selection_func (galaxy_table s)) with
      | Ok g' =>
          (mkMock (halo_table s) g' (additional_haloprops s) (calls s ++ [CallSelection]),
           Ok tt)
      | Raise e =>
          (mkMock (halo_table s) (galaxy_table s) (additional_haloprops s)
             (calls s ++ [CallSelection]), Raise e)
      end
  end.
Proof.
  unfold apply_selection.
  destruct (SubhaloModel.galaxy_selection_func model) as [sel|]; [|done].
  cbv [mbind M_bind lift gets record set_galaxy_table].
  cbn [galaxy_table halo_table additional_haloprops calls].
  by destruct (table_getitem_mask (galaxy_table s) (sel (galaxy_table s))).
Qed.

(** What a call of [populate] that returns has done. *)
Lemma populate_ok s s' :
  populate model s = (s', Ok tt) ↔
  ∃ t1, mc_run model (SubhaloModel.galprop_list model) (galaxy_table s) = Ok t1
    ∧ match SubhaloModel.galaxy_selection_func model with
      | None =>
          s' = mkMock (halo_table s) t1 (additional_haloprops s)
                 (calls s ++ (CallMC <$> SubhaloModel.galprop_list model))
      | Some galaxy_selection_func =>
          ∃ g', table_getitem_mask t1 (galaxy_selection_func t1) = Ok g'
            ∧ s' = mkMock (halo_table s) g' (additional_haloprops s)
                     ((calls s ++ (CallMC <$> SubhaloModel.galprop_list model))
                        ++ [CallSelection])
      end.
Proof.
  unfold populate. rewrite bind_ok. split.
  - intros ([] & s1 & (t1 & Hrun & ->)%populate_galprops_ok & Hsel).
    exists t1. split; [done|]. rewrite apply_selection_run in Hsel.
    destruct (SubhaloModel.galaxy_selection_func model) as [sel|].
    + cbn [galaxy_table halo_table additional_haloprops calls] in Hsel.
      destruct (table_getitem_mask t1 (sel t1)) as [g'|]; [|done].
      injection Hsel as <-. eauto.
    + by injection Hsel as <-.
  - intros (t1 & Hrun & Hsel).
    exists tt, (mkMock (halo_table s) t1 (additional_haloprops s)
                  (calls s ++ (CallMC <$> SubhaloModel.galprop_list model))).
    split; [apply populate_galprops_ok; eauto|].
    rewrite apply_selection_run.
    destruct (SubhaloModel.galaxy_selection_func model) as [sel|].
    + destruct Hsel as (g' & Hmask & ->).
      cbn [galaxy_table halo_table additional_haloprops calls]. by rewrite Hmask.
    + by rewrite Hsel.
Qed.
End population.

(** ** [populate] *)

(** C5.  A call of [populate] that returns has first run the whole loop over
    [galprop_list]: every property has its column in the table the loop
    leaves.  The calls into the model are the Monte Carlo calls in
    [galprop_list] order, followed, when the model has a
    [galaxy_selection_func], by one selection call and nothing else.  Every
    column of the final table is the populated column at the mask's [True]
    positions and the table has one row per [True] of the mask, so the row
    count does not grow and the [galid] column is the populated [galid]
    column with the dropped rows taken out, the others in their order. *)
Theorem populate_selection_after_galprops
    (model : SubhaloModel.t) (s s' : SubhaloMockFactory.Mock) :
  SubhaloMockFactory.populate model s = (s', Ok tt) →
  ∃ s1,
    SubhaloMockFactory.populate_galprops model (SubhaloModel.galprop_list model) s = (s1, Ok tt)
    ∧ (∀ k, k ∈ SubhaloModel.galprop_list model →
         is_Some (columns (SubhaloMockFactory.galaxy_table s1) !! k))
    ∧ match SubhaloModel.galaxy_selection_func model with
      | None =>
          s' = s1
          ∧ SubhaloMockFactory.calls s'
            = SubhaloMockFactory.calls s
              ++ (SubhaloMockFactory.CallMC <$> SubhaloModel.galprop_list model)
      | Some galaxy_selection_func =>
          let mask := galaxy_selection_func (SubhaloMockFactory.galaxy_table s1) in
          SubhaloMockFactory.calls s'
            = SubhaloMockFactory.calls s
              ++ (SubhaloMockFactory.CallMC <$> SubhaloModel.galprop_list model)
              ++ [SubhaloMockFactory.CallSelection]
          ∧ columns (SubhaloMockFactory.galaxy_table s')
            = mask_column mask <$> columns (SubhaloMockFactory.galaxy_table s1)
          ∧ nrows (SubhaloMockFactory.galaxy_table s') = count_true mask
          ∧ nrows (SubhaloMockFactory.galaxy_table s')
            ≤ nrows (SubhaloMockFactory.galaxy_table s1)
          ∧ ∀ galid, columns (SubhaloMockFactory.galaxy_table s1) !! "galid" = Some galid →
              columns (SubhaloMockFactory.galaxy_table s') !! "galid"
                = Some (mask_column mask galid)
              ∧ mask_column mask galid `sublist_of` galid
      end.
Proof.
  intros (t1 & Hrun & Hsel)%populate_ok.
  exists (SubhaloMockFactory.mkMock (SubhaloMockFactory.halo_table s) t1
            (SubhaloMockFactory.additional_haloprops s)
            (SubhaloMockFactory.calls s
               ++ (SubhaloMockFactory.CallMC <$> SubhaloModel.galprop_list model))).
  split; [apply populate_galprops_ok; eauto|]. split.
  { intros k Hk. destruct (mc_run_written _ _ _ _ Hrun k Hk) as (c & Hc & _).
    cbn. by rewrite Hc. }
  destruct (SubhaloModel.galaxy_selection_func model) as [sel|].
  - destruct Hsel as (g' & Hmask & ->).
    destruct (table_getitem_mask_ok _ _ _ Hmask) as (_ & Hrows & Hcols).
    cbn [SubhaloMockFactory.galaxy_table SubhaloMockFactory.calls]. split_and!.
    + by rewrite app_assoc.
    + done.
    + done.
    + by apply (table_getitem_mask_le _ _ _ Hmask).
    + intros galid Hgalid. split; [|apply mask_column_sublist].
      by rewrite Hcols, lookup_fmap, Hgalid.
  - by subst s'.
Qed.

(** C5 on the example model: of four rows the selection keeps the two whose
    draw is one, under their own ids. *)
Lemma populate_selection_after_galprops_witness :
  ∃ s1,
    SubhaloMockFactory.populate_galprops Examples.model_flag ["stellar_mass"; "flag"]
      (Examples.precomputed Examples.model_flag) = (s1, Ok tt)
    ∧ columns (SubhaloMockFactory.galaxy_table s1) !! "galid"
      = Some [Num 0; Num 1; Num 2; Num 3]
    ∧ columns (SubhaloMockFactory.galaxy_table
                 (SubhaloMockFactory.populate Examples.model_flag
                    (Examples.precomputed Examples.model_flag)).1) !! "galid"
      = Some [Num 0; Num 2].
Proof.
  destruct (populate_selection_after_galprops Examples.model_flag
              (Examples.precomputed Examples.model_flag)
              (SubhaloMockFactory.populate Examples.model_flag
                 (Examples.precomputed Examples.model_flag)).1)
    as (s1 & Hloop & _ & Hsel); [by vm_compute|].
  exists s1. split; [exact Hloop|].
  assert (s1 = (SubhaloMockFactory.populate_galprops Examples.model_flag
                  ["stellar_mass"; "flag"] (Examples.precomputed Examples.model_flag)).1)
    as -> by (change ["stellar_mass"; "flag"] with
                (SubhaloModel.galprop_list Examples.model_flag); by rewrite Hloop).
  split; by vm_compute.
Defined.

(** C9.  When [galprop_list] names a property whose [mc_<galprop>] the model
    does not have, [populate] never returns: it raises.  And once the
    properties listed before it have been populated, what it raises is the
    [AttributeError] for that name, out of the state those properties
    left. *)
Theorem populate_missing_mc_raises
    (model : SubhaloModel.t) (s : SubhaloMockFactory.Mock) (galprop : string) :
  galprop ∈ SubhaloModel.galprop_list model →
  SubhaloModel.attributes model !! ("mc_" +:+ galprop) = None →
  (∃ s' e, SubhaloMockFactory.populate model s = (s', Raise e))
  ∧ (∀ pre post s1,
       SubhaloModel.galprop_list model = pre ++ galprop :: post →
       SubhaloMockFactory.populate_galprops model pre s = (s1, Ok tt) →
       SubhaloMockFactory.populate model s
         = (s1, Raise (AttributeError ("mc_" +:+ galprop)))).
Proof.
  intros Hin Hnone. split.
  - destruct (SubhaloMockFactory.populate model s) as [s' [[]|e]] eqn:Hpop; [|eauto].
    exfalso. apply populate_ok in Hpop as (t1 & Hrun & _).
    apply list_elem_of_split in Hin as (pre & post & Hlist). rewrite Hlist in Hrun.
    rewrite mc_run_app in Hrun. destruct (mc_run model pre _) as [t0|]; [|done].
    cbn [mbind result_bind] in Hrun. rewrite mc_run_cons, mc_step_unfold, Hnone in Hrun.
    done.
  - intros pre post s1 Hlist Hpre. unfold SubhaloMockFactory.populate.
    apply bind_raise. left. rewrite Hlist.
    unfold SubhaloMockFactory.populate_galprops in *. rewrite for_app.
    apply bind_raise. right. exists tt, s1. split; [done|].
    fold (SubhaloMockFactory.populate_galprops model (galprop :: post) s1).
    by rewrite populate_galprops_cons, Hnone.
Qed.

(** C9 on the example model, which lists ["sfr"] and has no [mc_sfr]. *)
Lemma populate_missing_mc_raises_witness :
  ∃ s' e, SubhaloMockFactory.populate Examples.model_missing
            (Examples.precomputed Examples.model_missing) = (s', Raise e).
Proof.
  apply (populate_missing_mc_raises Examples.model_missing
           (Examples.precomputed Examples.model_missing) "sfr").
  - apply list_elem_of_In. right. by left.
  - by vm_compute.
Defined.

(** C10.  Two calls of [populate] in a row.  The second call runs its loop
    on the table the first one left, which, when the model has a
    [galaxy_selection_func], is the first call's masked table.  The second
    call does not raise the number of rows, and every column that [populate]
    does not write ([galid] and the inherited columns) is, after the second
    call, a sublist of what it was after the first: no removed row comes
    back. *)
Theorem populate_again_never_restores
    (model : SubhaloModel.t) (s s1 s2 : SubhaloMockFactory.Mock) :
  SubhaloMockFactory.populate model s = (s1, Ok tt) →
  SubhaloMockFactory.populate model s1 = (s2, Ok tt) →
  nrows (SubhaloMockFactory.galaxy_table s2) ≤ nrows (SubhaloMockFactory.galaxy_table s1)
  ∧ (∀ k c1, k ∉ SubhaloModel.galprop_list model →
       columns (SubhaloMockFactory.galaxy_table s1) !! k = Some c1 →
       ∃ c2, columns (SubhaloMockFactory.galaxy_table s2) !! k = Some c2
             ∧ c2 `sublist_of` c1)
  ∧ (∀ k, k ∉ SubhaloModel.galprop_list model →
       columns (SubhaloMockFactory.galaxy_table s1) !! k = None →
       columns (SubhaloMockFactory.galaxy_table s2) !! k = None)
  ∧ match SubhaloModel.galaxy_selection_func model with
    | None => True
    | Some galaxy_selection_func =>
        (∃ t0, mc_run model (SubhaloModel.galprop_list model)
                 (SubhaloMockFactory.galaxy_table s) = Ok t0
               ∧ table_getitem_mask t0 (galaxy_selection_func t0)
                 = Ok (SubhaloMockFactory.galaxy_table s1))
        ∧ (∃ t1, mc_run model (SubhaloModel.galprop_list model)
                   (SubhaloMockFactory.galaxy_table s1) = Ok t1
                 ∧ table_getitem_mask t1 (galaxy_selection_func t1)
                   = Ok (SubhaloMockFactory.galaxy_table s2))
    end.
Proof.
  intros (t0 & Hrun0 & Hsel0)%populate_ok (t1 & Hrun1 & Hsel1)%populate_ok.
  (* the loop of the second call keeps the rows of the table it starts from *)
  assert (nrows t1 = nrows (SubhaloMockFactory.galaxy_table s1)) as Hrows.
  { destruct (SubhaloModel.galprop_list model) as [|k0 ks] eqn:Hlist.
    - by injection Hrun1 as <-.
    - apply (mc_run_rows _ _ _ _ Hrun1).
      assert (columns t0 ≠ ∅) as Hne
        by (by apply (mc_run_nonempty model (k0 :: ks) _ _ ltac:(done) Hrun0)).
      destruct (SubhaloModel.galaxy_selection_func model) as [sel|].
      + destruct Hsel0 as (g' & (_ & _ & Hcols)%table_getitem_mask_ok & ->). cbn.
        rewrite Hcols. by rewrite fmap_empty_iff.
      + by subst s1. }
  pose proof (mc_run_frame _ _ _ _ Hrun1) as Hframe.
  destruct (SubhaloModel.galaxy_selection_func model) as [sel|].
  - destruct Hsel1 as (g2 & Hmask2 & ->).
    destruct (table_getitem_mask_ok _ _ _ Hmask2) as (_ & Hrows2 & Hcols).
    cbn [SubhaloMockFactory.galaxy_table]. split_and!.
    + rewrite <- Hrows. by apply (table_getitem_mask_le _ _ _ Hmask2).
    + intros k c1 Hk Hc1. exists (mask_column (sel t1) c1). split.
      * by rewrite Hcols, lookup_fmap, (Hframe k Hk), Hc1.
      * apply mask_column_sublist.
    + intros k Hk Hnone. by rewrite Hcols, lookup_fmap, (Hframe k Hk), Hnone.
    + destruct Hsel0 as (g1 & Hmask1 & ->). eauto.
    + eauto.
  - subst s2. cbn [SubhaloMockFactory.galaxy_table]. split_and!.
    + lia.
    + intros k c1 Hk Hc1. exists c1. by rewrite (Hframe k Hk).
    + intros k Hk Hnone. by rewrite (Hframe k Hk).
    + done.
Qed.

(** C10 on the example model: the first call leaves rows 0 and 2, the second
    leaves row 0. *)
Lemma populate_again_never_restores_witness :
  nrows (SubhaloMockFactory.galaxy_table
           (SubhaloMockFactory.populate Examples.model_flag
              (SubhaloMockFactory.populate Examples.model_flag
                 (Examples.precomputed Examples.model_flag)).1).1)
  ≤ nrows (SubhaloMockFactory.galaxy_table
             (SubhaloMockFactory.populate Examples.model_flag
                (Examples.precomputed Examples.model_flag)).1).
Proof.
  apply (populate_again_never_restores Examples.model_flag
           (Examples.precomputed Examples.model_flag)); by vm_compute.
Defined.

(** C6 (as stated, refuted).  On the example model, whose Monte Carlo draw
    goes by row position and whose selection keeps the rows drawn one, a
    second [populate] does not reproduce the table of the first: after one
    call the [galid] column is [0, 2], after two it is [0]. *)
Lemma populate_twice_differs :
  SubhaloMockFactory.populate Examples.model_flag (Examples.precomputed Examples.model_flag)
    = (Examples.populated_once, Ok tt)
  ∧ SubhaloMockFactory.populate Examples.model_flag Examples.populated_once
    = (Examples.populated_twice, Ok tt)
  ∧ columns (SubhaloMockFactory.galaxy_table Examples.populated_once) !! "galid"
    = Some [Num 0; Num 2]
  ∧ columns (SubhaloMockFactory.galaxy_table Examples.populated_twice) !! "galid"
    = Some [Num 0]
  ∧ columns (SubhaloMockFactory.galaxy_table Examples.populated_twice) !! "galid"
    ≠ columns (SubhaloMockFactory.galaxy_table Examples.populated_once) !! "galid".
Proof. split_and!; by vm_compute. Qed.

(** C6 (amended).  For a model without a [galaxy_selection_func]: a second
    [populate] that returns leaves the number of rows and every column that
    is not in [galprop_list] as the first call left them; and when every Monte
    Carlo function reads only the number of rows and columns that [populate]
    does not write at or after its own turn, and the table the first call
    started from had a column (after [precompute_galprops] it has [galid]),
    the second call does return, with the very table of the first. *)
Theorem populate_twice_without_selection
    (model : SubhaloModel.t) (s s1 : SubhaloMockFactory.Mock) :
  SubhaloModel.galaxy_selection_func model = None →
  SubhaloMockFactory.populate model s = (s1, Ok tt) →
  (∀ s2, SubhaloMockFactory.populate model s1 = (s2, Ok tt) →
     nrows (SubhaloMockFactory.galaxy_table s2) = nrows (SubhaloMockFactory.galaxy_table s1)
     ∧ ∀ k, k ∉ SubhaloModel.galprop_list model →
         columns (SubhaloMockFactory.galaxy_table s2) !! k
         = columns (SubhaloMockFactory.galaxy_table s1) !! k)
  ∧ (mc_reads_earlier model →
     columns (SubhaloMockFactory.galaxy_table s) ≠ ∅ →
     ∃ s2, SubhaloMockFactory.populate model s1 = (s2, Ok tt)
           ∧ SubhaloMockFactory.galaxy_table s2 = SubhaloMockFactory.galaxy_table s1).
Proof.
  intros Hnone (t0 & Hrun0 & Hsel0)%populate_ok. rewrite Hnone in Hsel0. split.
  - intros s2 (t1 & Hrun1 & Hsel1)%populate_ok. rewrite Hnone in Hsel1.
    subst s1 s2. cbn [SubhaloMockFactory.galaxy_table] in *.
    split; [|by apply (mc_run_frame _ _ _ _ Hrun1)].
    destruct (SubhaloModel.galprop_list model) as [|k0 ks] eqn:Hlist.
    + by injection Hrun1 as <-.
    + apply (mc_run_rows _ _ _ _ Hrun1).
      by apply (mc_run_nonempty model (k0 :: ks) _ _ ltac:(done) Hrun0).
  - intros Hreads Hne. pose proof (mc_run_again _ _ _ Hreads Hne Hrun0) as Hagain.
    subst s1.
    exists (SubhaloMockFactory.mkMock (SubhaloMockFactory.halo_table s) t0
              (SubhaloMockFactory.additional_haloprops s)
              ((SubhaloMockFactory.calls s
                  ++ (SubhaloMockFactory.CallMC <$> SubhaloModel.galprop_list model))
                 ++ (SubhaloMockFactory.CallMC <$> SubhaloModel.galprop_list model))).
    split; [|reflexivity].
    apply populate_ok. exists t0. cbn [SubhaloMockFactory.galaxy_table].
    split; [done|]. rewrite Hnone. reflexivity.
Qed.

(** C6 (amended) on the example model without a selection, whose second
    Monte Carlo function draws one value per row from a fixed stream: the
    second call gives the table of the first, draws included. *)
Lemma populate_twice_without_selection_witness :
  (∃ s2, SubhaloMockFactory.populate Examples.model_draw
           (SubhaloMockFactory.populate Examples.model_draw
              (Examples.precomputed Examples.model_draw)).1 = (s2, Ok tt)
         ∧ SubhaloMockFactory.galaxy_table s2
           = SubhaloMockFactory.galaxy_table
               (SubhaloMockFactory.populate Examples.model_draw
                  (Examples.precomputed Examples.model_draw)).1)
  ∧ columns (SubhaloMockFactory.galaxy_table
               (SubhaloMockFactory.populate Examples.model_draw
                  (Examples.precomputed Examples.model_draw)).1) !! "flag"
    = Some [Num 1; Num 0; Num 1; Num 0].
Proof.
  split; [|by vm_compute].
  apply (populate_twice_without_selection Examples.model_draw
           (Examples.precomputed Examples.model_draw));
    [done | by vm_compute | | by vm_compute].
  intros pre galprop post f Hlist Hf t1 t2 Hrows Hagree.
  destruct pre as [|k0 [|k1 [|k2 pre]]]; try done.
  - injection Hlist as <- <-.
    assert (SubhaloModel.attributes Examples.model_draw !! ("mc_" +:+ "stellar_mass")
            = Some Examples.mc_stellar_mass) as Hattr by (by vm_compute).
    rewrite Hattr in Hf. injection Hf as <-.
    unfold Examples.mc_stellar_mass, Examples.column_of. rewrite Hagree; [done|].
    by apply (bool_decide_unpack _).
  - injection Hlist as <- <- <-.
    assert (SubhaloModel.attributes Examples.model_draw !! ("mc_" +:+ "flag")
            = Some Examples.mc_flag) as Hattr by (by vm_compute).
    rewrite Hattr in Hf. injection Hf as <-.
    unfold Examples.mc_flag. by rewrite Hrows.
Defined.

(** C7 (as stated, refuted).  On the example model that lists ["sfr"]
    without an [mc_sfr], [populate] raises, and the galaxy table it leaves
    behind is not the one it was given: the ["stellar_mass"] column, absent
    before the call, has been written. *)
Lemma populate_failure_mutates_table :
  SubhaloMockFactory.populate Examples.model_missing
    (Examples.precomputed Examples.model_missing)
    = (Examples.failed_populate, Raise (AttributeError "mc_sfr"))
  ∧ columns (SubhaloMockFactory.galaxy_table
               (Examples.precomputed Examples.model_missing)) !! "stellar_mass" = None
  ∧ columns (SubhaloMockFactory.galaxy_table Examples.failed_populate) !! "stellar_mass"
    = Some [Num 12; Num 13; Num 14; Num 15]
  ∧ SubhaloMockFactory.galaxy_table Examples.failed_populate
    ≠ SubhaloMockFactory.galaxy_table (Examples.precomputed Examples.model_missing).
Proof.
  split_and!; by vm_compute.
Qed.

(** C7 (amended).  A [populate] that raises stops at the first failing step
    and undoes nothing.  Either a property of [galprop_list] failed (its
    function is missing, or its column does not fit): then the galaxy table is
    the one left by populating the properties before it.  Or the selection
    failed: then it is the fully populated, unfiltered table.  In both cases
    the halo table, the list of inherited names and every column outside
    [galprop_list] are as before the call.  And [HodModel.__init__] gives a
    model only when each of its stages has returned, the model holding what
    they returned; otherwise it ends with the exception of one of them and
    gives no model. *)
Theorem failure_aborts_without_rollback :
  (∀ (model : SubhaloModel.t) (s s' : SubhaloMockFactory.Mock) (e : exn),
     SubhaloMockFactory.populate model s = (s', Raise e) →
     SubhaloMockFactory.halo_table s' = SubhaloMockFactory.halo_table s
     ∧ SubhaloMockFactory.additional_haloprops s' = SubhaloMockFactory.additional_haloprops s
     ∧ (∀ k, k ∉ SubhaloModel.galprop_list model →
          columns (SubhaloMockFactory.galaxy_table s') !! k
          = columns (SubhaloMockFactory.galaxy_table s) !! k)
     ∧ ((∃ pre k post s1,
           SubhaloModel.galprop_list model = pre ++ k :: post
           ∧ SubhaloMockFactory.populate_galprops model pre s = (s1, Ok tt)
           ∧ SubhaloMockFactory.galaxy_table s' = SubhaloMockFactory.galaxy_table s1
           ∧ mc_step model (SubhaloMockFactory.galaxy_table s1) k = Raise e)
        ∨ (∃ galaxy_selection_func s1,
             SubhaloModel.galaxy_selection_func model = Some galaxy_selection_func
             ∧ SubhaloMockFactory.populate_galprops model (SubhaloModel.galprop_list model) s
               = (s1, Ok tt)
             ∧ SubhaloMockFactory.galaxy_table s' = SubhaloMockFactory.galaxy_table s1
             ∧ table_getitem_mask (SubhaloMockFactory.galaxy_table s1)
                 (galaxy_selection_func (SubhaloMockFactory.galaxy_table s1)) = Raise e)))
  ∧ (∀ hpm bp hkd,
       match HodFactory.__init__ hpm bp hkd with
       | Ok m =>
           HodFactory.occupation_bounds bp = Ok (HodFactory.occupation_bound m)
           ∧ HodFactory._create_haloprop_keys hpm bp = Ok (HodFactory.haloprop_keys m)
           ∧ HodFactory.build_composite_param_dict bp = Ok (HodFactory.param_dict m)
           ∧ HodFactory.get_example_attr_dict bp
             = Ok (HodFactory._example_attr_dict m, HodFactory._gal_type_example_attr_dict m)
           ∧ HodFactory.get_new_haloprop_dict hpm bp = Ok (HodFactory.additional_haloprops m)
       | Raise e =>
           HodFactory.occupation_bounds bp = Raise e
           ∨ HodFactory._create_haloprop_keys hpm bp = Raise e
           ∨ HodFactory.build_composite_param_dict bp = Raise e
           ∨ HodFactory.get_example_attr_dict bp = Raise e
           ∨ HodFactory.get_new_haloprop_dict hpm bp = Raise e
       end).
Proof.
  split.
  - intros model s s' e Hpop. unfold SubhaloMockFactory.populate in Hpop.
    apply bind_raise in Hpop as [Hloop|([] & s1 & Hloop & Hsel)].
    + destruct (populate_galprops_raise _ _ _ _ _ Hloop)
        as (pre & k & post & t1 & Hlist & Hrun & Hstep & Hg & Hh & Ha).
      split_and!; try done.
      * intros k' Hk'. rewrite Hg. apply (mc_run_frame _ _ _ _ Hrun).
        rewrite Hlist in Hk'. set_solver.
      * left. exists pre, k, post.
        exists (SubhaloMockFactory.mkMock (SubhaloMockFactory.halo_table s) t1
                  (SubhaloMockFactory.additional_haloprops s)
                  (SubhaloMockFactory.calls s ++ (SubhaloMockFactory.CallMC <$> pre))).
        split_and!; [done| |done..]. apply populate_galprops_ok. eauto.
    + apply populate_galprops_ok in Hloop as (t1 & Hrun & ->).
      rewrite apply_selection_run in Hsel.
      destruct (SubhaloModel.galaxy_selection_func model) as [sel|] eqn:Hsome; [|done].
      cbn [SubhaloMockFactory.galaxy_table SubhaloMockFactory.halo_table
           SubhaloMockFactory.additional_haloprops SubhaloMockFactory.calls] in Hsel.
      destruct (table_getitem_mask t1 (sel t1)) as [g'|e'] eqn:Hmask; [done|].
      injection Hsel as <- <-.
      cbn [SubhaloMockFactory.galaxy_table SubhaloMockFactory.halo_table
           SubhaloMockFactory.additional_haloprops]. split_and!; try done.
      * by apply (mc_run_frame _ _ _ _ Hrun).
      * right. exists sel.
        exists (SubhaloMockFactory.mkMock (SubhaloMockFactory.halo_table s) t1
                  (SubhaloMockFactory.additional_haloprops s)
                  (SubhaloMockFactory.calls s
                     ++ (SubhaloMockFactory.CallMC <$> SubhaloModel.galprop_list model))).
        split_and!; [done| |done..]. apply populate_galprops_ok. eauto.
  - intros hpm bp hkd. unfold HodFactory.__init__.
    destruct (HodFactory.occupation_bounds bp); cbn [mbind result_bind]; [|tauto].
    destruct (HodFactory._create_haloprop_keys hpm bp); cbn [mbind result_bind]; [|tauto].
    destruct (HodFactory.build_composite_param_dict bp); cbn [mbind result_bind]; [|tauto].
    destruct (HodFactory.get_example_attr_dict bp) as [[? ?]|]; cbn [mbind result_bind];
      [|tauto].
    destruct (HodFactory.get_new_haloprop_dict hpm bp); cbn [mbind result_bind]; [|tauto].
    done.
Qed.

(** C7 (amended) on the example model: the failed call stopped at ["sfr"],
    after ["stellar_mass"] alone had been populated. *)
Lemma failure_aborts_without_rollback_witness :
  SubhaloMockFactory.halo_table Examples.failed_populate = Examples.halos
  ∧ ∀ k, k ∉ ["stellar_mass"; "sfr"] →
      columns (SubhaloMockFactory.galaxy_table Examples.failed_populate) !! k
      = columns (SubhaloMockFactory.galaxy_table
                   (Examples.precomputed Examples.model_missing)) !! k.
Proof.
  destruct failure_aborts_without_rollback as [Hpopulate _].
  destruct (Hpopulate Examples.model_missing (Examples.precomputed Examples.model_missing)
              Examples.failed_populate (AttributeError "mc_sfr"))
    as (Hhalo & _ & Hframe & _); [by vm_compute|].
  split; [|exact Hframe]. rewrite Hhalo. by vm_compute.
Defined.

(** ** [precompute_galprops] *)

Section precompute.
Import SubhaloMockFactory.
Context (model : SubhaloModel.t).
Implicit Types (s : Mock) (ks : list string).

(** The galaxy table is empty, or has the rows of the halo table. *)
Let rows_match s : Prop :=
  table_wf (galaxy_table s)
  ∧ (columns (galaxy_table s) = ∅ ∨ nrows (galaxy_table s) = nrows (halo_table s)).

(** The bodies of the three loops of [precompute_galprops]. *)
Let inherit_body (key : string) : M unit :=
  h ← gets halo_table;
  c ← lift (table_getitem h key);
  galaxy_table_setitem key c.
Let phase_body (newkey : string) : M unit :=
  g ← gets galaxy_table;
  c ← lift (table_getitem g (host_haloprop_prefix +:+ newkey));
  galaxy_table_setitem newkey c.
Let gal_type_body (galprop : string) : M unit :=
  component_model ← lift (HodFactory.dict_getitem (SubhaloModel.model_blueprint model) galprop);
  match SubhaloModel.gal_type_func component_model with
  | Some gal_type_func =>
      let newkey := galprop +:+ "_gal_type" in
      g ← gets galaxy_table;
      record (CallGalTypeFunc galprop);;
      galaxy_table_setitem newkey (gal_type_func g)
  | None => mret tt
  end.

Lemma precompute_galprops_unfold :
  precompute_galprops model =
  (additional ← gets additional_haloprops;
   for_ additional inherit_body;;
   for_ phase_space_keys phase_body;;
   g ← gets galaxy_table;
   galaxy_table_setitem "galid" (arange (nrows g));;
   for_ (SubhaloModel.galprop_list model) gal_type_body).
Proof. reflexivity. Qed.

(** A turn of a loop that returns has set one column of the galaxy table
    and touched neither the halo table nor the inherited names. *)
Let sets_column (key : string) (c : column) s s1 : Prop :=
  ∃ g', table_setitem (galaxy_table s) key c = Ok g' ∧ galaxy_table s1 = g'
        ∧ halo_table s1 = halo_table s
        ∧ additional_haloprops s1 = additional_haloprops s.

Lemma inherit_body_ok key s s1 :
  inherit_body key s = (s1, Ok tt) →
  ∃ c, columns (halo_table s) !! key = Some c ∧ sets_column key c s s1.
Proof.
  cbv [inherit_body mbind M_bind lift gets galaxy_table_setitem set_galaxy_table
       table_getitem].
  destruct (columns (halo_table s) !! key) as [c|]; [|done].
  destruct (table_setitem (galaxy_table s) key c) as [g'|] eqn:Hset; [|done].
  intros [= <-]. exists c. split; [done|]. by exists g'.
Qed.

Lemma phase_body_ok newkey s s1 :
  phase_body newkey s = (s1, Ok tt) →
  ∃ c, columns (galaxy_table s) !! (host_haloprop_prefix +:+ newkey) = Some c
       ∧ sets_column newkey c s s1.
Proof.
  cbv [phase_body mbind M_bind lift gets galaxy_table_setitem set_galaxy_table
       table_getitem].
  destruct (columns (galaxy_table s) !! (host_haloprop_prefix +:+ newkey)) as [c|]; [|done].
  destruct (table_setitem (galaxy_table s) newkey c) as [g'|] eqn:Hset; [|done].
  intros [= <-]. exists c. split; [done|]. by exists g'.
Qed.

Lemma gal_type_body_ok galprop s s1 :
  gal_type_body galprop s = (s1, Ok tt) →
  (galaxy_table s1 = galaxy_table s ∧ halo_table s1 = halo_table s
   ∧ additional_haloprops s1 = additional_haloprops s)
  ∨ ∃ c, sets_column (galprop +:+ "_gal_type") c s s1.
Proof.
  cbv [gal_type_body mbind M_bind lift HodFactory.dict_getitem].
  destruct (SubhaloModel.model_blueprint model !! galprop) as [component_model|]; [|done].
  destruct (SubhaloModel.gal_type_func component_model) as [f|].
  - cbv [mbind M_bind lift gets record galaxy_table_setitem set_galaxy_table].
    cbn [galaxy_table halo_table additional_haloprops calls].
    destruct (table_setitem (galaxy_table s) (galprop +:+ "_gal_type") (f (galaxy_table s)))
      as [g'|] eqn:Hset; [|done].
    intros [= <-]. right. exists (f (galaxy_table s)). by exists g'.
  - intros [= <-]. by left.
Qed.

Lemma sets_column_lookup key c s s1 :
  sets_column key c s s1 →
  columns (galaxy_table s1) !! key = Some c
  ∧ (∀ k, k ≠ key → columns (galaxy_table s1) !! k = columns (galaxy_table s) !! k)
  ∧ columns (galaxy_table s1) ≠ ∅
  ∧ length c = nrows (galaxy_table s1)
  ∧ (table_wf (galaxy_table s) → table_wf (galaxy_table s1))
  ∧ (columns (galaxy_table s) ≠ ∅ → nrows (galaxy_table s1) = nrows (galaxy_table s)).
Proof.
  intros (g' & Hset & -> & _ & _).
  destruct (table_setitem_lookup _ _ _ _ Hset) as [Hkey Hother].
  destruct (table_setitem_ok _ _ _ _ Hset) as (_ & Hlen & Hrows).
  split_and!; try done.
  - by eapply table_setitem_nonempty.
  - intros Hwf. by eapply table_setitem_wf.
Qed.

(** The first loop: the inherited columns are those of the halo table. *)
Lemma inherit_loop ks s s1 :
  for_ ks inherit_body s = (s1, Ok tt) →
  halo_table s1 = halo_table s
  ∧ additional_haloprops s1 = additional_haloprops s
  ∧ (∀ k, k ∈ ks → ∃ c, columns (halo_table s) !! k = Some c
                        ∧ columns (galaxy_table s1) !! k = Some c)
  ∧ (∀ k, k ∉ ks → columns (galaxy_table s1) !! k = columns (galaxy_table s) !! k)
  ∧ (table_wf (halo_table s) → rows_match s → rows_match s1).
Proof.
  revert s. induction ks as [|k0 ks IH]; intros s.
  - intros [= <-]. split_and!; try done. by intros k ?%elem_of_nil.
  - cbn [for_]. intros ([] & s0 & Hbody & Hrest)%bind_ok.
    apply inherit_body_ok in Hbody as (c0 & Hc0 & Hset).
    pose proof Hset as (_ & _ & _ & Hh0 & Ha0).
    destruct (sets_column_lookup _ _ _ _ Hset) as (Hkey & Hother & Hne & Hlen & Hwf & _).
    destruct (IH _ Hrest) as (Hh & Ha & Hin & Hout & Hrows).
    rewrite Hh0 in Hh, Hin, Hrows. rewrite Ha0 in Ha. split_and!; try done.
    + intros k Hk. destruct (decide (k ∈ ks)) as [Hks|Hks]; [by apply Hin|].
      apply elem_of_cons in Hk as [->|Hk]; [|done].
      exists c0. split; [done|]. by rewrite (Hout _ Hks).
    + intros k [Hk0 Hk]%not_elem_of_cons. rewrite (Hout _ Hk). by apply Hother.
    + intros Hhalo [Hgwf Hg]. apply Hrows; [done|]. split; [by apply Hwf|].
      right. rewrite Hh0, <- Hlen. by apply Hhalo in Hc0.
Qed.

(** The second loop, over keys none of which is a prefixed key: each key
    gets the column found under its prefixed name. *)
Lemma phase_loop ks s s1 :
  (∀ k k', k ∈ ks → k' ∈ ks → k ≠ host_haloprop_prefix +:+ k') →
  for_ ks phase_body s = (s1, Ok tt) →
  halo_table s1 = halo_table s
  ∧ (∀ k, k ∈ ks → ∃ c, columns (galaxy_table s) !! (host_haloprop_prefix +:+ k) = Some c
                        ∧ columns (galaxy_table s1) !! k = Some c)
  ∧ (∀ k, k ∉ ks → columns (galaxy_table s1) !! k = columns (galaxy_table s) !! k)
  ∧ (table_wf (galaxy_table s) → table_wf (galaxy_table s1))
  ∧ (columns (galaxy_table s) ≠ ∅ → nrows (galaxy_table s1) = nrows (galaxy_table s)).
Proof.
  revert s. induction ks as [|k0 ks IH]; intros s Hkeys.
  - intros [= <-]. split_and!; try done. by intros k ?%elem_of_nil.
  - cbn [for_]. intros ([] & s0 & Hbody & Hrest)%bind_ok.
    apply phase_body_ok in Hbody as (c0 & Hc0 & Hset).
    pose proof Hset as (_ & _ & _ & Hh0 & _).
    destruct (sets_column_lookup _ _ _ _ Hset) as (Hkey & Hother & Hne & _ & Hwf & Hrows0).
    destruct (IH s0) as (Hh & Hin & Hout & Hwf1 & Hrows1); [|done|].
    { intros k k' Hk Hk'. apply Hkeys; by right. }
    split_and!.
    + by rewrite Hh.
    + intros k Hk. destruct (decide (k ∈ ks)) as [Hks|Hks].
      * destruct (Hin _ Hks) as (c & Hc & Hc1). exists c. split; [|done].
        rewrite <- Hc. symmetry. apply Hother.
        intros Heq. by apply (Hkeys k0 k); [left | right |].
      * apply elem_of_cons in Hk as [->|Hk]; [|done].
        exists c0. split; [done|]. by rewrite (Hout _ Hks).
    + intros k [Hk0 Hk]%not_elem_of_cons. rewrite (Hout _ Hk). by apply Hother.
    + intros Hgwf. by apply Hwf1, Hwf.
    + intros Hcols. rewrite (Hrows1 Hne). by apply Hrows0.
Qed.

(** The third loop writes only columns named [<galprop>_gal_type]. *)
Lemma gal_type_loop ks s s1 :
  for_ ks gal_type_body s = (s1, Ok tt) →
  halo_table s1 = halo_table s
  ∧ (∀ k, (∀ galprop, k ≠ galprop +:+ "_gal_type") →
          columns (galaxy_table s1) !! k = columns (galaxy_table s) !! k)
  ∧ (table_wf (galaxy_table s) → table_wf (galaxy_table s1))
  ∧ (columns (galaxy_table s) ≠ ∅ → nrows (galaxy_table s1) = nrows (galaxy_table s)).
Proof.
  revert s. induction ks as [|k0 ks IH]; intros s.
  - by intros [= <-].
  - cbn [for_]. intros ([] & s0 & Hbody & Hrest)%bind_ok.
    destruct (IH _ Hrest) as (Hh & Hout & Hwf1 & Hrows1).
    apply gal_type_body_ok in Hbody as [(Hg0 & Hh0 & _)|(c0 & Hset)].
    + rewrite Hg0 in *. rewrite Hh0 in Hh. done.
    + pose proof Hset as (_ & _ & _ & Hh0 & _).
      destruct (sets_column_lookup _ _ _ _ Hset) as (_ & Hother & Hne & _ & Hwf & Hrows0).
      split_and!.
      * by rewrite Hh.
      * intros k Hk. rewrite (Hout _ Hk). by apply Hother.
      * intros Hgwf. by apply Hwf1, Hwf.
      * intros Hcols. rewrite (Hrows1 Hne). by apply Hrows0.
Qed.

Lemma string_length_app (a b : string) :
  String.length (a +:+ b) = String.length a + String.length b.
Proof. induction a as [|x a IH]; simpl; [done | by rewrite IH]. Qed.

(** A name shorter than the suffix is not a gal_type column. *)
Lemma short_not_gal_type (k : string) :
  String.length k < 9 → ∀ galprop, k ≠ galprop +:+ "_gal_type".
Proof. intros Hlen galprop ->. rewrite string_length_app in Hlen. simpl in Hlen. lia. Qed.

Lemma phase_space_keys_short k :
  k ∈ phase_space_keys →
  String.length k < 9 ∧ String.length (host_haloprop_prefix +:+ k) < 9
  ∧ k ≠ "galid" ∧ host_haloprop_prefix +:+ k ≠ "galid"
  ∧ host_haloprop_prefix +:+ k ∉ phase_space_keys.
Proof.
  revert k. apply Forall_forall. apply (bool_decide_unpack _). by vm_compute.
Qed.

Lemma phase_space_keys_unprefixed k k' :
  k ∈ phase_space_keys → k' ∈ phase_space_keys → k ≠ host_haloprop_prefix +:+ k'.
Proof.
  intros Hk Hk' ->. by apply (phase_space_keys_short k') in Hk.
Qed.

(** C4.  When [precompute_galprops] returns on a mock whose galaxy table is
    the empty [Table()] and whose halo table is well formed, the galaxy table
    has the halo table's number of rows in every column; each of [x, y, z, vx,
    vy, vz] is the very column found under its [halo_]-prefixed name, which is
    the halo table's column of that name; and [galid] is [0, 1, ..., N-1]. *)
Theorem precompute_galprops_rows_phase_space_galid s s' :
  table_wf (halo_table s) →
  galaxy_table s = Table_new →
  precompute_galprops model s = (s', Ok tt) →
  nrows (galaxy_table s') = nrows (halo_table s)
  ∧ table_wf (galaxy_table s')
  ∧ halo_table s' = halo_table s
  ∧ (∀ k, k ∈ phase_space_keys →
       ∃ c, columns (galaxy_table s') !! k = Some c
            ∧ columns (galaxy_table s') !! (host_haloprop_prefix +:+ k) = Some c
            ∧ columns (halo_table s) !! (host_haloprop_prefix +:+ k) = Some c)
  ∧ columns (galaxy_table s') !! "galid" = Some (arange (nrows (halo_table s))).
Proof.
  intros Hhalo Hnew. rewrite precompute_galprops_unfold.
  intros (additional & s0 & [= <- <-] & Hrun)%bind_ok.
  apply bind_ok in Hrun as ([] & sA & HloopA & Hrun).
  apply bind_ok in Hrun as ([] & sB & HloopB & Hrun).
  apply bind_ok in Hrun as (g & sB' & [= <- <-] & Hrun).
  apply bind_ok in Hrun as ([] & sC & Hgalid & HloopC).
  destruct (inherit_loop _ _ _ HloopA) as (HhA & _ & HinA & HoutA & HrowsA).
  destruct (phase_loop _ _ _ phase_space_keys_unprefixed HloopB)
    as (HhB & HinB & HoutB & HwfB & HrowsB).
  apply galaxy_table_setitem_ok in Hgalid as (gC & HsetC & ->).
  destruct (table_setitem_lookup _ _ _ _ HsetC) as [HgalidC HotherC].
  destruct (table_setitem_ok _ _ _ _ HsetC) as (_ & _ & HrowsC).
  pose proof (table_setitem_nonempty _ _ _ _ HsetC) as HneC.
  destruct (gal_type_loop _ _ _ HloopC) as (HhC & HoutC & HwfC & HrowsC').
  cbn [galaxy_table halo_table] in *.
  (* after the first loop the galaxy table is empty or has the halo rows *)
  destruct HrowsA as [HwfA HgA]; [done| |].
  { unfold rows_match. rewrite Hnew. split; [|by left].
    split; [done|]. intros k c Hk. cbn in Hk. by rewrite lookup_empty in Hk. }
  (* the second loop found the prefixed x column, so there are columns *)
  assert (columns (galaxy_table sA) ≠ ∅) as HneA.
  { destruct (HinB "x") as (c & Hc & _); [by left|].
    intros Hempty. by rewrite Hempty in Hc. }
  destruct HgA as [?|HgA]; [done|].
  assert (columns (galaxy_table sB) ≠ ∅) as HneB.
  { destruct (HinB "x") as (c & _ & Hc); [by left|].
    intros Hempty. by rewrite Hempty in Hc. }
  assert (nrows (galaxy_table s') = nrows (halo_table s)) as Hrows.
  { rewrite (HrowsC' HneC), (HrowsC HneB), (HrowsB HneA), HgA. by rewrite HhA. }
  split_and!.
  - done.
  - apply HwfC. eapply table_setitem_wf; [|done]. by apply HwfB.
  - by rewrite HhC, HhB, HhA.
  - intros k Hk.
    destruct (phase_space_keys_short k Hk) as (Hshort & Hshort' & Hgalid & Hgalid' & Hnot).
    destruct (HinB k Hk) as (c & HcA & HcB). exists c.
    rewrite !HoutC by (by apply short_not_gal_type).
    rewrite !HotherC by done. rewrite (HoutB _ Hnot). split_and!; [done..|].
    destruct (decide (host_haloprop_prefix +:+ k ∈ additional_haloprops s)) as [Hin|Hout].
    + destruct (HinA _ Hin) as (c' & Hc' & Hc''). congruence.
    + rewrite (HoutA _ Hout), Hnew in HcA. cbn in HcA. by rewrite lookup_empty in HcA.
  - rewrite HoutC by (apply short_not_gal_type; cbn; lia).
    rewrite HgalidC. by rewrite (HrowsB HneA), HgA, HhA.
Qed.
End precompute.

(** C4 on the example catalogue of four halos. *)
Lemma precompute_galprops_rows_phase_space_galid_witness :
  nrows (SubhaloMockFactory.galaxy_table
           (Examples.precomputed Examples.model_stellar_mass)) = 4
  ∧ columns (SubhaloMockFactory.galaxy_table
               (Examples.precomputed Examples.model_stellar_mass)) !! "galid"
    = Some [Num 0; Num 1; Num 2; Num 3].
Proof.
  destruct (precompute_galprops_rows_phase_space_galid Examples.model_stellar_mass
              Examples.fresh_mock (Examples.precomputed Examples.model_stellar_mass))
    as (Hrows & _ & _ & _ & Hgalid).
  - split; [by vm_compute|].
    change (map_Forall (λ _ (c : column), length c = 4) (columns Examples.halos)).
    apply (bool_decide_unpack _). by vm_compute.
  - reflexivity.
  - by vm_compute.
  - split; [exact Hrows | exact Hgalid].
Defined.

(** * Further properties of hod_factory.py *)

(** ** Association lists *)

Section assoc_lists.
Context {V : Type}.
Implicit Types (d : list (string * V)).

Lemma assoc_Some_elem_of d key v : assoc d key = Some v → (key, v) ∈ d.
Proof.
  induction d as [|[k v0] d IH]; [done|]. simpl. case_decide as Hk.
  - intros [= <-]. subst k. left.
  - intros Hd. right. by apply IH.
Qed.

Lemma assoc_None d key : assoc d key = None ↔ key ∉ keys d.
Proof.
  unfold keys. induction d as [|[k v0] d IH]; simpl.
  - split; [intros _; apply not_elem_of_nil | done].
  - rewrite not_elem_of_cons. case_decide as Hk; [|rewrite IH]; naive_solver.
Qed.

Lemma assoc_elem_of d key v : NoDup (keys d) → (key, v) ∈ d → assoc d key = Some v.
Proof.
  unfold keys. induction d as [|[k v0] d IH]; [by intros _ ?%elem_of_nil|].
  rewrite fmap_cons, NoDup_cons. simpl. intros [Hk Hnodup] Hin.
  apply elem_of_cons in Hin as [[= -> ->]|Hin].
  - by rewrite decide_True.
  - rewrite decide_False; [by apply IH|].
    intros ->. apply Hk. apply list_elem_of_fmap. by exists (key, v).
Qed.
End assoc_lists.

(** ** Publications *)

Lemma foldl_app_join {A B : Type} (f : B → list A) (xs : list B) (acc : list A) :
  foldl (λ acc x, acc ++ f x) acc xs = acc ++ mjoin (f <$> xs).
Proof.
  revert acc. induction xs as [|x xs IH]; intros acc; simpl.
  - by rewrite app_nil_r.
  - by rewrite IH, app_assoc.
Qed.

(** X1.  [build_publication_list] returns the publications of every
    component of the blueprint, concatenated in the order the double loop
    meets the components; an entry that two components share appears
    twice. *)
Theorem build_publication_list_concat (bp : Blueprint) :
  HodFactory.build_publication_list bp = mjoin (Component.publications <$> components bp).
Proof.
  unfold HodFactory.build_publication_list, components.
  rewrite <- (app_nil_l (mjoin _)). generalize (@nil string).
  induction (values bp) as [|gal_type_dict rest IH]; intros acc; simpl.
  - by rewrite app_nil_r.
  - rewrite IH, foldl_app_join, fmap_app, join_app, app_assoc. done.
Qed.

(** ** Occupation bounds *)

Section occupation.
Import HodFactory.
Implicit Types (bp : Blueprint).

(** The body of the first loop of [__init__]. *)
Let body (occupation_bound : gmap string number)
    (item : string * list (string * Component.t)) : result (gmap string number) :=
  let '(gal_type, features) := item in
  match assoc features "occupation_model" with
  | None => Raise (KeyError "occupation_model")
  | Some occupation_model =>
      match Component.occupation_bound occupation_model with
      | None => Raise (AttributeError "occupation_bound")
      | Some bound => Ok (<[ gal_type := bound ]> occupation_bound)
      end
  end.

Lemma occupation_bounds_loop bp : occupation_bounds bp = for_each body bp ∅.
Proof. reflexivity. Qed.

Lemma occupation_body_ok acc gal_type features acc' :
  body acc (gal_type, features) = Ok acc' →
  ∃ c b, assoc features "occupation_model" = Some c
         ∧ Component.occupation_bound c = Some b ∧ acc' = <[ gal_type := b ]> acc.
Proof.
  unfold body. destruct (assoc features "occupation_model") as [c|]; [|done].
  destruct (Component.occupation_bound c) as [b|] eqn:Hb; [|done]. intros [= <-].
  by exists c, b.
Qed.

Lemma occupation_body_raise acc item e :
  body acc item = Raise e →
  lacks_occupation_bound item
  ∧ (e = KeyError "occupation_model" ∨ e = AttributeError "occupation_bound").
Proof.
  destruct item as [gal_type features]. unfold body, lacks_occupation_bound. simpl.
  destruct (assoc features "occupation_model") as [c|]; [|intros [= <-]; eauto].
  destruct (Component.occupation_bound c) as [b|]; [done|]. intros [= <-]. eauto.
Qed.

(** What the loop has collected when it returns. *)
Lemma occupation_bounds_ok bp m :
  occupation_bounds bp = Ok m →
  dom m = list_to_set (keys bp)
  ∧ (NoDup (keys bp) → ∀ gal_type features, (gal_type, features) ∈ bp →
       ∃ c b, assoc features "occupation_model" = Some c
              ∧ Component.occupation_bound c = Some b ∧ m !! gal_type = Some b).
Proof.
  rewrite occupation_bounds_loop. revert m.
  induction bp as [|[gal_type0 features0] bp IH] using rev_ind; intros m.
  - intros [= <-]. split; [by rewrite dom_empty_L|]. by intros _ ? ? ?%elem_of_nil.
  - rewrite for_each_snoc. destruct (for_each body bp ∅) as [m0|]; [|done].
    cbn [mbind result_bind]. intros (c0 & b0 & Hc0 & Hb0 & ->)%occupation_body_ok.
    destruct (IH m0 eq_refl) as [Hdom Hall]. unfold keys in *. split.
    + rewrite dom_insert_L, Hdom, fmap_app, list_to_set_app_L. simpl. set_solver.
    + rewrite fmap_app. intros [Hnodup [Hnot _]]%NoDup_app gal_type features Hin.
      apply elem_of_app in Hin as [Hin|Hin].
      * destruct (Hall Hnodup _ _ Hin) as (c & b & Hc & Hb & Hm).
        exists c, b. split_and!; [done..|]. rewrite lookup_insert_ne; [done|].
        intros <-. apply (Hnot gal_type0); [|left].
        apply list_elem_of_fmap. by exists (gal_type0, features).
      * apply list_elem_of_singleton in Hin as [= -> ->].
        exists c0, b0. by rewrite lookup_insert_eq.
Qed.

(** The loop raises as soon as a gal_type lacks its occupation bound. *)
Lemma occupation_bounds_raise bp :
  Exists lacks_occupation_bound bp →
  ∃ e, occupation_bounds bp = Raise e
       ∧ (e = KeyError "occupation_model" ∨ e = AttributeError "occupation_bound").
Proof.
  rewrite occupation_bounds_loop. generalize (∅ : gmap string number).
  induction bp as [|item bp IH]; intros acc Hex; [by apply Exists_nil in Hex|].
  cbn [for_each]. destruct (body acc item) as [acc'|e] eqn:Hbody.
  - cbn [mbind result_bind]. apply IH.
    apply Exists_cons in Hex as [Hlacks|Hex]; [|done].
    destruct item as [gal_type features].
    apply occupation_body_ok in Hbody as (c & b & Hc & Hb & _).
    unfold lacks_occupation_bound in Hlacks. simpl in Hlacks.
    rewrite Hc in Hlacks. congruence.
  - exists e. split; [done|]. by apply occupation_body_raise in Hbody as [_ He].
Qed.
End occupation.

(** X2.  A model that [HodModel.__init__] returns keeps the objects it was
    built from, lists the blueprint's galaxy types, and (the blueprint's keys
    being distinct) holds for every gal_type the [occupation_bound] of that
    gal_type's ['occupation_model'] feature. *)
Theorem init_occupation_bound_of_every_gal_type
    (hpm : HaloProfModel.t) (bp : Blueprint) (hkd : gmap string string)
    (model : HodFactory.HodModel) :
  NoDup (keys bp) →
  HodFactory.__init__ hpm bp hkd = Ok model →
  HodFactory.halo_prof_model model = hpm
  ∧ HodFactory.model_blueprint model = bp
  ∧ HodFactory.haloprop_key_dict model = hkd
  ∧ HodFactory.gal_types model = keys bp
  ∧ dom (HodFactory.occupation_bound model) = list_to_set (keys bp)
  ∧ ∀ gal_type features, (gal_type, features) ∈ bp →
      ∃ c b, assoc features "occupation_model" = Some c
             ∧ Component.occupation_bound c = Some b
             ∧ HodFactory.occupation_bound model !! gal_type = Some b.
Proof.
  intros Hnodup. unfold HodFactory.__init__.
  destruct (HodFactory.occupation_bounds bp) as [ob|] eqn:Hob; [|done].
  cbn [mbind result_bind].
  destruct (HodFactory._create_haloprop_keys hpm bp); [|done]. cbn [mbind result_bind].
  destruct (HodFactory.build_composite_param_dict bp); [|done]. cbn [mbind result_bind].
  destruct (HodFactory.get_example_attr_dict bp); [|done]. cbn [mbind result_bind].
  destruct (HodFactory.get_new_haloprop_dict hpm bp); [|done]. cbn [mbind result_bind].
  intros [= <-]. cbn. destruct (occupation_bounds_ok _ _ Hob) as [Hdom Hall].
  split_and!; try done. by apply Hall.
Qed.

(** X3.  When some gal_type of the blueprint has no ['occupation_model']
    feature, or one without an [occupation_bound], construction fails, with
    the [KeyError] for ['occupation_model'] or the [AttributeError] for
    [occupation_bound], before any other stage of [__init__] is run. *)
Theorem init_missing_occupation_model_raises
    (hpm : HaloProfModel.t) (bp : Blueprint) (hkd : gmap string string) :
  Exists lacks_occupation_bound bp →
  ∃ e, HodFactory.__init__ hpm bp hkd = Raise e
       ∧ HodFactory.occupation_bounds bp = Raise e
       ∧ (e = KeyError "occupation_model" ∨ e = AttributeError "occupation_bound").
Proof.
  intros (e & Hraise & He)%occupation_bounds_raise. exists e.
  unfold HodFactory.__init__. by rewrite Hraise.
Qed.

(** ** Example attribute shapes *)

Section example_attr.
Import HodFactory.
Implicit Types (bp : Blueprint) (features : list (string * Component.t))
  (ds : list (gmap string (list nat))) (nd comp temp : gmap string (list nat))
  (per : gmap string (gmap string (list nat))).

(** The check of the shapes under the names a component shares with the
    composite dictionary, the loop over the features of one gal_type, and the
    loop over the galaxy types, as [get_example_attr_dict] nests them. *)
Let check_list (behavior_key gal_type : string) nd comp (l : list string) : result unit :=
  for_each (λ (_ : unit) (duplicate_key : string),
      let shape1 := nd !! duplicate_key in
      let shape2 := comp !! duplicate_key in
      if decide (shape1 ≠ shape2) then
        Raise (TypeError ("For component model feature " +:+ behavior_key
          +:+ " of gal_type " +:+ gal_type +:+ ", found problem with key "
          +:+ duplicate_key +:+ "  while building composite _example_attr_dict"))
      else Ok tt)
    l tt.

Let inner (gal_type : string)
    (acc : gmap string (list nat) * gmap string (list nat))
    (item : string * Component.t) :=
  let '(composite_dict, temp_component_dict) := acc in
  let '(behavior_key, behavior_model) := item in
  match Component._example_attr_dict behavior_model with
  | Some new_dict =>
      check_list behavior_key gal_type new_dict composite_dict
        (elements (dom new_dict ∩ dom composite_dict));;
      Ok (dict (items composite_dict ++ items new_dict),
          dict (items temp_component_dict ++ items new_dict))
  | None => Ok (composite_dict, temp_component_dict)
  end.

Let outer (acc : gmap string (list nat) * gmap string (gmap string (list nat)))
    (item : string * list (string * Component.t)) :=
  let '(composite_dict, component_dict) := acc in
  let '(gal_type, features) := item in
  r ← for_each (inner gal_type) features (composite_dict, ∅);
  Ok (r.1, <[ gal_type := r.2 ]> component_dict).

Lemma get_example_attr_dict_loop bp :
  get_example_attr_dict bp = for_each outer bp (∅, ∅).
Proof. reflexivity. Qed.

Lemma check_list_cases behavior_key gal_type nd comp l :
  (check_list behavior_key gal_type nd comp l = Ok tt
   ∧ Forall (λ k, nd !! k = comp !! k) l)
  ∨ ((∃ msg, check_list behavior_key gal_type nd comp l = Raise (TypeError msg))
     ∧ Exists (λ k, nd !! k ≠ comp !! k) l).
Proof.
  unfold check_list. induction l as [|k l IH].
  - left. by split.
  - cbn [for_each]. cbv zeta. destruct (decide (nd !! k ≠ comp !! k)) as [Hne|Heq].
    + right. split; [eauto|]. by apply Exists_cons_hd.
    + apply dec_stable in Heq. cbn [mbind result_bind].
      destruct IH as [[Hok Hall]|[Hraise Hex]].
      * left. split; [done|]. by apply Forall_cons.
      * right. split; [done|]. by apply Exists_cons_tl.
Qed.

(** The check returns exactly when the shapes agree, and otherwise raises a
    [TypeError]. *)
Lemma check_cases behavior_key gal_type nd comp :
  (check_list behavior_key gal_type nd comp (elements (dom nd ∩ dom comp)) = Ok tt
   ∧ shapes_agree nd comp)
  ∨ ((∃ msg, check_list behavior_key gal_type nd comp (elements (dom nd ∩ dom comp))
             = Raise (TypeError msg))
     ∧ ¬ shapes_agree nd comp).
Proof.
  destruct (check_list_cases behavior_key gal_type nd comp (elements (dom nd ∩ dom comp)))
    as [[Hok Hall]|[Hraise Hex]].
  - left. split; [done|]. intros k s1 s2 H1 H2.
    rewrite Forall_forall in Hall. specialize (Hall k).
    rewrite H1, H2 in Hall. injection Hall as ->; [done|].
    apply elem_of_elements, elem_of_intersection. split; apply elem_of_dom; by eexists.
  - right. split; [done|]. intros Hagree.
    apply Exists_exists in Hex as (k & Hk & Hne). apply Hne.
    apply elem_of_elements, elem_of_intersection in Hk as [[s1 H1]%elem_of_dom [s2 H2]%elem_of_dom].
    rewrite H1, H2. f_equal. by eapply Hagree.
Qed.

Lemma union_agree_subseteq nd comp : shapes_agree nd comp → comp ⊆ nd ∪ comp.
Proof.
  intros Hagree. apply map_subseteq_spec. intros k v Hk.
  apply lookup_union_Some_raw. destruct (nd !! k) as [w|] eqn:Hnd; [|by right].
  left. f_equal. by eapply Hagree.
Qed.

(** The composite dictionary holds the shapes of the dictionaries [ds] met
    so far, and nothing else. *)
Let holds comp ds : Prop :=
  (∀ nd, nd ∈ ds → nd ⊆ comp)
  ∧ (∀ k v, comp !! k = Some v → ∃ nd, nd ∈ ds ∧ nd !! k = Some v).

Let disagreement ds : Prop :=
  ∃ nd1 nd2, nd1 ∈ ds ∧ nd2 ∈ ds ∧ ¬ shapes_agree nd1 nd2.

Lemma holds_extend comp ds nd :
  holds comp ds → shapes_agree nd comp → holds (nd ∪ comp) (ds ++ [nd]).
Proof.
  intros [Hsub Hfrom] Hagree. split.
  - intros nd' [Hin|Hin%list_elem_of_singleton]%elem_of_app; [|subst nd'].
    + etrans; [by apply Hsub|]. by apply union_agree_subseteq.
    + apply map_union_subseteq_l.
  - intros k v [Hk|[_ Hk]]%lookup_union_Some_raw.
    + exists nd. split; [|done]. apply elem_of_app. right. left.
    + destruct (Hfrom _ _ Hk) as (nd' & Hin & Hk'). exists nd'. split; [|done].
      apply elem_of_app. by left.
Qed.

Lemma holds_disagree comp ds nd :
  holds comp ds → ¬ shapes_agree nd comp → disagreement (ds ++ [nd]).
Proof.
  intros [Hsub Hfrom] Hnot.
  (* a name on which [nd] and the composite differ *)
  destruct (decide (Exists (λ k, nd !! k ≠ comp !! k) (elements (dom nd ∩ dom comp))))
    as [Hex|Hnex].
  - apply Exists_exists in Hex as (k & Hk & Hne).
    apply elem_of_elements, elem_of_intersection in Hk
      as [[s1 H1]%elem_of_dom [s2 H2]%elem_of_dom].
    destruct (Hfrom _ _ H2) as (nd' & Hin & Hk').
    exists nd, nd'. split_and!.
    + apply elem_of_app. right. left.
    + apply elem_of_app. by left.
    + intros Hagree. apply Hne. rewrite H1, H2. f_equal. by eapply Hagree.
  - exfalso. apply Hnot. intros k s1 s2 H1 H2.
    apply not_Exists_Forall in Hnex; [|intros ?; apply _].
    rewrite Forall_forall in Hnex. specialize (Hnex k). simpl in Hnex.
    assert (nd !! k = comp !! k) as Heq.
    { apply dec_stable, Hnex. apply elem_of_elements, elem_of_intersection.
      split; apply elem_of_dom; by eexists. }
    rewrite H1, H2 in Heq. by injection Heq.
Qed.

Lemma disagreement_mono ds ds' : disagreement ds → disagreement (ds ++ ds').
Proof.
  intros (nd1 & nd2 & H1 & H2 & Hnot). exists nd1, nd2.
  split_and!; [apply elem_of_app; by left..|done].
Qed.

Lemma inner_declared gal_type comp temp behavior_key c nd :
  Component._example_attr_dict c = Some nd →
  inner gal_type (comp, temp) (behavior_key, c)
  = (check_list behavior_key gal_type nd comp (elements (dom nd ∩ dom comp));;
     Ok (nd ∪ comp, nd ∪ temp)).
Proof. intros Hc. unfold inner. rewrite Hc. by rewrite !dict_items_concat. Qed.

Lemma inner_undeclared gal_type comp temp behavior_key c :
  Component._example_attr_dict c = None →
  inner gal_type (comp, temp) (behavior_key, c) = Ok (comp, temp).
Proof. intros Hc. unfold inner. by rewrite Hc. Qed.

Lemma inner_spec gal_type features ds comp temp :
  holds comp ds → temp ⊆ comp →
  match for_each (inner gal_type) features (comp, temp) with
  | Ok (comp', temp') =>
      holds comp' (ds ++ declared_shapes (values features))
      ∧ comp ⊆ comp' ∧ temp' ⊆ comp'
  | Raise e =>
      (∃ msg, e = TypeError msg) ∧ disagreement (ds ++ declared_shapes (values features))
  end.
Proof.
  revert ds comp temp. induction features as [|[behavior_key c] features IH];
    intros ds comp temp Hholds Htemp.
  - cbn. by rewrite app_nil_r.
  - cbn [for_each]. unfold declared_shapes, values in *.
    rewrite fmap_cons. cbn [omap list_omap snd].
    destruct (Component._example_attr_dict c) as [nd|] eqn:Hc.
    + rewrite (inner_declared _ _ _ _ _ _ Hc).
      destruct (check_cases behavior_key gal_type nd comp)
        as [[Hok Hagree]|[[msg Hraise] Hnot]].
      * rewrite Hok. cbn [mbind result_bind].
        specialize (IH (ds ++ [nd]) (nd ∪ comp) (nd ∪ temp)
                      (holds_extend _ _ _ Hholds Hagree)
                      (map_union_mono_l _ _ _ Htemp)).
        rewrite <- app_assoc in IH. simpl in IH.
        destruct (for_each (inner gal_type) features (nd ∪ comp, nd ∪ temp))
          as [[comp' temp']|e]; [|done].
        destruct IH as (Hholds' & Hsub & Htemp'). split_and!; [done| |done].
        trans (nd ∪ comp); [by apply union_agree_subseteq|done].
      * rewrite Hraise. cbn [mbind result_bind]. split; [eauto|].
        rewrite (cons_middle nd), app_assoc. apply disagreement_mono.
        by eapply holds_disagree.
    + rewrite (inner_undeclared _ _ _ _ _ Hc). cbn [mbind result_bind]. by apply IH.
Qed.

(** Every per-gal_type dictionary lies within the composite one. *)
Let within per comp : Prop := ∀ gal_type d, per !! gal_type = Some d → d ⊆ comp.

Lemma outer_eq comp per gal_type features :
  outer (comp, per) (gal_type, features)
  = (r ← for_each (inner gal_type) features (comp, ∅);
     Ok (r.1, <[ gal_type := r.2 ]> per)).
Proof. reflexivity. Qed.

Lemma outer_spec bp ds comp per :
  holds comp ds → within per comp →
  match for_each outer bp (comp, per) with
  | Ok (comp', per') =>
      holds comp' (ds ++ declared_shapes (components bp))
      ∧ within per' comp'
      ∧ dom per' = dom per ∪ list_to_set (keys bp)
  | Raise e =>
      (∃ msg, e = TypeError msg) ∧ disagreement (ds ++ declared_shapes (components bp))
  end.
Proof.
  revert ds comp per. induction bp as [|[gal_type features] bp IH];
    intros ds comp per Hholds Hwithin.
  - cbn. rewrite app_nil_r. split_and!; [done..|]. set_solver.
  - cbn [for_each]. rewrite outer_eq.
    assert (declared_shapes (components ((gal_type, features) :: bp))
            = declared_shapes (values features) ++ declared_shapes (components bp)) as ->.
    { unfold declared_shapes, components, values. cbn. by rewrite omap_app. }
    pose proof (inner_spec gal_type features ds comp ∅ Hholds (map_empty_subseteq _)) as Hinner.
    destruct (for_each (inner gal_type) features (comp, ∅)) as [[comp1 temp1]|e].
    + destruct Hinner as (Hholds1 & Hsub1 & Htemp1). cbn [mbind result_bind fst snd].
      specialize (IH (ds ++ declared_shapes (values features)) comp1
                    (<[ gal_type := temp1 ]> per) Hholds1).
      rewrite <- app_assoc in IH.
      destruct (for_each outer bp (comp1, <[ gal_type := temp1 ]> per))
        as [[comp' per']|e'].
      * destruct IH as (Hholds' & Hwithin' & Hdom).
        { intros gt d. destruct (decide (gal_type = gt)) as [->|Hne].
          - rewrite lookup_insert_eq. by intros [= <-].
          - rewrite lookup_insert_ne by done. intros Hd.
            etrans; [by eapply Hwithin|done]. }
        split_and!; [done..|]. rewrite Hdom, dom_insert_L. unfold keys. cbn. set_solver.
      * apply IH. intros gt d. destruct (decide (gal_type = gt)) as [->|Hne].
        -- rewrite lookup_insert_eq. by intros [= <-].
        -- rewrite lookup_insert_ne by done. intros Hd.
           etrans; [by eapply Hwithin|done].
    + cbn [mbind result_bind]. destruct Hinner as [Hmsg Hdis]. split; [done|].
      rewrite app_assoc. by apply disagreement_mono.
Qed.

(** What [get_example_attr_dict] returns, and when it raises. *)
Lemma get_example_attr_dict_spec bp :
  match get_example_attr_dict bp with
  | Ok (comp, per) =>
      (∀ nd, nd ∈ declared_shapes (components bp) → nd ⊆ comp)
      ∧ (∀ k v, comp !! k = Some v →
           ∃ nd, nd ∈ declared_shapes (components bp) ∧ nd !! k = Some v)
      ∧ (∀ gal_type d, per !! gal_type = Some d → d ⊆ comp)
      ∧ dom per = list_to_set (keys bp)
  | Raise e =>
      (∃ msg, e = TypeError msg)
      ∧ ∃ nd1 nd2, nd1 ∈ declared_shapes (components bp)
                   ∧ nd2 ∈ declared_shapes (components bp) ∧ ¬ shapes_agree nd1 nd2
  end.
Proof.
  rewrite get_example_attr_dict_loop.
  pose proof (outer_spec bp [] ∅ ∅) as Hspec. rewrite app_nil_l in Hspec.
  destruct (for_each outer bp (∅, ∅)) as [[comp per]|e].
  - destruct Hspec as ([Hsub Hfrom] & Hwithin & Hdom).
    + split; [by intros nd ?%elem_of_nil | by intros k v; rewrite lookup_empty].
    + by intros gt d; rewrite lookup_empty.
    + split_and!; [done..|]. rewrite Hdom, dom_empty_L. set_solver.
  - apply Hspec.
    + split; [by intros nd ?%elem_of_nil | by intros k v; rewrite lookup_empty].
    + by intros gt d; rewrite lookup_empty.
Qed.
End example_attr.

(** X4.  When [get_example_attr_dict] returns, the composite dictionary
    holds, for every component that has an [_example_attr_dict], each of its
    names with the shape the component gives it, and holds nothing that no
    component declares; every per-gal_type dictionary lies within the
    composite one, and there is one per gal_type of the blueprint. *)
Theorem get_example_attr_dict_collects_every_shape
    (bp : Blueprint) (composite : gmap string (list nat))
    (per_gal_type : gmap string (gmap string (list nat))) :
  HodFactory.get_example_attr_dict bp = Ok (composite, per_gal_type) →
  (∀ c new_dict, c ∈ components bp → Component._example_attr_dict c = Some new_dict →
     new_dict ⊆ composite)
  ∧ (∀ key shape, composite !! key = Some shape →
       ∃ c new_dict, c ∈ components bp ∧ Component._example_attr_dict c = Some new_dict
                     ∧ new_dict !! key = Some shape)
  ∧ (∀ gal_type d, per_gal_type !! gal_type = Some d → d ⊆ composite)
  ∧ dom per_gal_type = list_to_set (keys bp).
Proof.
  intros Hok. pose proof (get_example_attr_dict_spec bp) as Hspec. rewrite Hok in Hspec.
  destruct Hspec as (Hsub & Hfrom & Hwithin & Hdom). split_and!; [| |done..].
  - intros c nd Hc Hnd. apply Hsub. apply list_elem_of_omap. eauto.
  - intros k v Hk. destruct (Hfrom _ _ Hk) as (nd & Hnd & Hkv).
    apply list_elem_of_omap in Hnd as (c & Hc & Hnd). eauto.
Qed.

(** X5.  [get_example_attr_dict] returns exactly when the components'
    dictionaries agree, pair by pair, on the shape of every name they share;
    when two of them give one name two shapes it raises [TypeError]. *)
Theorem get_example_attr_dict_shape_conflict (bp : Blueprint) :
  ((∀ nd1 nd2, nd1 ∈ declared_shapes (components bp) →
               nd2 ∈ declared_shapes (components bp) → shapes_agree nd1 nd2) →
   ∃ r, HodFactory.get_example_attr_dict bp = Ok r)
  ∧ (∀ c1 c2 nd1 nd2 key shape1 shape2,
       c1 ∈ components bp → c2 ∈ components bp →
       Component._example_attr_dict c1 = Some nd1 →
       Component._example_attr_dict c2 = Some nd2 →
       nd1 !! key = Some shape1 → nd2 !! key = Some shape2 → shape1 ≠ shape2 →
       ∃ msg, HodFactory.get_example_attr_dict bp = Raise (TypeError msg)).
Proof.
  pose proof (get_example_attr_dict_spec bp) as Hspec. split.
  - intros Hagree. destruct (HodFactory.get_example_attr_dict bp) as [r|e]; [eauto|].
    destruct Hspec as (_ & nd1 & nd2 & H1 & H2 & Hnot). exfalso. by apply Hnot, Hagree.
  - intros c1 c2 nd1 nd2 key s1 s2 Hc1 Hc2 Hnd1 Hnd2 Hk1 Hk2 Hne.
    destruct (HodFactory.get_example_attr_dict bp) as [[comp per]|e].
    + destruct Hspec as (Hsub & _). exfalso. apply Hne.
      assert (nd1 ⊆ comp) as Hsub1 by (apply Hsub, list_elem_of_omap; eauto).
      assert (nd2 ⊆ comp) as Hsub2 by (apply Hsub, list_elem_of_omap; eauto).
      pose proof (lookup_weaken _ _ _ _ Hk1 Hsub1) as Hv1.
      pose proof (lookup_weaken _ _ _ _ Hk2 Hsub2) as Hv2. congruence.
    + destruct Hspec as [[msg ->] _]. eauto.
Qed.

(** ** Secondary keys, in general *)

Lemma Forall_components (P : Component.t → Prop) (bp : Blueprint) :
  Forall P (components bp) ↔ Forall (λ item, Forall P (values item.2)) bp.
Proof.
  unfold components, values. induction bp as [|[gal_type features] bp IH]; cbn.
  - split; constructor.
  - rewrite Forall_app, Forall_cons, IH. done.
Qed.

Lemma Exists_components (P : Component.t → Prop) (bp : Blueprint) :
  Exists P (components bp) ↔ Exists (λ item, Exists P (values item.2)) bp.
Proof.
  unfold components, values. induction bp as [|[gal_type features] bp IH]; cbn.
  - split; intros H; inversion H.
  - rewrite Exists_app, Exists_cons, IH. done.
Qed.

Section sec_keys.
Import HodFactory.
Implicit Types (bp : Blueprint) (features : list (string * Component.t)).

Lemma sec_keys_of_snoc features behavior_key c :
  sec_keys_of (features ++ [(behavior_key, c)])
  = match Component.sec_haloprop_key c with
    | Some key => <[ behavior_key := key ]> (sec_keys_of features)
    | None => sec_keys_of features
    end.
Proof. unfold sec_keys_of. by rewrite foldl_snoc. Qed.

(** [temp_dict] stays empty exactly when no feature has a
    [sec_haloprop_key]. *)
Lemma sec_keys_of_empty features :
  sec_keys_of features = ∅
  ↔ Forall (λ c, Component.sec_haloprop_key c = None) (values features).
Proof.
  unfold values. induction features as [|[k c] features IH] using rev_ind.
  - split; [constructor | done].
  - rewrite sec_keys_of_snoc, fmap_app, Forall_app. cbn [fmap list_fmap snd].
    rewrite Forall_singleton.
    destruct (Component.sec_haloprop_key c) as [key|].
    + split; [intros H; by apply insert_non_empty in H | by intros [_ ?]].
    + rewrite IH. tauto.
Qed.

(** With distinct feature names, [temp_dict] holds each declared key under
    the name of its feature. *)
Lemma sec_keys_of_lookup features behavior_key c key :
  NoDup (keys features) → (behavior_key, c) ∈ features →
  Component.sec_haloprop_key c = Some key →
  sec_keys_of features !! behavior_key = Some key.
Proof.
  unfold keys. induction features as [|[k0 c0] features IH] using rev_ind.
  - by intros _ ?%elem_of_nil.
  - rewrite fmap_app, sec_keys_of_snoc. cbn.
    intros (Hnodup & Hnot & _)%NoDup_app Hin Hkey.
    apply elem_of_app in Hin as [Hin|Hin].
    + assert (behavior_key ≠ k0) as Hne.
      { intros ->. apply (Hnot k0); [|left].
        apply list_elem_of_fmap. by exists (k0, c). }
      specialize (IH Hnodup Hin Hkey).
      destruct (Component.sec_haloprop_key c0); [|done].
      by rewrite lookup_insert_ne.
    + apply list_elem_of_singleton in Hin as [= -> ->]. rewrite Hkey.
      by rewrite lookup_insert_eq.
Qed.

Lemma remove_dups_nil_inv {A : Type} `{EqDecision A} (l : list A) :
  remove_dups l = [] → l = [].
Proof.
  destruct l as [|x l]; [done|]. intros Hnil.
  assert (x ∈ remove_dups (x :: l)) as Hx by (apply elem_of_remove_dups; left).
  rewrite Hnil in Hx. by apply elem_of_nil in Hx.
Qed.

Lemma sec_key_set_nil features :
  length (sec_key_set features) = 0
  ↔ Forall (λ c, Component.sec_haloprop_key c = None) (values features).
Proof.
  rewrite <- sec_keys_of_empty. unfold sec_key_set. split.
  - intros Hlen%nil_length_inv%remove_dups_nil_inv%fmap_nil_inv%fmap_nil_inv.
    by apply map_to_list_empty_iff.
  - intros ->. by rewrite map_to_list_empty.
Qed.

Lemma sec_key_set_two features key1 key2 k1 k2 :
  sec_keys_of features !! k1 = Some key1 → sec_keys_of features !! k2 = Some key2 →
  key1 ≠ key2 → 1 < length (sec_key_set features).
Proof.
  intros H1 H2 Hne. unfold sec_key_set.
  assert (∀ k key, sec_keys_of features !! k = Some key →
            PyStr key ∈ remove_dups (PyStr <$> (map_to_list (sec_keys_of features)).*2)) as Hin.
  { intros k key Hk. apply elem_of_remove_dups, list_elem_of_fmap. exists key.
    split; [done|]. apply list_elem_of_fmap. exists (k, key).
    split; [done|]. by apply elem_of_map_to_list. }
  pose proof (Hin _ _ H1) as Hin1. pose proof (Hin _ _ H2) as Hin2.
  destruct (remove_dups _) as [|u [|v l]]; cbn.
  - by apply elem_of_nil in Hin1.
  - apply list_elem_of_singleton in Hin1, Hin2. congruence.
  - lia.
Qed.
End sec_keys.

(** X6.  [_create_haloprop_keys] returns exactly for the blueprints in
    which no component declares a [sec_haloprop_key], with the halo-profile
    model's [prim_haloprop_key] and no secondary key; as soon as one
    component declares one it raises, the [KeyError] of a gal_type whose
    features disagree or the [TypeError] of [set()] over dictionaries. *)
Theorem create_haloprop_keys_returns_without_sec_keys
    (hpm : HaloProfModel.t) (bp : Blueprint) :
  (Forall (λ c, Component.sec_haloprop_key c = None) (components bp) →
   HodFactory._create_haloprop_keys hpm bp
   = Ok (HodFactory.mkHalopropKeys (HaloProfModel.prim_haloprop_key hpm) None None))
  ∧ (Exists (λ c, is_Some (Component.sec_haloprop_key c)) (components bp) →
     ∃ e, HodFactory._create_haloprop_keys hpm bp = Raise e
          ∧ (e = KeyError within_msg ∨ e = TypeError "unhashable type: 'dict'")).
Proof.
  rewrite create_haloprop_keys_cases. split.
  - intros Hnone%Forall_components.
    assert (Forall (λ item : string * list (string * Component.t),
                      length (sec_key_set item.2) = 0) bp) as Hzero.
    { eapply Forall_impl; [exact Hnone|]. intros item Hitem. by apply sec_key_set_nil. }
    rewrite decide_False, decide_True; [done| |].
    + eapply Forall_impl; [exact Hzero|]. intros item Hlen. simpl in Hlen. lia.
    + intros Hex. apply Exists_exists in Hex as (item & Hin & Hgt).
      rewrite Forall_forall in Hzero. specialize (Hzero _ Hin). simpl in Hzero. lia.
  - intros Hsome%Exists_components. case_decide as Hex; [eauto|].
    case_decide as Hall; [|eauto]. exfalso.
    apply Exists_exists in Hsome as (item & Hin & Hitem).
    apply not_Exists_Forall in Hex; [|intros ?; apply _].
    rewrite Forall_forall in Hex, Hall.
    specialize (Hex _ Hin). specialize (Hall _ Hin). simpl in Hex, Hall.
    assert (length (sec_key_set item.2) = 0) as Hzero by lia.
    apply sec_key_set_nil in Hzero.
    apply Exists_exists in Hitem as (c & Hc & Hsome).
    rewrite Forall_forall in Hzero. rewrite (Hzero _ Hc) in Hsome. by destruct Hsome.
Qed.

(** X7.  When two features of one gal_type (the feature names being
    distinct) declare different secondary keys, [_create_haloprop_keys]
    raises the [KeyError] written for behaviours of one galaxy type, whatever
    the other galaxy types declare. *)
Theorem create_haloprop_keys_disagreement_within_gal_type
    (hpm : HaloProfModel.t) (bp : Blueprint) (gal_type : string)
    (features : list (string * Component.t))
    (behavior_key1 behavior_key2 : string) (c1 c2 : Component.t) (key1 key2 : string) :
  (gal_type, features) ∈ bp → NoDup (keys features) →
  (behavior_key1, c1) ∈ features → (behavior_key2, c2) ∈ features →
  Component.sec_haloprop_key c1 = Some key1 →
  Component.sec_haloprop_key c2 = Some key2 →
  key1 ≠ key2 →
  HodFactory._create_haloprop_keys hpm bp = Raise (KeyError within_msg).
Proof.
  intros Hin Hnodup Hin1 Hin2 Hkey1 Hkey2 Hne.
  rewrite create_haloprop_keys_cases. rewrite decide_True; [done|].
  apply Exists_exists. exists (gal_type, features). split; [done|]. simpl.
  apply (sec_key_set_two features key1 key2 behavior_key1 behavior_key2);
    [by apply (sec_keys_of_lookup _ _ c1) | by apply (sec_keys_of_lookup _ _ c2) | done].
Qed.

(** X7 on the centrals of [blueprint_sec_within]. *)
Lemma create_haloprop_keys_disagreement_within_gal_type_witness :
  HodFactory._create_haloprop_keys Examples.halo_prof Examples.blueprint_sec_within
  = Raise (KeyError within_msg).
Proof.
  apply (create_haloprop_keys_disagreement_within_gal_type Examples.halo_prof
           Examples.blueprint_sec_within "centrals"
           [("occupation_model", Examples.with_sec "halo_zform");
            ("profile_model", Examples.with_sec "halo_spin")]
           "occupation_model" "profile_model"
           (Examples.with_sec "halo_zform") (Examples.with_sec "halo_spin")
           "halo_zform" "halo_spin").
  - left.
  - apply (bool_decide_unpack _). by vm_compute.
  - left.
  - right. left.
  - reflexivity.
  - reflexivity.
  - done.
Defined.

(** X8.  [get_new_haloprop_dict] returns exactly for the blueprints in
    which no component has a [new_haloprop_dict], and then returns the
    halo-profile model's [param_func_dict] itself; as soon as one component
    has one it raises, [KeyError] from [pop] on an empty set or [NameError]
    for the unbound [warnings]. *)
Theorem get_new_haloprop_dict_returns_profile_dict
    (hpm : HaloProfModel.t) (bp : Blueprint) :
  (Forall (λ c, Component.new_haloprop_dict c = None) (components bp) →
   HodFactory.get_new_haloprop_dict hpm bp = Ok (HaloProfModel.param_func_dict hpm))
  ∧ (Exists (λ c, is_Some (Component.new_haloprop_dict c)) (components bp) →
     ∃ e, HodFactory.get_new_haloprop_dict hpm bp = Raise e
          ∧ (e = KeyError "pop from an empty set" ∨ e = NameError "warnings")).
Proof.
  split.
  - apply get_new_haloprop_dict_none.
  - apply get_new_haloprop_dict_some.
Qed.

(** ** Construction *)

Section construction.
Import HodFactory.
Implicit Types (bp : Blueprint).

Lemma occupation_bounds_ok_all bp m :
  occupation_bounds bp = Ok m → Forall (λ item, ¬ lacks_occupation_bound item) bp.
Proof.
  unfold occupation_bounds. generalize (∅ : gmap string number). revert m.
  induction bp as [|[gal_type features] bp IH]; intros m acc; [constructor|].
  cbn [for_each]. unfold lacks_occupation_bound at 1.
  destruct (assoc features "occupation_model") as [c|] eqn:Hc; [|done].
  destruct (Component.occupation_bound c) as [b|] eqn:Hb; [|done].
  cbn [mbind result_bind]. intros Hrest. constructor; [|by eapply IH].
  unfold lacks_occupation_bound. simpl. rewrite Hc. congruence.
Qed.

Lemma not_Exists_is_Some {A B : Type} (f : A → option B) (l : list A) :
  ¬ Exists (λ x, is_Some (f x)) l → Forall (λ x, f x = None) l.
Proof.
  intros Hnot. apply Forall_forall. intros x Hx.
  destruct (f x) as [b|] eqn:Hfx; [|done]. exfalso. apply Hnot.
  apply Exists_exists. exists x. split; [done|]. by rewrite Hfx.
Qed.

Lemma create_haloprop_keys_ok_none hpm bp ks :
  _create_haloprop_keys hpm bp = Ok ks →
  Forall (λ c, Component.sec_haloprop_key c = None) (components bp).
Proof.
  rewrite create_haloprop_keys_cases. intros Hok.
  apply Forall_components. apply Forall_forall. intros item Hin.
  apply sec_key_set_nil.
  case_decide as Hex; [done|]. case_decide as Hall; [|done].
  apply not_Exists_Forall in Hex; [|intros ?; apply _].
  rewrite Forall_forall in Hex, Hall.
  specialize (Hex _ Hin). specialize (Hall _ Hin). simpl in Hex, Hall. lia.
Qed.

Lemma get_new_haloprop_dict_ok_none hpm bp d :
  get_new_haloprop_dict hpm bp = Ok d →
  Forall (λ c, Component.new_haloprop_dict c = None) (components bp).
Proof.
  intros Hok. apply not_Exists_is_Some. intros Hex.
  destruct (get_new_haloprop_dict_some hpm bp Hex) as (e & He & _). congruence.
Qed.

Lemma get_example_attr_dict_agree bp :
  (∀ nd1 nd2, nd1 ∈ declared_shapes (components bp) →
              nd2 ∈ declared_shapes (components bp) → shapes_agree nd1 nd2)
  ↔ ∃ r, get_example_attr_dict bp = Ok r.
Proof.
  pose proof (get_example_attr_dict_spec bp) as Hspec.
  destruct (get_example_attr_dict bp) as [[comp per]|e].
  - split; [eauto|]. intros _ nd1 nd2 H1 H2 k s1 s2 Hk1 Hk2.
    destruct Hspec as (Hsub & _).
    pose proof (lookup_weaken _ _ _ _ Hk1 (Hsub _ H1)) as Hv1.
    pose proof (lookup_weaken _ _ _ _ Hk2 (Hsub _ H2)) as Hv2. congruence.
  - destruct Hspec as (_ & nd1 & nd2 & H1 & H2 & Hnot).
    split; [|by intros [r [=]]]. intros Hagree. exfalso. by apply Hnot, Hagree.
Qed.
End construction.

(** X9.  Whenever [HodModel(...)] gives a model, the blueprint is
    [constructible]: every gal_type has an ['occupation_model'] with an
    [occupation_bound], no component declares a secondary key or a
    dictionary of new halo properties, and the example shapes of the
    components agree pairwise. *)
Theorem init_returns_only_if_constructible
    (hpm : HaloProfModel.t) (bp : Blueprint) (hkd : gmap string string)
    (model : HodFactory.HodModel) :
  HodFactory.__init__ hpm bp hkd = Ok model → constructible bp.
Proof.
  unfold constructible, HodFactory.__init__. intros Hinit.
  destruct (HodFactory.occupation_bounds bp) as [ob|] eqn:Hob; [|done].
  cbn [mbind result_bind] in Hinit.
  destruct (HodFactory._create_haloprop_keys hpm bp) as [ks|] eqn:Hks; [|done].
  cbn [mbind result_bind] in Hinit.
  destruct (HodFactory.build_composite_param_dict bp) as [pd|] eqn:Hpd; [|done].
  cbn [mbind result_bind] in Hinit.
  destruct (HodFactory.get_example_attr_dict bp) as [ex|] eqn:Hex; [|done].
  cbn [mbind result_bind] in Hinit.
  destruct (HodFactory.get_new_haloprop_dict hpm bp) as [nh|] eqn:Hnh; [|done].
  split_and!.
  - by eapply occupation_bounds_ok_all.
  - by eapply create_haloprop_keys_ok_none.
  - by eapply get_new_haloprop_dict_ok_none.
  - apply get_example_attr_dict_agree. eauto.
Qed.

(** X9 on the example blueprint, which [HodModel(...)] accepts. *)
Lemma init_returns_only_if_constructible_witness :
  constructible Examples.blueprint_ok.
Proof.
  apply (init_returns_only_if_constructible Examples.halo_prof Examples.blueprint_ok
           {[ "prim_haloprop_key" := "halo_mvir" ]}
           (match HodFactory.__init__ Examples.halo_prof Examples.blueprint_ok
                    {[ "prim_haloprop_key" := "halo_mvir" ]} with
            | Ok model => model
            | Raise _ => Examples.composite
            end)).
  by vm_compute.
Defined.

(** ** The properties of construction on the example blueprints *)

(** X2 on [blueprint_ok]: the model has both galaxy types, and the
    satellites' bound is that of their occupation model. *)
Lemma init_occupation_bound_of_every_gal_type_witness :
  HodFactory.gal_types Examples.composite = ["centrals"; "satellites"]
  ∧ ∃ c b, assoc [("occupation_model", Examples.sat_occupation)] "occupation_model" = Some c
           ∧ Component.occupation_bound c = Some b
           ∧ HodFactory.occupation_bound Examples.composite !! "satellites" = Some b.
Proof.
  destruct (init_occupation_bound_of_every_gal_type Examples.halo_prof Examples.blueprint_ok
              {[ "prim_haloprop_key" := "halo_mvir" ]} Examples.composite)
    as (_ & _ & _ & Hgal & _ & Hbound).
  - apply (bool_decide_unpack _). by vm_compute.
  - by vm_compute.
  - split; [exact Hgal|]. apply Hbound. right. left.
Defined.

(** X3 on a blueprint whose satellites have a profile model only. *)
Lemma init_missing_occupation_model_raises_witness :
  ∃ e, HodFactory.__init__ Examples.halo_prof Cases.blueprint_no_occupation ∅ = Raise e
       ∧ HodFactory.occupation_bounds Cases.blueprint_no_occupation = Raise e
       ∧ (e = KeyError "occupation_model" ∨ e = AttributeError "occupation_bound").
Proof.
  apply (init_missing_occupation_model_raises Examples.halo_prof Cases.blueprint_no_occupation ∅).
  apply Exists_cons_tl, Exists_cons_hd. exact I.
Defined.

(** X4 on two galaxy types that both declare positions of three
    coordinates: the composite shape of ["pos"] is a component's. *)
Lemma get_example_attr_dict_collects_every_shape_witness :
  ∃ c new_dict, c ∈ components Cases.blueprint_shapes
                ∧ Component._example_attr_dict c = Some new_dict
                ∧ new_dict !! "pos" = Some [3].
Proof.
  destruct (get_example_attr_dict_collects_every_shape Cases.blueprint_shapes
              {[ "stellar_mass" := []; "pos" := [3] ]}
              {[ "centrals" := {[ "stellar_mass" := []; "pos" := [3] ]};
                 "satellites" := {[ "pos" := [3] ]} ]})
    as (_ & Hfrom & _).
  - by vm_compute.
  - apply Hfrom. by vm_compute.
Defined.

(** X5 on two galaxy types that declare positions of three and of two
    coordinates. *)
Lemma get_example_attr_dict_shape_conflict_witness :
  ∃ msg, HodFactory.get_example_attr_dict Cases.blueprint_shapes_conflict
         = Raise (TypeError msg).
Proof.
  destruct (get_example_attr_dict_shape_conflict Cases.blueprint_shapes_conflict)
    as [_ Hconflict].
  apply (Hconflict
           (Cases.with_shapes {[ "stellar_mass" := []; "pos" := [3] ]})
           (Cases.with_shapes {[ "pos" := [2] ]})
           {[ "stellar_mass" := []; "pos" := [3] ]} {[ "pos" := [2] ]}
           "pos" [3] [2]).
  - left.
  - right. left.
  - reflexivity.
  - reflexivity.
  - by vm_compute.
  - by vm_compute.
  - done.
Defined.

(** ** Behaviours of a constructed model *)

Lemma elem_of_components (bp : Blueprint) gal_type features behavior_key c :
  (gal_type, features) ∈ bp → (behavior_key, c) ∈ features → c ∈ components bp.
Proof.
  intros Hbp Hf. unfold components, values. apply list_elem_of_join.
  exists (features.*2). split.
  - apply list_elem_of_fmap. by exists (behavior_key, c).
  - apply list_elem_of_fmap. exists features. split; [done|].
    apply list_elem_of_fmap. by exists (gal_type, features).
Qed.

(** X10.  On a model that [HodModel(...)] has returned, [component_behavior]
    called with positional arrays and no mock evaluates the function that the
    component of that gal_type and feature keeps under the feature's name, on
    those arrays and the composite [param_dict]; and the composite dictionary
    gives every parameter of the component the value the component has for
    it. *)
Theorem component_behavior_uses_composite_params
    (hpm : HaloProfModel.t) (bp : Blueprint) (hkd : gmap string string)
    (model : HodFactory.HodModel) (gal_type component_key : string)
    (features : list (string * Component.t)) (c : Component.t)
    (f : list column → gmap string number → column) (args : list column) :
  HodFactory.__init__ hpm bp hkd = Ok model →
  NoDup (keys bp) → (gal_type, features) ∈ bp →
  NoDup (keys features) → (component_key, c) ∈ features →
  Component.prim_func_dict c !! component_key = Some f →
  args ≠ [] →
  HodFactory.component_behavior model gal_type component_key args ∅
    = Ok (f args (HodFactory.param_dict model))
  ∧ Component.param_dict c ⊆ HodFactory.param_dict model.
Proof.
  intros Hinit Hbp Hgal Hfeatures Hc Hf Hargs. unfold HodFactory.__init__ in Hinit.
  destruct (HodFactory.occupation_bounds bp) as [ob|]; [|done].
  cbn [mbind result_bind] in Hinit.
  destruct (HodFactory._create_haloprop_keys hpm bp) as [ks|]; [|done].
  cbn [mbind result_bind] in Hinit.
  destruct (HodFactory.build_composite_param_dict bp) as [pd|] eqn:Hpd; [|done].
  cbn [mbind result_bind] in Hinit.
  destruct (HodFactory.get_example_attr_dict bp) as [ex|]; [|done].
  cbn [mbind result_bind] in Hinit.
  destruct (HodFactory.get_new_haloprop_dict hpm bp) as [nh|]; [|done].
  injection Hinit as <-. split.
  - unfold HodFactory.component_behavior, HodFactory.retrieve_relevant_haloprops,
      HodFactory.aph_len, HodFactory.assoc_getitem, HodFactory.dict_getitem.
    destruct args as [|a args]; [done|]. rewrite lookup_empty.
    rewrite (bool_decide_eq_false_2 (is_Some None)) by (by intros [? ?]).
    cbn [length HodFactory.model_blueprint HodFactory.param_dict].
    rewrite (bool_decide_eq_false_2 (S (length args) = 0)) by done.
    rewrite (bool_decide_eq_true_2 (0 < S (length args))) by lia.
    cbn [andb negb mbind result_bind].
    rewrite (assoc_elem_of _ _ _ Hbp Hgal). cbn [mbind result_bind].
    rewrite (assoc_elem_of _ _ _ Hfeatures Hc). cbn [mbind result_bind].
    by rewrite Hf.
  - cbn [HodFactory.param_dict].
    pose proof (build_loop_spec (components bp)) as Hspec.
    rewrite <- build_composite_param_dict_flat, Hpd in Hspec.
    destruct Hspec as (_ & _ & _ & Hsub). apply Hsub. by eapply elem_of_components.
Qed.

(** X10 on the step occupation of the centrals, at masses around the
    threshold. *)
Lemma component_behavior_uses_composite_params_witness :
  HodFactory.component_behavior Cases.composite_step "centrals" "occupation_model"
    [[Num 11; Num 12; Num 13]] ∅
  = Ok [Num 0; Num 1; Num 1].
Proof.
  destruct (component_behavior_uses_composite_params Examples.halo_prof Cases.blueprint_step
              {[ "prim_haloprop_key" := "halo_mvir" ]} Cases.composite_step
              "centrals" "occupation_model"
              [("occupation_model", Cases.cen_step)] Cases.cen_step Cases.step_occupation
              [[Num 11; Num 12; Num 13]]) as [Hcall _].
  - by vm_compute.
  - apply (bool_decide_unpack _). by vm_compute.
  - left.
  - apply (bool_decide_unpack _). by vm_compute.
  - left.
  - reflexivity.
  - done.
  - rewrite Hcall. reflexivity.
Defined.

(** X11.  Called with a mock and no positional array,
    [retrieve_relevant_haloprops] either returns slices of the mock's
    arrays, one array or two according to whether the haloprop key
    dictionary has a ['sec_haloprop_key'], none longer than the gal_type's
    slice; or it raises the [KeyError] of a missing ['prim_haloprop_key'] or
    of a gal_type the mock has no slice for, or the [AttributeError] of a
    configured haloprop key that the mock has no array for. *)
Theorem retrieve_relevant_haloprops_from_mock
    (self : HodFactory.HodModel) (gal_type component_key : string)
    (kwargs : gmap string MockGalaxies.t) (mock : MockGalaxies.t) :
  kwargs !! "mock_galaxies" = Some mock →
  match HodFactory.retrieve_relevant_haloprops self gal_type component_key [] kwargs with
  | Ok output_columns =>
      ∃ sl, MockGalaxies._gal_type_indices mock !! gal_type = Some sl
        ∧ length output_columns
          = match HodFactory.haloprop_key_dict self !! "sec_haloprop_key" with
            | Some _ => 2
            | None => 1
            end
        ∧ ∀ col, col ∈ output_columns →
            length col ≤ sl.2 - sl.1
            ∧ ∃ name key array,
                HodFactory.haloprop_key_dict self !! name = Some key
                ∧ MockGalaxies.attrs mock !! key = Some array
                ∧ col = py_slice sl array
  | Raise e =>
      (e = KeyError "prim_haloprop_key"
       ∧ HodFactory.haloprop_key_dict self !! "prim_haloprop_key" = None)
      ∨ (e = KeyError gal_type ∧ MockGalaxies._gal_type_indices mock !! gal_type = None)
      ∨ ∃ name key, HodFactory.haloprop_key_dict self !! name = Some key
                    ∧ MockGalaxies.attrs mock !! key = None
                    ∧ e = AttributeError key
  end.
Proof.
  intros Hmock. unfold HodFactory.retrieve_relevant_haloprops, HodFactory.aph_len,
    HodFactory.dict_getitem, HodFactory.getattr.
  rewrite Hmock. rewrite (bool_decide_eq_true_2 (is_Some (Some mock))) by done.
  cbn [length bool_decide andb mbind result_bind].
  rewrite bool_decide_eq_true_2 by done. cbn [andb mbind result_bind].
  destruct (HodFactory.haloprop_key_dict self !! "prim_haloprop_key") as [prim_key|] eqn:Hprim;
    cbn [mbind result_bind]; [|by left].
  destruct (MockGalaxies._gal_type_indices mock !! gal_type) as [sl|] eqn:Hsl;
    cbn [mbind result_bind]; [|right; by left].
  destruct (MockGalaxies.attrs mock !! prim_key) as [prim|] eqn:Harr;
    cbn [mbind result_bind]; [|right; right; eauto].
  assert (∀ array : column, length (py_slice sl array) ≤ sl.2 - sl.1) as Hlen.
  { intros array. unfold py_slice. rewrite length_take. lia. }
  destruct (HodFactory.haloprop_key_dict self !! "sec_haloprop_key") as [sec_key|] eqn:Hsec.
  - rewrite bool_decide_eq_true_2 by done. cbn [mbind result_bind].
    destruct (MockGalaxies.attrs mock !! sec_key) as [sec|] eqn:Hsecarr;
      cbn [mbind result_bind]; [|right; right; eauto].
    exists sl. split_and!; [done..|].
    intros col [->|[->|?%elem_of_nil]%elem_of_cons]%elem_of_cons; [| |done];
      (split; [apply Hlen|]).
    + by exists "prim_haloprop_key", prim_key, prim.
    + by exists "sec_haloprop_key", sec_key, sec.
  - rewrite bool_decide_eq_false_2 by (by intros [? ?]).
    exists sl. split_and!; [done..|].
    intros col [->|?%elem_of_nil]%elem_of_cons; [|done]. split; [apply Hlen|].
    by exists "prim_haloprop_key", prim_key, prim.
Qed.

(** X11 on the example mock: the satellites' slice of the one configured
    array. *)
Lemma retrieve_relevant_haloprops_from_mock_witness :
  ∃ sl, MockGalaxies._gal_type_indices Examples.mock_galaxies !! "satellites" = Some sl
    ∧ length [py_slice (2, 3) [Num 10; Num 11; Num 12]] = 1
    ∧ ∀ col, col ∈ [py_slice (2, 3) [Num 10; Num 11; Num 12]] →
        length col ≤ sl.2 - sl.1
        ∧ ∃ name key array,
            HodFactory.haloprop_key_dict Examples.composite !! name = Some key
            ∧ MockGalaxies.attrs Examples.mock_galaxies !! key = Some array
            ∧ col = py_slice sl array.
Proof.
  exact (retrieve_relevant_haloprops_from_mock Examples.composite "satellites"
           "occupation_model" {[ "mock_galaxies" := Examples.mock_galaxies ]}
           Examples.mock_galaxies eq_refl).
Defined.

(** ** [preprocess_halo_catalog] *)

Section preprocess.
Import SubhaloMockFactory.
Implicit Types (s : Mock) (h : Table) (d : list (string * (Table → result column))).

(** The body of the loop of [preprocess_halo_catalog]. *)
Let new_haloprop_body (item : string * (Table → result column)) : M unit :=
  let '(new_haloprop_key, new_haloprop_func) := item in
  h ← gets halo_table;
  record (CallNewHaloprop new_haloprop_key);;
  c ← lift (new_haloprop_func h);
  halo_table_setitem new_haloprop_key c;;
  append_additional_haloprop new_haloprop_key.

Lemma preprocess_halo_catalog_unfold model s :
  preprocess_halo_catalog model s
  = match SubhaloModel.new_haloprop_func_dict model with
    | None => (s, Ok tt)
    | Some d => except_AttributeError (for_ d new_haloprop_body) s
    end.
Proof.
  unfold preprocess_halo_catalog, except_AttributeError, get_new_haloprop_func_dict.
  cbv [mbind M_bind lift].
  by destruct (SubhaloModel.new_haloprop_func_dict model).
Qed.

Lemma new_haloprop_body_run k f s :
  new_haloprop_body (k, f) s =
  match new_haloprop_step (halo_table s) (k, f) with
  | Ok h' =>
      (mkMock h' (galaxy_table s) (additional_haloprops s ++ [k])
         (calls s ++ [CallNewHaloprop k]), Ok tt)
  | Raise e =>
      (mkMock (halo_table s) (galaxy_table s) (additional_haloprops s)
         (calls s ++ [CallNewHaloprop k]), Raise e)
  end.
Proof.
  cbv [new_haloprop_body new_haloprop_step mbind M_bind result_bind gets record
       halo_table_setitem lift set_halo_table append_additional_haloprop fst snd].
  cbn [halo_table galaxy_table additional_haloprops calls].
  destruct (f (halo_table s)) as [c|e]; [|done].
  by destruct (table_setitem (halo_table s) k c).
Qed.

Lemma new_haloprop_run_cons k f d h :
  new_haloprop_run ((k, f) :: d) h = new_haloprop_step h (k, f) ≫= new_haloprop_run d.
Proof. reflexivity. Qed.

Lemma new_haloprop_run_app d1 d2 h :
  new_haloprop_run (d1 ++ d2) h = new_haloprop_run d1 h ≫= new_haloprop_run d2.
Proof. apply for_each_app. Qed.

Lemma new_haloprop_step_ok h k f h' :
  new_haloprop_step h (k, f) = Ok h' ↔ ∃ c, f h = Ok c ∧ table_setitem h k c = Ok h'.
Proof.
  unfold new_haloprop_step. cbn [fst snd]. destruct (f h) as [c|e]; cbn [mbind result_bind].
  - split; [eauto|]. by intros (c' & [= <-] & Hset).
  - split; [done|]. by intros (c' & [=] & _).
Qed.

(** The table assignment raises nothing but [ValueError], so an
    [AttributeError] out of an iteration comes from the function. *)
Lemma new_haloprop_step_attribute_error h k f msg :
  new_haloprop_step h (k, f) = Raise (AttributeError msg) →
  f h = Raise (AttributeError msg).
Proof.
  unfold new_haloprop_step. cbn [fst snd]. destruct (f h) as [c|e]; cbn [mbind result_bind].
  - unfold table_setitem. repeat case_decide; done.
  - by intros [= ->].
Qed.

(** The loop on the mock returns exactly when the loop on its halo table
    does; it has then appended the new names, in order, to
    [additional_haloprops], made one call per name and left the galaxy table
    alone. *)
Lemma new_haloprop_loop_ok d s s' :
  for_ d new_haloprop_body s = (s', Ok tt) ↔
  ∃ h', new_haloprop_run d (halo_table s) = Ok h'
        ∧ s' = mkMock h' (galaxy_table s) (additional_haloprops s ++ keys d)
                 (calls s ++ (CallNewHaloprop <$> keys d)).
Proof.
  revert s. induction d as [|[k f] d IH]; intros s.
  - cbn. rewrite !app_nil_r. split.
    + intros [= <-]. exists (halo_table s). by destruct s.
    + intros (h' & [= <-] & ->). by destruct s.
  - cbn [for_]. rewrite new_haloprop_run_cons.
    unfold mbind at 1, M_bind at 1. rewrite new_haloprop_body_run.
    destruct (new_haloprop_step (halo_table s) (k, f)) as [h1|e];
      [|split; [done | by intros (? & [=] & _)]].
    cbn [mbind result_bind]. rewrite IH.
    cbn [halo_table galaxy_table additional_haloprops calls].
    unfold keys. rewrite !fmap_cons. cbn [fst]. rewrite <- !app_assoc. done.
Qed.

(** When the loop on the mock raises, the entries before the failing one
    have run as on the halo table alone, and the failing function has been
    called. *)
Lemma new_haloprop_loop_raise d s s' e :
  for_ d new_haloprop_body s = (s', Raise e) →
  ∃ done k f rest h1,
    d = done ++ (k, f) :: rest
    ∧ new_haloprop_run done (halo_table s) = Ok h1
    ∧ new_haloprop_step h1 (k, f) = Raise e
    ∧ s' = mkMock h1 (galaxy_table s) (additional_haloprops s ++ keys done)
             (calls s ++ (CallNewHaloprop <$> keys done ++ [k])).
Proof.
  revert s. induction d as [|[k f] d IH]; intros s; [done|].
  cbn [for_]. unfold mbind at 1, M_bind at 1. rewrite new_haloprop_body_run.
  destruct (new_haloprop_step (halo_table s) (k, f)) as [h1|e1] eqn:Hstep.
  - intros (done & k' & f' & rest & h2 & -> & Hrun & Hfail & ->)%IH.
    cbn [halo_table galaxy_table additional_haloprops calls] in *.
    exists ((k, f) :: done), k', f', rest, h2. split_and!; [done| |done|].
    + rewrite new_haloprop_run_cons, Hstep. done.
    + unfold keys. rewrite !fmap_cons. cbn [fst]. by rewrite <- !app_assoc.
  - intros [= <- <-]. exists [], k, f, d, (halo_table s).
    split_and!; [done..|]. cbn. by rewrite app_nil_r.
Qed.

(** A call of [preprocess_halo_catalog] that returns has run a prefix of
    the dictionary: all of it, or the entries before one whose function
    raised [AttributeError]. *)
Lemma preprocess_halo_catalog_ok model d s s' :
  SubhaloModel.new_haloprop_func_dict model = Some d →
  preprocess_halo_catalog model s = (s', Ok tt) →
  ∃ done rest,
    d = done ++ rest
    ∧ new_haloprop_run done (halo_table s) = Ok (halo_table s')
    ∧ galaxy_table s' = galaxy_table s
    ∧ additional_haloprops s' = additional_haloprops s ++ keys done
    ∧ match rest with
      | [] => calls s' = calls s ++ (CallNewHaloprop <$> keys done)
      | (k, f) :: _ =>
          (∃ msg, f (halo_table s') = Raise (AttributeError msg))
          ∧ calls s' = calls s ++ (CallNewHaloprop <$> keys done ++ [k])
      end.
Proof.
  intros Hd. rewrite preprocess_halo_catalog_unfold, Hd. unfold except_AttributeError.
  destruct (for_ d new_haloprop_body s) as [s1 [[]|e]] eqn:Hloop.
  - intros [= <-]. apply new_haloprop_loop_ok in Hloop as (h' & Hrun & ->).
    exists d, []. by rewrite app_nil_r.
  - apply new_haloprop_loop_raise in Hloop
      as (done & k & f & rest & h1 & Hsplit & Hrun & Hfail & Hs1).
    destruct e; try done. intros [= <-]. subst s1.
    exists done, ((k, f) :: rest).
    cbn [halo_table galaxy_table additional_haloprops calls].
    split_and!; try done.
    eexists. by eapply new_haloprop_step_attribute_error.
Qed.

(** The loop writes no column but those it is given functions for; on a
    table with columns it keeps the number of rows; it keeps the table well
    formed. *)
Lemma new_haloprop_run_frame d h h' :
  new_haloprop_run d h = Ok h' →
  (∀ k, k ∉ keys d → columns h' !! k = columns h !! k)
  ∧ (columns h ≠ ∅ → nrows h' = nrows h ∧ columns h' ≠ ∅)
  ∧ (table_wf h → table_wf h').
Proof.
  revert h. induction d as [|[k0 f0] d IH]; intros h; [by intros [= <-]|].
  rewrite new_haloprop_run_cons.
  destruct (new_haloprop_step h (k0, f0)) as [h1|] eqn:Hstep; [|done].
  apply new_haloprop_step_ok in Hstep as (c0 & Hf0 & Hset).
  cbn [mbind result_bind]. intros Hrun. destruct (IH _ Hrun) as (Hframe & Hrows & Hwf).
  split_and!.
  - unfold keys. rewrite fmap_cons. intros k [Hne Hk]%not_elem_of_cons.
    rewrite (Hframe _ Hk). by apply (table_setitem_lookup _ _ _ _ Hset).
  - intros Hcols. destruct (Hrows (table_setitem_nonempty _ _ _ _ Hset)) as [-> Hne'].
    split; [|done]. by apply (table_setitem_ok _ _ _ _ Hset).
  - intros Hh. apply Hwf. by eapply table_setitem_wf.
Qed.

(** The column under a new name holds what the last function of that name
    returned, on the table as the entries before it had left it. *)
Lemma new_haloprop_run_last_write pre k f post h h' :
  new_haloprop_run (pre ++ (k, f) :: post) h = Ok h' → k ∉ keys post →
  ∃ h1 c, new_haloprop_run pre h = Ok h1
          ∧ f h1 = Ok c
          ∧ columns h' !! k = Some c
          ∧ length c = nrows h'.
Proof.
  rewrite new_haloprop_run_app. destruct (new_haloprop_run pre h) as [h1|]; [|done].
  cbn [mbind result_bind]. rewrite new_haloprop_run_cons.
  destruct (new_haloprop_step h1 (k, f)) as [h2|] eqn:Hstep; [|done].
  apply new_haloprop_step_ok in Hstep as (c & Hf & Hset).
  cbn [mbind result_bind]. intros Hrun Hk. exists h1, c.
  destruct (new_haloprop_run_frame _ _ _ Hrun) as (Hframe & Hrows & _).
  split_and!; [done..| |].
  - rewrite (Hframe _ Hk). by apply (table_setitem_lookup _ _ _ _ Hset).
  - destruct (Hrows (table_setitem_nonempty _ _ _ _ Hset)) as [-> _].
    by apply (table_setitem_ok _ _ _ _ Hset).
Qed.

Lemma new_haloprop_run_written d h h' :
  new_haloprop_run d h = Ok h' →
  ∀ k, k ∈ keys d → ∃ c, columns h' !! k = Some c ∧ length c = nrows h'.
Proof.
  intros Hrun k Hk. unfold keys in Hk.
  apply list_elem_of_split_r in Hk as (pre & post & Hsplit & Hk).
  apply fmap_app_inv in Hsplit as (dpre & drest & -> & Hrest & ->).
  destruct drest as [|[k' f] dpost]; [done|]. injection Hrest as -> ->.
  destruct (new_haloprop_run_last_write _ _ _ _ _ _ Hrun Hk) as (h1 & c & _ & _ & Hcol & Hlen).
  eauto.
Qed.
End preprocess.

(** The two functions of the example return one entry per row. *)
Lemma conc_functions_full :
  returns_full_columns
    [("halo_conc", MockCases.conc_from_mass); ("halo_conc_sq", MockCases.conc_squared)].
Proof.
  intros k f t c Hin [_ Hlen].
  apply elem_of_cons in Hin as [[= -> ->]|Hin];
    [|apply list_elem_of_singleton in Hin as [= -> ->]].
  - unfold MockCases.conc_from_mass, table_getitem.
    destruct (columns t !! "halo_mvir") as [c0|] eqn:Hc0; [|done].
    intros [= <-]. rewrite length_fmap. by eapply Hlen.
  - unfold MockCases.conc_squared, table_getitem.
    destruct (columns t !! "halo_conc") as [c0|] eqn:Hc0; [|done].
    intros [= <-]. rewrite length_fmap. by eapply Hlen.
Qed.

(** X12.  A call of [preprocess_halo_catalog] that returns, for a model
    with a [new_haloprop_func_dict], has run the entries of the dictionary
    in its iteration order up to the end, or up to an entry whose function
    raised [AttributeError], which ends the loop silently.  The names of the
    entries run have been appended to [additional_haloprops]; each is a
    column of the halo table with one entry per row; every other column of
    the halo table is as it was, the number of rows of a table with columns
    is kept, and the galaxy table is not touched.  The calls made are one per
    entry run, and one more for the function that raised. *)
Theorem preprocess_halo_catalog_adds_new_haloprops
    (model : SubhaloModel.t) (d : list (string * (Table → result column)))
    (s s' : SubhaloMockFactory.Mock) :
  SubhaloModel.new_haloprop_func_dict model = Some d →
  SubhaloMockFactory.preprocess_halo_catalog model s = (s', Ok tt) →
  ∃ done rest,
    d = done ++ rest
    ∧ match rest with
      | [] =>
          SubhaloMockFactory.calls s'
          = SubhaloMockFactory.calls s ++ (SubhaloMockFactory.CallNewHaloprop <$> keys done)
      | (k, f) :: _ =>
          (∃ msg, f (SubhaloMockFactory.halo_table s') = Raise (AttributeError msg))
          ∧ SubhaloMockFactory.calls s'
            = SubhaloMockFactory.calls s
              ++ (SubhaloMockFactory.CallNewHaloprop <$> keys done ++ [k])
      end
    ∧ SubhaloMockFactory.galaxy_table s' = SubhaloMockFactory.galaxy_table s
    ∧ SubhaloMockFactory.additional_haloprops s'
      = SubhaloMockFactory.additional_haloprops s ++ keys done
    ∧ (∀ k, k ∈ keys done →
         ∃ c, columns (SubhaloMockFactory.halo_table s') !! k = Some c
              ∧ length c = nrows (SubhaloMockFactory.halo_table s'))
    ∧ (∀ k, k ∉ keys done →
         columns (SubhaloMockFactory.halo_table s') !! k
         = columns (SubhaloMockFactory.halo_table s) !! k)
    ∧ (columns (SubhaloMockFactory.halo_table s) ≠ ∅ →
         nrows (SubhaloMockFactory.halo_table s') = nrows (SubhaloMockFactory.halo_table s))
    ∧ (table_wf (SubhaloMockFactory.halo_table s) →
         table_wf (SubhaloMockFactory.halo_table s')).
Proof.
  intros Hd Hpre.
  destruct (preprocess_halo_catalog_ok _ _ _ _ Hd Hpre)
    as (done & rest & Hsplit & Hrun & Hg & Hadd & Hcalls).
  exists done, rest.
  destruct (new_haloprop_run_frame _ _ _ Hrun) as (Hframe & Hrows & Hwf).
  split_and!; try done.
  - by apply (new_haloprop_run_written _ _ _ Hrun).
  - intros Hcols. by apply Hrows.
Qed.

(** X13.  In [preprocess_halo_catalog], for functions that return one entry
    per row, each function is called on the halo table as the entries before
    it have left it, new columns included.  When the call returns, either
    the column under a name is the value of its function on that table, or
    the loop has ended silently at that entry or before it, on a function
    that raised [AttributeError]. *)
Theorem preprocess_halo_catalog_sees_earlier_columns
    (model : SubhaloModel.t) (pre post : list (string * (Table → result column)))
    (k : string) (f : Table → result column) (s s' : SubhaloMockFactory.Mock) :
  SubhaloModel.new_haloprop_func_dict model = Some (pre ++ (k, f) :: post) →
  k ∉ keys post →
  returns_full_columns (pre ++ (k, f) :: post) →
  table_wf (SubhaloMockFactory.halo_table s) →
  SubhaloMockFactory.preprocess_halo_catalog model s = (s', Ok tt) →
  (∃ h1 c, new_haloprop_run pre (SubhaloMockFactory.halo_table s) = Ok h1
           ∧ (∀ k', k' ∈ keys pre → is_Some (columns h1 !! k'))
           ∧ f h1 = Ok c
           ∧ length c = nrows h1
           ∧ columns (SubhaloMockFactory.halo_table s') !! k = Some c)
  ∨ (∃ done item rest msg,
       pre ++ [(k, f)] = done ++ item :: rest
       ∧ new_haloprop_run done (SubhaloMockFactory.halo_table s)
         = Ok (SubhaloMockFactory.halo_table s')
       ∧ item.2 (SubhaloMockFactory.halo_table s') = Raise (AttributeError msg)).
Proof.
  intros Hd Hk Hfull Hwf Hpre.
  destruct (preprocess_halo_catalog_ok _ _ _ _ Hd Hpre)
    as (done & rest & Hsplit & Hrun & _ & _ & Hcalls).
  assert (∀ mid, done = pre ++ (k, f) :: mid → k ∉ keys mid →
            ∃ h1 c, new_haloprop_run pre (SubhaloMockFactory.halo_table s) = Ok h1
                    ∧ (∀ k', k' ∈ keys pre → is_Some (columns h1 !! k'))
                    ∧ f h1 = Ok c
                    ∧ length c = nrows h1
                    ∧ columns (SubhaloMockFactory.halo_table s') !! k = Some c) as Hleft.
  { intros mid -> Hmid.
    destruct (new_haloprop_run_last_write _ _ _ _ _ _ Hrun Hmid)
      as (h1 & c & Hh1 & Hf & Hcol & _).
    exists h1, c. split_and!; try done.
    - intros k' Hk'. destruct (new_haloprop_run_written _ _ _ Hh1 _ Hk') as (c' & -> & _).
      by eexists.
    - apply (Hfull k f h1 c); [|by apply (new_haloprop_run_frame _ _ _ Hh1)|done].
      apply elem_of_app. right. left. }
  apply app_eq_inv in Hsplit as [(m & -> & ->)|(m & -> & Hm)].
  - (* the loop stopped before reaching [k] *)
    right. destruct m as [|[k0 f0] m].
    + destruct Hcalls as [[msg Hmsg] _]. exists done, (k, f), [], msg.
      by rewrite app_nil_r.
    + destruct Hcalls as [[msg Hmsg] _]. exists done, (k0, f0), (m ++ [(k, f)]), msg.
      by rewrite <- app_assoc.
  - destruct m as [|[k0 f0] m].
    + (* it stopped at [k] *)
      right. cbn in Hm. subst rest. destruct Hcalls as [[msg Hmsg] _].
      exists pre, (k, f), [], msg. by rewrite app_nil_r in *.
    + (* it went past [k] *)
      left. injection Hm as -> -> ->. apply (Hleft m); [done|].
      unfold keys in *. rewrite fmap_app in Hk. by apply not_elem_of_app in Hk as [? _].
Qed.

(** X12 on the catalogue of four halos, where the second of three functions
    raises [AttributeError]: the call returns with the first name appended
    and the third function never called. *)
Lemma preprocess_halo_catalog_adds_new_haloprops_witness :
  SubhaloMockFactory.preprocess_halo_catalog MockCases.model_new_haloprops_stopped
    Examples.fresh_mock = (MockCases.preprocessed_stopped, Ok tt)
  ∧ (∃ done rest,
       [("halo_conc", MockCases.conc_from_mass); ("halo_spin", MockCases.spin_of_table);
        ("halo_conc_sq", MockCases.conc_squared)] = done ++ rest
       ∧ SubhaloMockFactory.additional_haloprops MockCases.preprocessed_stopped
         = Examples.inherited ++ keys done)
  ∧ SubhaloMockFactory.additional_haloprops MockCases.preprocessed_stopped
    = Examples.inherited ++ ["halo_conc"]
  ∧ SubhaloMockFactory.calls MockCases.preprocessed_stopped
    = [SubhaloMockFactory.CallNewHaloprop "halo_conc";
       SubhaloMockFactory.CallNewHaloprop "halo_spin"]
  ∧ nrows (SubhaloMockFactory.halo_table MockCases.preprocessed_stopped) = 4.
Proof.
  destruct (preprocess_halo_catalog_adds_new_haloprops MockCases.model_new_haloprops_stopped
              [("halo_conc", MockCases.conc_from_mass);
               ("halo_spin", MockCases.spin_of_table);
               ("halo_conc_sq", MockCases.conc_squared)]
              Examples.fresh_mock MockCases.preprocessed_stopped)
    as (done & rest & Hsplit & _ & _ & Hadditional & _ & _ & Hrows & _).
  - reflexivity.
  - by vm_compute.
  - split_and!.
    + by vm_compute.
    + exists done, rest. split; [exact Hsplit | exact Hadditional].
    + by vm_compute.
    + by vm_compute.
    + rewrite Hrows; by vm_compute.
Defined.

(** X13 on the model with two new halo properties: the squared
    concentration is computed from the new concentration column. *)
Lemma preprocess_halo_catalog_sees_earlier_columns_witness :
  columns (SubhaloMockFactory.halo_table MockCases.preprocessed) !! "halo_conc_sq"
  = Some [Num 4; Num 9; Num 16; Num 25].
Proof.
  destruct (preprocess_halo_catalog_sees_earlier_columns MockCases.model_new_haloprops
              [("halo_conc", MockCases.conc_from_mass)] [] "halo_conc_sq"
              MockCases.conc_squared Examples.fresh_mock MockCases.preprocessed)
    as [(h1 & c & Hpre & _ & Hf & _ & Hcol)|(done & item & rest & msg & Hsplit & _ & Hraise)].
  - reflexivity.
  - apply not_elem_of_nil.
  - apply conc_functions_full.
  - apply (bool_decide_unpack _). by vm_compute.
  - by vm_compute.
  - rewrite Hcol. vm_compute in Hpre. injection Hpre as <-.
    vm_compute in Hf. injection Hf as <-. reflexivity.
  - exfalso. destruct done as [|i0 [|i1 [|i2 done]]]; try done.
    + injection Hsplit as <- <-. vm_compute in Hraise. done.
    + injection Hsplit as <- <- <-. vm_compute in Hraise. done.
Defined.

(** ** What [precompute_galprops] touches *)

Lemma nine_not_gal_type (k : string) :
  String.length k = 9 → k ≠ "_gal_type" → ∀ galprop, k ≠ galprop +:+ "_gal_type".
Proof.
  intros Hlen Hne galprop ->. rewrite string_length_app in Hlen.
  destruct galprop; [done|]. simpl in Hlen. lia.
Qed.

Section precompute_effects.
Import SubhaloMockFactory.
Context (model : SubhaloModel.t).
Implicit Types (s : Mock) (ks : list string).

(** The bodies of the three loops of [precompute_galprops]. *)
Let inherit_body (key : string) : M unit :=
  h ← gets halo_table;
  c ← lift (table_getitem h key);
  galaxy_table_setitem key c.
Let phase_body (newkey : string) : M unit :=
  g ← gets galaxy_table;
  c ← lift (table_getitem g (host_haloprop_prefix +:+ newkey));
  galaxy_table_setitem newkey c.
Let gal_type_body (galprop : string) : M unit :=
  component_model ← lift (HodFactory.dict_getitem (SubhaloModel.model_blueprint model) galprop);
  match SubhaloModel.gal_type_func component_model with
  | Some gal_type_func =>
      let newkey := galprop +:+ "_gal_type" in
      g ← gets galaxy_table;
      record (CallGalTypeFunc galprop);;
      galaxy_table_setitem newkey (gal_type_func g)
  | None => mret tt
  end.

Lemma inherit_body_calls key s s1 :
  inherit_body key s = (s1, Ok tt) → calls s1 = calls s.
Proof.
  cbv [inherit_body mbind M_bind lift gets galaxy_table_setitem set_galaxy_table
       table_getitem].
  destruct (columns (halo_table s) !! key) as [c|]; [|done].
  destruct (table_setitem (galaxy_table s) key c) as [g'|]; [|done].
  by intros [= <-].
Qed.

Lemma phase_body_calls newkey s s1 :
  phase_body newkey s = (s1, Ok tt) →
  calls s1 = calls s ∧ additional_haloprops s1 = additional_haloprops s.
Proof.
  cbv [phase_body mbind M_bind lift gets galaxy_table_setitem set_galaxy_table
       table_getitem].
  destruct (columns (galaxy_table s) !! (host_haloprop_prefix +:+ newkey)) as [c|]; [|done].
  destruct (table_setitem (galaxy_table s) newkey c) as [g'|]; [|done].
  by intros [= <-].
Qed.

Lemma gal_type_body_calls galprop s s1 :
  gal_type_body galprop s = (s1, Ok tt) →
  is_Some (SubhaloModel.model_blueprint model !! galprop)
  ∧ additional_haloprops s1 = additional_haloprops s
  ∧ calls s1 = calls s ++ (if has_gal_type_func model galprop
                           then [CallGalTypeFunc galprop] else []).
Proof.
  cbv [gal_type_body mbind M_bind lift HodFactory.dict_getitem has_gal_type_func].
  destruct (SubhaloModel.model_blueprint model !! galprop) as [component_model|]; [|done].
  destruct (SubhaloModel.gal_type_func component_model) as [f|].
  - cbv [mbind M_bind lift gets record galaxy_table_setitem set_galaxy_table].
    cbn [galaxy_table halo_table additional_haloprops calls].
    destruct (table_setitem (galaxy_table s) (galprop +:+ "_gal_type") (f (galaxy_table s)))
      as [g'|]; [|done].
    intros [= <-]. by split_and!.
  - intros [= <-]. rewrite app_nil_r. by split_and!.
Qed.

Lemma inherit_loop_calls ks s s1 :
  for_ ks inherit_body s = (s1, Ok tt) → calls s1 = calls s.
Proof.
  revert s. induction ks as [|k0 ks IH]; intros s; [by intros [= <-]|].
  cbn [for_]. intros ([] & s0 & Hbody & Hrest)%bind_ok.
  rewrite (IH _ Hrest). by apply inherit_body_calls in Hbody.
Qed.

Lemma phase_loop_calls ks s s1 :
  for_ ks phase_body s = (s1, Ok tt) →
  calls s1 = calls s ∧ additional_haloprops s1 = additional_haloprops s.
Proof.
  revert s. induction ks as [|k0 ks IH]; intros s; [by intros [= <-]|].
  cbn [for_]. intros ([] & s0 & Hbody & Hrest)%bind_ok.
  destruct (IH _ Hrest) as [-> ->]. by apply phase_body_calls in Hbody.
Qed.

Lemma gal_type_loop_calls ks s s1 :
  for_ ks gal_type_body s = (s1, Ok tt) →
  (∀ galprop, galprop ∈ ks → is_Some (SubhaloModel.model_blueprint model !! galprop))
  ∧ additional_haloprops s1 = additional_haloprops s
  ∧ calls s1 = calls s ++ (CallGalTypeFunc
                             <$> filter (λ galprop, has_gal_type_func model galprop = true) ks).
Proof.
  revert s. induction ks as [|k0 ks IH]; intros s.
  - intros [= <-]. rewrite app_nil_r. split_and!; [|done..]. by intros ? ?%elem_of_nil.
  - cbn [for_]. intros ([] & s0 & Hbody & Hrest)%bind_ok.
    destruct (IH _ Hrest) as (Hin & -> & ->).
    apply gal_type_body_calls in Hbody as (Hk0 & -> & ->). split_and!; [|done|].
    + intros galprop [->|?]%elem_of_cons; [done | by apply Hin].
    + destruct (has_gal_type_func model k0) eqn:Hhas.
      * rewrite filter_cons_True by done. by rewrite fmap_cons, <- app_assoc.
      * rewrite filter_cons_False by (by rewrite Hhas). by rewrite app_nil_r.
Qed.

(** What a call of [precompute_galprops] that returns has done, beyond the
    phase-space columns and [galid]. *)
Lemma precompute_galprops_effects s s' :
  precompute_galprops model s = (s', Ok tt) →
  halo_table s' = halo_table s
  ∧ additional_haloprops s' = additional_haloprops s
  ∧ calls s' = calls s ++ gal_type_calls model
  ∧ (∀ k, k ∈ additional_haloprops s →
       ∃ c, columns (halo_table s) !! k = Some c
            ∧ (inherited_only k → columns (galaxy_table s') !! k = Some c))
  ∧ (∀ k, k ∉ additional_haloprops s → inherited_only k →
       columns (galaxy_table s') !! k = columns (galaxy_table s) !! k)
  ∧ (∀ k, k ∈ phase_space_keys →
       host_haloprop_prefix +:+ k ∈ additional_haloprops s
       ∨ is_Some (columns (galaxy_table s) !! (host_haloprop_prefix +:+ k)))
  ∧ (∀ galprop, galprop ∈ SubhaloModel.galprop_list model →
       is_Some (SubhaloModel.model_blueprint model !! galprop)).
Proof.
  rewrite precompute_galprops_unfold.
  intros (additional & s0 & [= <- <-] & Hrun)%bind_ok.
  apply bind_ok in Hrun as ([] & sA & HloopA & Hrun).
  apply bind_ok in Hrun as ([] & sB & HloopB & Hrun).
  apply bind_ok in Hrun as (g & sB' & [= <- <-] & Hrun).
  apply bind_ok in Hrun as ([] & sC & Hgalid & HloopC).
  destruct (inherit_loop _ _ _ HloopA) as (HhA & HaA & HinA & HoutA & _).
  pose proof (inherit_loop_calls _ _ _ HloopA) as HcA.
  destruct (phase_loop _ _ _ phase_space_keys_unprefixed HloopB)
    as (HhB & HinB & HoutB & _ & _).
  destruct (phase_loop_calls _ _ _ HloopB) as [HcB HaB].
  apply galaxy_table_setitem_ok in Hgalid as (gC & HsetC & ->).
  destruct (table_setitem_lookup _ _ _ _ HsetC) as [_ HotherC].
  destruct (gal_type_loop _ _ _ _ HloopC) as (HhC & HoutC & _ & _).
  destruct (gal_type_loop_calls _ _ _ HloopC) as (HinC & HaC & HcC).
  cbn [galaxy_table halo_table additional_haloprops calls] in *.
  assert (∀ k, inherited_only k →
            columns (galaxy_table s') !! k = columns (galaxy_table sA) !! k) as Hkeep.
  { intros k (Hphase & Hgalid & Hgal). rewrite (HoutC _ Hgal), (HotherC _ Hgalid).
    by apply HoutB. }
  split_and!.
  - by rewrite HhC, HhB, HhA.
  - by rewrite HaC, HaB, HaA.
  - rewrite HcC, HcB, HcA. done.
  - intros k Hk. destruct (HinA _ Hk) as (c & Hc & HcA'). exists c. split; [done|].
    intros Hinh. by rewrite (Hkeep _ Hinh).
  - intros k Hk Hinh. rewrite (Hkeep _ Hinh). by apply HoutA.
  - intros k Hk. destruct (HinB _ Hk) as (c & Hc & _).
    destruct (decide (host_haloprop_prefix +:+ k ∈ additional_haloprops s)) as [Hin|Hout];
      [by left|]. right. rewrite <- (HoutA _ Hout), Hc. by eexists.
  - done.
Qed.
End precompute_effects.

(** X14.  A call of [precompute_galprops] that returns leaves the halo table
    and the list [additional_haloprops] as they were; every name in that list
    is a column of the halo table, and, unless it is one of [x, y, z, vx, vy,
    vz], [galid] or a [<galprop>_gal_type], the galaxy table holds the very
    same column under it; a column of such a name that is not in the list is
    left as the galaxy table had it. *)
Theorem precompute_galprops_inherits_halo_columns
    (model : SubhaloModel.t) (s s' : SubhaloMockFactory.Mock) :
  SubhaloMockFactory.precompute_galprops model s = (s', Ok tt) →
  SubhaloMockFactory.additional_haloprops s' = SubhaloMockFactory.additional_haloprops s
  ∧ (∀ k, k ∈ SubhaloMockFactory.additional_haloprops s →
       ∃ c, columns (SubhaloMockFactory.halo_table s) !! k = Some c
            ∧ (inherited_only k →
               columns (SubhaloMockFactory.galaxy_table s') !! k = Some c))
  ∧ (∀ k, k ∉ SubhaloMockFactory.additional_haloprops s → inherited_only k →
       columns (SubhaloMockFactory.galaxy_table s') !! k
       = columns (SubhaloMockFactory.galaxy_table s) !! k).
Proof.
  intros (_ & Hadditional & _ & Hin & Hout & _)%precompute_galprops_effects. done.
Qed.

(** X14 on the example catalogue: the galaxies inherit the halo masses. *)
Lemma precompute_galprops_inherits_halo_columns_witness :
  ∃ c, columns Examples.halos !! "halo_mvir" = Some c
       ∧ (inherited_only "halo_mvir" →
          columns (SubhaloMockFactory.galaxy_table
                     (Examples.precomputed Examples.model_stellar_mass)) !! "halo_mvir"
          = Some c).
Proof.
  destruct (precompute_galprops_inherits_halo_columns Examples.model_stellar_mass
              Examples.fresh_mock (Examples.precomputed Examples.model_stellar_mass))
    as (_ & Hin & _).
  - by vm_compute.
  - apply (Hin "halo_mvir"). apply (bool_decide_unpack _). by vm_compute.
Defined.

(** X15.  [precompute_galprops] raises when a name in [additional_haloprops]
    is not a column of the halo table; when, the galaxy table being the empty
    [Table()], the [halo_]-prefixed name of one of [x, y, z, vx, vy, vz] is
    not in [additional_haloprops]; and when a property of [galprop_list] is
    not a key of the model's blueprint. *)
Theorem precompute_galprops_requirements
    (model : SubhaloModel.t) (s : SubhaloMockFactory.Mock) :
  (∃ k, k ∈ SubhaloMockFactory.additional_haloprops s
        ∧ columns (SubhaloMockFactory.halo_table s) !! k = None)
  ∨ (SubhaloMockFactory.galaxy_table s = Table_new
     ∧ ∃ k, k ∈ SubhaloMockFactory.phase_space_keys
            ∧ SubhaloMockFactory.host_haloprop_prefix +:+ k
              ∉ SubhaloMockFactory.additional_haloprops s)
  ∨ (∃ galprop, galprop ∈ SubhaloModel.galprop_list model
                ∧ SubhaloModel.model_blueprint model !! galprop = None) →
  ∃ s' e, SubhaloMockFactory.precompute_galprops model s = (s', Raise e).
Proof.
  intros Hmissing.
  destruct (SubhaloMockFactory.precompute_galprops model s) as [s' [[]|e]] eqn:Hrun;
    [exfalso | eauto].
  apply precompute_galprops_effects in Hrun as (_ & _ & _ & Hin & _ & Hphase & Hgal).
  destruct Hmissing as [(k & Hk & Hnone)|[(Hnew & k & Hk & Hnot)|(galprop & Hg & Hnone)]].
  - destruct (Hin _ Hk) as (c & Hc & _). congruence.
  - destruct (Hphase _ Hk) as [?|[c Hc]]; [done|].
    rewrite Hnew in Hc. cbn in Hc. by rewrite lookup_empty in Hc.
  - destruct (Hgal _ Hg) as [c Hc]. congruence.
Qed.

(** X15 on a mock that inherits [halo_x] but not [halo_y]. *)
Lemma precompute_galprops_requirements_witness :
  ∃ s' e, SubhaloMockFactory.precompute_galprops Examples.model_stellar_mass
            FactoryCases.mock_without_positions = (s', Raise e).
Proof.
  apply precompute_galprops_requirements. right. left. split; [reflexivity|].
  exists "y". split; [right; left|]. apply (bool_decide_unpack _). by vm_compute.
Defined.

(** X16.  When the constructor, called with [populate=False], returns for
    a model with a [new_haloprop_func_dict], [preprocess_halo_catalog] has
    run the entries of the dictionary up to the end, or up to one whose
    function raised [AttributeError].  The names of the entries run have been
    appended to [additional_haloprops], and each of them that is not a
    phase-space name, [galid] or a [<galprop>_gal_type] is a column of the
    galaxy table, the same column that [preprocess_halo_catalog] put into the
    halo table. *)
Theorem init_inherits_new_haloprops
    (model : SubhaloModel.t) (d : list (string * (Table → result column)))
    (s s' : SubhaloMockFactory.Mock) :
  SubhaloModel.new_haloprop_func_dict model = Some d →
  SubhaloMockFactory.__init__ model false s = (s', Ok tt) →
  ∃ done rest,
    d = done ++ rest
    ∧ match rest with
      | [] => True
      | (k, f) :: _ =>
          ∃ msg, f (SubhaloMockFactory.halo_table s') = Raise (AttributeError msg)
      end
    ∧ SubhaloMockFactory.additional_haloprops s'
      = SubhaloMockFactory.additional_haloprops s ++ keys done
    ∧ ∀ k, k ∈ keys done → inherited_only k →
        ∃ c, columns (SubhaloMockFactory.halo_table s') !! k = Some c
             ∧ columns (SubhaloMockFactory.galaxy_table s') !! k = Some c
             ∧ length c = nrows (SubhaloMockFactory.halo_table s').
Proof.
  intros Hd. unfold SubhaloMockFactory.__init__.
  intros ([] & s0 & Hpre & Hrun)%bind_ok.
  apply bind_ok in Hrun as ([] & s1 & Hrun & [= <-]).
  destruct (preprocess_halo_catalog_ok _ _ _ _ Hd Hpre)
    as (done & rest & Hsplit & Hnew & _ & Hadd & Hcalls).
  apply precompute_galprops_effects in Hrun as (Hh & Ha & _ & Hin & _).
  exists done, rest. rewrite Hh, Ha. split_and!; [done| |done|].
  - destruct rest as [|[k f] rest]; [done|]. by destruct Hcalls as [? _].
  - intros k Hk Hinh.
    destruct (Hin k) as (c & Hc & Hg); [rewrite Hadd; apply elem_of_app; by right|].
    destruct (new_haloprop_run_written _ _ _ Hnew _ Hk) as (c' & Hc' & Hlen).
    exists c. split_and!; [done | by apply Hg | congruence].
Qed.

(** X16 on the model with two new halo properties: the galaxies inherit
    the new concentration. *)
Lemma init_inherits_new_haloprops_witness :
  ∃ c, columns (SubhaloMockFactory.halo_table FactoryCases.initialised) !! "halo_conc" = Some c
       ∧ columns (SubhaloMockFactory.galaxy_table FactoryCases.initialised) !! "halo_conc"
         = Some c
       ∧ length c = nrows (SubhaloMockFactory.halo_table FactoryCases.initialised).
Proof.
  destruct (init_inherits_new_haloprops MockCases.model_new_haloprops
              [("halo_conc", MockCases.conc_from_mass);
               ("halo_conc_sq", MockCases.conc_squared)]
              Examples.fresh_mock FactoryCases.initialised)
    as (done & rest & _ & _ & Hadd & Hcols).
  - reflexivity.
  - by vm_compute.
  - assert (keys done = ["halo_conc"; "halo_conc_sq"]) as Hdone.
    { apply (app_inv_head (SubhaloMockFactory.additional_haloprops Examples.fresh_mock)).
      rewrite <- Hadd. by vm_compute. }
    apply (Hcols "halo_conc"); [rewrite Hdone; left|]. split_and!.
    + apply (bool_decide_unpack _). by vm_compute.
    + done.
    + by apply nine_not_gal_type.
Defined.

(** X17.  A constructor call with [populate=True] that returns has called
    into the model in this order: the new-haloprop functions in the order of
    [new_haloprop_func_dict], all of them or up to and including one that
    raised [AttributeError]; then the [gal_type_func]s of the properties that
    have one in [galprop_list] order, the [mc_] functions in [galprop_list]
    order, and last the [galaxy_selection_func], if the model has one. *)
Theorem init_call_order (model : SubhaloModel.t) (s s' : SubhaloMockFactory.Mock) :
  SubhaloMockFactory.__init__ model true s = (s', Ok tt) →
  ∃ called,
    SubhaloMockFactory.calls s'
    = SubhaloMockFactory.calls s
      ++ (SubhaloMockFactory.CallNewHaloprop <$> called)
      ++ gal_type_calls model
      ++ (SubhaloMockFactory.CallMC <$> SubhaloModel.galprop_list model)
      ++ match SubhaloModel.galaxy_selection_func model with
         | Some _ => [SubhaloMockFactory.CallSelection]
         | None => []
         end
    ∧ called `prefix_of` keys (default [] (SubhaloModel.new_haloprop_func_dict model))
    ∧ (called = keys (default [] (SubhaloModel.new_haloprop_func_dict model))
       ∨ ∃ done k f rest msg,
           SubhaloModel.new_haloprop_func_dict model = Some (done ++ (k, f) :: rest)
           ∧ called = keys done ++ [k]
           ∧ f (SubhaloMockFactory.halo_table s') = Raise (AttributeError msg)).
Proof.
  unfold SubhaloMockFactory.__init__.
  intros ([] & s0 & Hpre & Hrun)%bind_ok.
  apply bind_ok in Hrun as ([] & s1 & Hrun & Hpop).
  assert (SubhaloMockFactory.halo_table s' = SubhaloMockFactory.halo_table s0) as Hhalo.
  { apply precompute_galprops_effects in Hrun as (<- & _).
    apply populate_ok in Hpop as (t1 & _ & Hsel).
    destruct (SubhaloModel.galaxy_selection_func model) as [sel|].
    - by destruct Hsel as (g' & _ & ->).
    - by subst s'. }
  assert (∀ called,
            SubhaloMockFactory.calls s0
            = SubhaloMockFactory.calls s ++ (SubhaloMockFactory.CallNewHaloprop <$> called) →
            SubhaloMockFactory.calls s'
            = SubhaloMockFactory.calls s
              ++ (SubhaloMockFactory.CallNewHaloprop <$> called)
              ++ gal_type_calls model
              ++ (SubhaloMockFactory.CallMC <$> SubhaloModel.galprop_list model)
              ++ match SubhaloModel.galaxy_selection_func model with
                 | Some _ => [SubhaloMockFactory.CallSelection]
                 | None => []
                 end) as Hcalls.
  { intros called H0.
    apply precompute_galprops_effects in Hrun as (_ & _ & H1 & _).
    apply populate_ok in Hpop as (t1 & _ & Hsel).
    destruct (SubhaloModel.galaxy_selection_func model) as [sel|].
    - destruct Hsel as (g' & _ & ->). cbn [SubhaloMockFactory.calls].
      rewrite H1, H0, <- !app_assoc. done.
    - rewrite Hsel. cbn [SubhaloMockFactory.calls].
      rewrite H1, H0, app_nil_r, <- !app_assoc. done. }
  destruct (SubhaloModel.new_haloprop_func_dict model) as [d|] eqn:Hd.
  - destruct (preprocess_halo_catalog_ok _ _ _ _ Hd Hpre)
      as (done & rest & Hsplit & _ & _ & _ & Hnew).
    destruct rest as [|[k f] rest].
    + rewrite app_nil_r in Hsplit. subst d. exists (keys done).
      split_and!; [by apply Hcalls | done | by left].
    + destruct Hnew as [[msg Hmsg] Hnew]. subst d. exists (keys done ++ [k]).
      split_and!; [by apply Hcalls | |].
      * exists (keys rest). cbn [from_option id]. unfold keys.
        rewrite fmap_app, fmap_cons, <- app_assoc. done.
      * right. exists done, k, f, rest, msg. by rewrite Hhalo.
  - rewrite preprocess_halo_catalog_unfold, Hd in Hpre. injection Hpre as <-.
    exists []. split_and!; [|done|by left].
    apply Hcalls. cbn. by rewrite app_nil_r.
Qed.

(** X17 on the same model, populated. *)
Lemma init_call_order_witness :
  ∃ called,
    SubhaloMockFactory.calls FactoryCases.initialised_populated
    = (SubhaloMockFactory.CallNewHaloprop <$> called)
      ++ [SubhaloMockFactory.CallGalTypeFunc "stellar_mass";
          SubhaloMockFactory.CallMC "stellar_mass"]
    ∧ called `prefix_of` ["halo_conc"; "halo_conc_sq"]
    ∧ SubhaloMockFactory.calls FactoryCases.initialised_populated
      = [SubhaloMockFactory.CallNewHaloprop "halo_conc";
         SubhaloMockFactory.CallNewHaloprop "halo_conc_sq";
         SubhaloMockFactory.CallGalTypeFunc "stellar_mass";
         SubhaloMockFactory.CallMC "stellar_mass"].
Proof.
  destruct (init_call_order MockCases.model_new_haloprops Examples.fresh_mock
              FactoryCases.initialised_populated) as (called & Hcalls & Hprefix & _);
    [by vm_compute|].
  exists called. split_and!; [|exact Hprefix|by vm_compute].
  rewrite Hcalls. by vm_compute.
Defined.

(** The Monte Carlo functions of the luminosity model return one entry per
    row. *)
Lemma model_luminosity_full : mc_full_columns FactoryCases.model_luminosity.
Proof.
  assert (∀ key t, table_wf t → length (FactoryCases.column_or_zeros key t) = nrows t)
    as Hcol.
  { intros key t [_ Hlen]. unfold FactoryCases.column_or_zeros.
    destruct (columns t !! key) as [c|] eqn:Hc; cbn [default].
    - by eapply Hlen.
    - by rewrite length_replicate. }
  intros galprop f t Hf Hwf. cbn in Hf.
  apply lookup_insert_Some in Hf as [[_ <-]|[_ [_ <-]%lookup_singleton_Some]].
  - by apply Hcol.
  - unfold FactoryCases.mc_luminosity. rewrite length_fmap. by apply Hcol.
Qed.

(** X18.  In a call of [populate] that returns, for a model without a
    [galaxy_selection_func] whose Monte Carlo functions return one entry per
    row, on a galaxy table whose columns have one entry per row: the column
    of a property is the value of its [mc_] function on the galaxy table as
    the properties before it in [galprop_list] have left it.  That table has
    their columns, and is the table [populate] was called on in every other
    column. *)
Theorem populate_column_from_earlier_properties
    (model : SubhaloModel.t) (pre post : list string) (k : string)
    (s s' : SubhaloMockFactory.Mock) :
  SubhaloModel.galaxy_selection_func model = None →
  SubhaloModel.galprop_list model = pre ++ k :: post → k ∉ post →
  mc_full_columns model →
  table_wf (SubhaloMockFactory.galaxy_table s) →
  SubhaloMockFactory.populate model s = (s', Ok tt) →
  ∃ t1 f, mc_run model pre (SubhaloMockFactory.galaxy_table s) = Ok t1
    ∧ SubhaloModel.attributes model !! ("mc_" +:+ k) = Some f
    ∧ length (f t1) = nrows t1
    ∧ columns (SubhaloMockFactory.galaxy_table s') !! k = Some (f t1)
    ∧ (∀ k', k' ∈ pre → is_Some (columns t1 !! k'))
    ∧ (∀ k', k' ∉ pre →
         columns t1 !! k' = columns (SubhaloMockFactory.galaxy_table s) !! k').
Proof.
  intros Hsel Hlist Hk Hfull Hwf (t' & Hrun & Hs')%populate_ok.
  rewrite Hsel in Hs'. subst s'. cbn [SubhaloMockFactory.galaxy_table].
  rewrite Hlist in Hrun.
  destruct (mc_run_last_write _ _ _ _ _ _ Hrun Hk) as (t1 & f & Hpre & Hf & Hcol & _ & _).
  exists t1, f. split_and!; [done..| | | |].
  - apply (Hfull k f t1 Hf). by apply (mc_run_wf _ _ _ _ Hwf Hpre).
  - done.
  - intros k' Hk'. destruct (mc_run_written _ _ _ _ Hpre _ Hk') as (c & -> & _).
    by eexists.
  - intros k' Hk'. by apply (mc_run_frame _ _ _ _ Hpre).
Qed.

(** X18 on a luminosity that is twice the stellar mass. *)
Lemma populate_column_from_earlier_properties_witness :
  columns (SubhaloMockFactory.galaxy_table FactoryCases.populated_luminosity) !! "luminosity"
  = Some [Num 24; Num 26; Num 28; Num 30].
Proof.
  destruct (populate_column_from_earlier_properties FactoryCases.model_luminosity
              ["stellar_mass"] [] "luminosity"
              (Examples.precomputed FactoryCases.model_luminosity)
              FactoryCases.populated_luminosity)
    as (t1 & f & Hpre & Hf & _ & Hcol & _).
  - reflexivity.
  - reflexivity.
  - apply not_elem_of_nil.
  - apply model_luminosity_full.
  - apply (bool_decide_unpack _). by vm_compute.
  - by vm_compute.
  - rewrite Hcol.
    assert (SubhaloModel.attributes FactoryCases.model_luminosity !! ("mc_" +:+ "luminosity")
            = Some FactoryCases.mc_luminosity) as Hf' by (by vm_compute).
    rewrite Hf' in Hf. injection Hf as <-.
    vm_compute in Hpre. injection Hpre as <-. by vm_compute.
Defined.
